(** * traveler-app: the state logic of [src/App.jsx]

    A shallow embedding of the handlers of the travel companion app: the
    currency conversion of the expense form, the payer registry, the expense
    ledger and its filter, the itinerary store with its day buckets, the
    geocoding retry loop, the selection of map points, the two forms and the
    two calendars.

    Conventions of the embedding:
    - a JavaScript string is a [string], the bytes of its UTF-8 encoding,
      and [===] on strings is [=];
    - a number that takes part in arithmetic is an IEEE 754 double
      ([Js.number]); a coordinate, which is only stored and tested for
      truthiness, is the rational its literal denotes;
    - a React state updater [setX (prev => ...)] is the function from [prev]
      to the next state, and [window.confirm] is a boolean argument;
    - asynchronous code is a pure function that also returns the trace of what
      it awaited. *)

From Stdlib Require Import Ascii QArith Qround Qabs Qpower Lqa.
From stdpp Require Import base list strings gmap sorting.

Close Scope Q_scope.

(** ** The JavaScript built-ins used by the handlers *)

Module Js.

(** [a.localeCompare(b)]. The handlers call it on the [YYYY-MM-DD] and
    [HH:MM] texts produced by the date and time inputs; on such fixed-format
    digit strings collation order is the lexicographic order of the
    characters, which is what this model computes. *)
Definition localeCompare (a b : string) : comparison := String.compare a b.

(** [a < b] on strings compares code units lexicographically; [a >= b] is
    evaluated as the negation of [a < b], and [a <= b] as that of [b < a].
    The model compares bytes, which is the same order on the ASCII texts
    (dates) that the handlers compare. *)
Definition str_lt (a b : string) : bool := String.ltb a b.
Definition str_ge (a b : string) : bool := negb (str_lt a b).
Definition str_le (a b : string) : bool := negb (str_lt b a).

(** Truthiness of a string: only the empty string is falsy. *)
Definition truthy_str (s : string) : bool :=
  match s with "" => false | _ => true end.

(** The values a coordinate field holds: absent, [null] or a number. Zero is
    the only falsy number here. *)
Inductive value := Undefined | Null | Number (q : Q).

Definition truthy (v : value) : bool :=
  match v with
  | Number q => negb (Qeq_bool q 0)
  | Undefined | Null => false
  end.

(** [s.trim()]. It strips the white space and line terminators of
    ECMAScript from both ends. A text is held as the bytes of its UTF-8
    encoding, so each of these characters is the byte sequence that encodes
    it: U+0009 to U+000D and U+0020, then U+00A0, U+1680, U+2000 to U+200A,
    U+2028, U+2029, U+202F, U+205F, U+3000 and U+FEFF. *)
Definition white_space : list (list ascii) := [
  ["009"]; ["010"]; ["011"]; ["012"]; ["013"]; ["032"];
  ["194"; "160"];
  ["225"; "154"; "128"];
  ["226"; "128"; "128"]; ["226"; "128"; "129"]; ["226"; "128"; "130"];
  ["226"; "128"; "131"]; ["226"; "128"; "132"]; ["226"; "128"; "133"];
  ["226"; "128"; "134"]; ["226"; "128"; "135"]; ["226"; "128"; "136"];
  ["226"; "128"; "137"]; ["226"; "128"; "138"];
  ["226"; "128"; "168"]; ["226"; "128"; "169"];
  ["226"; "128"; "175"];
  ["226"; "129"; "159"];
  ["227"; "128"; "128"];
  ["239"; "187"; "191"]
]%char.

Fixpoint starts_with (w l : list ascii) : bool :=
  match w, l with
  | [], _ => true
  | c :: w', c' :: l' => Ascii.eqb c c' && starts_with w' l'
  | _ :: _, [] => false
  end.

(** [strip ws fuel l] drops from the front of [l] one sequence of [ws] after
    the other; a fuel of the length of [l] is never used up. *)
Fixpoint strip (ws : list (list ascii)) (fuel : nat) (l : list ascii) : list ascii :=
  match fuel with
  | 0 => l
  | S fuel' =>
      match find (λ w, starts_with w l) ws with
      | Some w => strip ws fuel' (drop (length w) l)
      | None => l
      end
  end.

Definition trimStart (s : string) : string :=
  let l := String.list_ascii_of_string s in
  String.string_of_list_ascii (strip white_space (length l) l).

Definition trimEnd (s : string) : string :=
  let l := reverse (String.list_ascii_of_string s) in
  String.string_of_list_ascii
    (reverse (strip (reverse <$> white_space) (length l) l)).

Definition trim (s : string) : string := trimEnd (trimStart s).

(** [l.findIndex(P)]: [None] stands for the result [-1]. The element found
    comes with its index, as [l[i]] is what the callers read next. *)
Definition findIndex {A} (P : A → Prop) `{∀ x, Decision (P x)} (l : list A) :
  option (nat * A) := list_find P l.

(** [l.some(P)] and [l.includes(x)]. *)
Definition some {A} (P : A → Prop) `{∀ x, Decision (P x)} (l : list A) : bool :=
  bool_decide (Exists P l).

Definition includes {A} `{EqDecision A} (x : A) (l : list A) : bool :=
  bool_decide (x ∈ l).

(** [l.sort(compareFn)]. The sort is stable (ECMAScript 2019), so for a
    consistent comparator the result is the one stable sorted arrangement of
    [l], which insertion from the right computes: an element moves past
    exactly those it compares greater than. *)
Fixpoint sort_insert {A} (compareFn : A → A → comparison) (x : A) (l : list A) :
  list A :=
  match l with
  | [] => [x]
  | y :: l' =>
      match compareFn x y with
      | Gt => y :: sort_insert compareFn x l'
      | _ => x :: l
      end
  end.

Definition sort {A} (compareFn : A → A → comparison) (l : list A) : list A :=
  foldr (sort_insert compareFn) [] l.

(** [x] may stand before [y] in an array sorted with [compareFn]. *)
Definition in_order {A} (compareFn : A → A → comparison) (x y : A) : Prop :=
  compareFn x y ≠ Gt.

(** ** Numbers

    A Number is an IEEE 754 double: not-a-number, an infinity, a zero with
    its sign, or a non-zero finite double, held as the rational it denotes
    in lowest terms. An arithmetic operation yields the exact result rounded
    to the nearest double, a tie going to the even mantissa. *)
Inductive number :=
  | NaN
  | Infinity (negative : bool)
  | Zero (negative : bool)
  | Finite (q : Q).

Definition pow2 (e : Z) : Q := Qpower 2 e.

(** The binade of a non-zero [x]: the [e] with [2 ^ (e - 1) <= |x| < 2 ^ e]. *)
Definition binade (x : Q) : Z :=
  let e := (Z.log2 (Z.abs (Qnum x)) - Z.log2 (Z.pos (Qden x)))%Z in
  if Qle_bool (pow2 e) (Qabs x) then (e + 1)%Z else e.

Definition roundTiesToEven (x : Q) : Z :=
  let f := Qfloor x in
  match (x - inject_Z f ?= 1 # 2)%Q with
  | Lt => f
  | Gt => (f + 1)%Z
  | Eq => if Z.even f then f else (f + 1)%Z
  end.

(** A non-zero [x] rounded to the grid of the doubles around it: the
    doubles of the binade of [x] are the multiples of [2 ^ (binade x - 53)],
    the subnormal ones those of [2 ^ -1074]. *)
Definition round_double (x : Q) : Q :=
  let e := Z.max (binade x - 53) (-1074) in
  (inject_Z (roundTiesToEven (x / pow2 e)) * pow2 e)%Q.

Definition is_negative (x : Q) : bool := negb (Qle_bool 0 x).

(** The Number value for a real [x], which is also the value of a numeric
    literal: [x] rounded to a double, an infinity from [2 ^ 1024] on; a
    rounded value of zero keeps the sign of [x]. *)
Definition numberOf (x : Q) : number :=
  let x := Qred x in
  if Qeq_bool x 0 then Zero false
  else
    let r := Qred (round_double x) in
    if Qle_bool (pow2 1024) (Qabs r) then Infinity (is_negative x)
    else if Qeq_bool r 0 then Zero (is_negative x)
    else Finite r.

Definition isNaN (x : number) : bool :=
  match x with NaN => true | _ => false end.

Definition sign (x : number) : bool :=
  match x with
  | NaN => false
  | Infinity s | Zero s => s
  | Finite q => is_negative q
  end.

(** [x * y], [x / y] and [x + y]. *)
Definition mul (x y : number) : number :=
  match x, y with
  | NaN, _ | _, NaN => NaN
  | Infinity _, Zero _ | Zero _, Infinity _ => NaN
  | Infinity _, _ | _, Infinity _ => Infinity (xorb (sign x) (sign y))
  | Zero _, _ | _, Zero _ => Zero (xorb (sign x) (sign y))
  | Finite a, Finite b => numberOf (a * b)
  end.

Definition div (x y : number) : number :=
  match x, y with
  | NaN, _ | _, NaN => NaN
  | Infinity _, Infinity _ | Zero _, Zero _ => NaN
  | Infinity _, _ | _, Zero _ => Infinity (xorb (sign x) (sign y))
  | Zero _, _ | _, Infinity _ => Zero (xorb (sign x) (sign y))
  | Finite a, Finite b => numberOf (a / b)
  end.

Definition add (x y : number) : number :=
  match x, y with
  | NaN, _ | _, NaN => NaN
  | Infinity s, Infinity s' => if Bool.eqb s s' then x else NaN
  | Infinity _, _ => x
  | _, Infinity _ => y
  | Zero s, Zero s' => Zero (s && s')
  | Zero _, _ => y
  | _, Zero _ => x
  | Finite a, Finite b =>
      if Qeq_bool (a + b) 0 then Zero false else numberOf (a + b)
  end.

(** [Math.round(x)]: the nearest integer, a tie going up; a negative [x]
    that rounds to zero gives the negative zero. *)
Definition Math_round (x : number) : number :=
  match x with
  | Finite q =>
      let n := Qfloor (q + (1 # 2)) in
      if (n =? 0)%Z then Zero (is_negative q) else Finite (inject_Z n)
  | _ => x
  end.

(** The real number a finite Number stands for. *)
Definition denotes (x : number) (q : Q) : Prop :=
  match x with
  | Finite y => (y == q)%Q
  | Zero _ => (q == 0)%Q
  | NaN | Infinity _ => False
  end.

(** Decimal digits. *)
Definition digit (c : ascii) : option Z := Z.of_nat <$> Ascii.is_nat c.

Fixpoint read_digits (s : string) (acc : Z) (n : nat) : Z * nat * string :=
  match s with
  | String c s' =>
      match digit c with
      | Some d => read_digits s' (10 * acc + d)%Z (S n)
      | None => (acc, n, s)
      end
  | "" => (acc, n, s)
  end.

Definition read_sign (s : string) : bool * string :=
  match s with
  | String "-" s' => (true, s')
  | String "+" s' => (false, s')
  | _ => (false, s)
  end.

Definition read_exponent (s : string) : Z :=
  match s with
  | String c s' =>
      if bool_decide (c = "e"%char ∨ c = "E"%char) then
        let '(neg, s'') := read_sign s' in
        let '(e, n, _) := read_digits s'' 0%Z 0 in
        if bool_decide (n = 0) then 0%Z else if neg then (- e)%Z else e
      else 0%Z
  | "" => 0%Z
  end.

(** [parseFloat(s)]: the Number value of the longest prefix of [s], after
    leading white space, that is a decimal literal (sign, then [Infinity] or
    digits, fraction and exponent); [NaN] when there is none. *)
Definition parseFloat (s : string) : number :=
  let '(neg, s1) := read_sign (trimStart s) in
  if String.prefix "Infinity" s1 then Infinity neg
  else
    let '(ip, n1, s2) := read_digits s1 0%Z 0 in
    let '(fp, n2, s3) :=
      match s2 with
      | String "." s2' => read_digits s2' 0%Z 0
      | _ => (0%Z, 0, s2)
      end in
    if bool_decide (n1 + n2 = 0) then NaN
    else
      let scale := (10 ^ Z.of_nat n2)%Z in
      let mantissa := ((ip * scale + fp) # Z.to_pos scale)%Q in
      let x := (mantissa * Qpower (10 # 1) (read_exponent s3))%Q in
      if Qeq_bool x 0 then Zero neg
      else numberOf (if neg then (- x)%Q else x).

(** Day number of a civil date, counted from 1970-01-01. *)
Definition days_from_civil (y m d : Z) : Z :=
  let y' := if (m <=? 2)%Z then (y - 1)%Z else y in
  let era := (y' / 400)%Z in
  let yoe := (y' - era * 400)%Z in
  let mp := if (m <=? 2)%Z then (m + 9)%Z else (m - 3)%Z in
  let doy := ((153 * mp + 2) / 5 + d - 1)%Z in
  let doe := (yoe * 365 + yoe / 4 - yoe / 100 + doy)%Z in
  (era * 146097 + doe - 719468)%Z.

Definition is_leap (y : Z) : bool :=
  bool_decide (y mod 4 = 0 ∧ (y mod 100 ≠ 0 ∨ y mod 400 = 0))%Z.

Definition days_in_month (y m : Z) : Z :=
  if bool_decide (m = 2)%Z then (if is_leap y then 29 else 28)%Z
  else if bool_decide (m ∈ [4; 6; 9; 11])%Z then 30%Z
  else 31%Z.

Definition number_of (cs : list ascii) : option Z :=
  foldl (λ acc c, n ← acc; d ← digit c; Some (10 * n + d)%Z) (Some 0%Z) cs.

(** The time value of [new Date(s)] in milliseconds, for the date-only form
    [YYYY-MM-DD] that the date input yields (read as UTC midnight). [None] is
    the [NaN] time value of an invalid date; the empty string of a cleared
    date input is one. Other textual forms are not produced by the input and
    count as invalid here. *)
Definition Date_value (s : string) : option Z :=
  match String.list_ascii_of_string s with
  | [y1; y2; y3; y4; "-"; m1; m2; "-"; d1; d2]%char =>
      y ← number_of [y1; y2; y3; y4];
      m ← number_of [m1; m2];
      d ← number_of [d1; d2];
      if bool_decide (1 ≤ m ≤ 12 ∧ 1 ≤ d ≤ days_in_month y m)%Z
      then Some (days_from_civil y m d * 86400000)%Z
      else None
  | _ => None
  end.

(** The sign of the difference [x - y] of two time values as a comparator
    result; a [NaN] difference counts as [+0]. *)
Definition minus_sign (x y : option Z) : comparison :=
  match x, y with
  | Some tx, Some ty => (tx ?= ty)%Z
  | _, _ => Eq
  end.

End Js.

(** ** Data model *)

(** The keys of [EXCHANGE_RATES]. *)
Inductive currency_code := TWD | USD | JPY | EUR | CNY.

Definition EXCHANGE_RATES (c : currency_code) : Js.number :=
  match c with
  | TWD => Js.numberOf 1
  | USD => Js.numberOf 32.0
  | JPY => Js.numberOf 0.22
  | EUR => Js.numberOf 35.0
  | CNY => Js.numberOf 4.5
  end%Q.

Definition CURRENCIES : list currency_code := [TWD; USD; JPY; EUR; CNY].

Definition DEFAULT_PAYERS : list string := ["我 (Me)"; "John"; "Jane"; "Max"].

Module Expense.
Record t := mk {
  id : Z;
  date : string;
  category : string;
  description : string;
  amount : Js.number;
  currency : currency_code;
  inputAmount : Js.number;
  inputCurrency : currency_code;
  payer : string;
}.
End Expense.

(** A stored activity. The seed entries carry no [date] field; an activity
    that went through the form carries the date it was saved with. *)
Module Activity.
Record t := mk {
  id : string;
  date : option string;
  time : string;
  icon : string;
  description : string;
  location : string;
  lat : Js.value;
  lng : Js.value;
}.
End Activity.

(** The object [ActivityForm] hands to [onSave]: the activity with the date
    chosen in the form and [originalDate], the date of the activity that was
    opened for editing ([undefined] is [None]). *)
Module Submitted.
Record t := mk {
  id : string;
  date : string;
  time : string;
  icon : string;
  description : string;
  location : string;
  lat : Js.value;
  lng : Js.value;
  originalDate : option string;
}.
End Submitted.

Module Day.
Record t := mk {
  date : string;
  activities : list Activity.t;
}.
End Day.

Definition initialExpenses : list Expense.t := [
  Expense.mk 1 "2025-11-05" "交通" "高鐵票"
    (Js.numberOf 850) TWD (Js.numberOf 850) TWD "我 (Me)";
  Expense.mk 2 "2025-11-05" "餐飲" "午餐 - 義大利麵"
    (Js.numberOf 320) TWD (Js.numberOf 320) TWD "John";
  Expense.mk 3 "2025-11-06" "住宿" "飯店一晚 (10000 JPY)"
    (Js.numberOf 2200) TWD (Js.numberOf 10000) JPY "我 (Me)";
  Expense.mk 4 "2025-11-06" "購物" "紀念品"
    (Js.numberOf 650) TWD (Js.numberOf 650) TWD "Jane"
]%Q.

Definition initialItinerary : list Day.t := [
  Day.mk "2025-11-05" [
    Activity.mk "a1" None "09:00" "Plane" "桃園機場出發 (TPE)" "桃園機場"
      (Js.Number 25.0797) (Js.Number 121.2342);
    Activity.mk "a2" None "12:00" "MapPin" "抵達目的地並辦理入住" "台北車站"
      (Js.Number 25.0478) (Js.Number 121.5170);
    Activity.mk "a3" None "19:00" "Utensils" "夜市觀光與晚餐" "士林夜市"
      (Js.Number 25.0878) (Js.Number 121.5241) ];
  Day.mk "2025-11-06" [
    Activity.mk "a4" None "09:30" "MapPin" "參觀歷史博物館" "故宮博物院"
      (Js.Number 25.1024) (Js.Number 121.5485);
    Activity.mk "a5" None "13:00" "ShoppingBag" "市區購物區自由活動" "信義區"
      (Js.Number 25.0339) (Js.Number 121.5645);
    Activity.mk "a6" None "18:30" "Utensils" "高級晚餐體驗" "台北101"
      (Js.Number 25.0339) (Js.Number 121.5645) ]
]%Q.

(** ** Currency conversion ([ExpenseForm]) *)

(** [twdAmount], the memoised conversion of the amount text of the form. *)
Definition twdAmount (amount : string) (currency : currency_code) : Js.number :=
  let val := Js.parseFloat amount in
  if Js.isNaN val then Js.Zero false
  else
    Js.div
      (Js.Math_round (Js.mul (Js.mul val (EXCHANGE_RATES currency)) (Js.numberOf 100)))
      (Js.numberOf 100).

(** ** Payer registry *)

(** The part of the [App] state the payer and expense handlers touch;
    [storedPayers] is the [payers] key of the local storage. *)
Record App := mkApp {
  expenses : list Expense.t;
  itinerary : list Day.t;
  payers : list string;
  storedPayers : option (list string);
  filterStart : string;
  filterEnd : string;
  filterPayer : string;
}.

Definition savePayers (newList : list string) (st : App) : App :=
  {| expenses := expenses st;
     itinerary := itinerary st;
     payers := newList;
     storedPayers := Some newList;
     filterStart := filterStart st;
     filterEnd := filterEnd st;
     filterPayer :=
       if bool_decide (filterPayer st ≠ "All") && negb (Js.includes (filterPayer st) newList)
       then "All" else filterPayer st |}.

(** The edit in progress in [PayerManagementModal]. *)
Module Editing.
Record t := mk { originalName : string; newName : string }.
End Editing.

(** [handleAddPayer] and [handleSaveEdit] of the modal, over its [payers]
    property: the list handed to [onSavePayers] when it is called, and the
    next local state ([newPayer], resp. [editingPayer]). *)
Definition handleAddPayer (payers : list string) (newPayer : string) :
  option (list string) * string :=
  if Js.truthy_str newPayer && negb (Js.includes newPayer payers)
  then (Some (payers ++ [newPayer]), "")
  else (None, newPayer).

Definition handleSaveEdit (payers : list string) (editingPayer : option Editing.t) :
  option (list string) * option Editing.t :=
  match editingPayer with
  | None => (None, None)
  | Some ep =>
      if negb (Js.truthy_str (Editing.newName ep))
         || bool_decide (Editing.newName ep = Editing.originalName ep)
      then (None, None)
      else
        let newPayerName := Js.trim (Editing.newName ep) in
        if Js.truthy_str newPayerName && negb (Js.includes newPayerName payers)
        then
          let newPayersList :=
            (λ p, if bool_decide (p = Editing.originalName ep) then newPayerName else p)
              <$> payers in
          (Some newPayersList, None)
        else (None, editingPayer)
  end.

(** The modal is mounted with [payers={payerList}] and
    [onSavePayers={savePayers}]: a handler result applied to the [App]. *)
Definition onSavePayers (call : option (list string)) (st : App) : App :=
  match call with
  | Some newList => savePayers newList st
  | None => st
  end.

Definition saveEdit (editingPayer : option Editing.t) (st : App) : App :=
  onSavePayers (handleSaveEdit (payers st) editingPayer).1 st.

(** [handleDeletePayer] of [ExpenseForm], over the [App] and the payer
    selected in the form. *)
Definition handleDeletePayer (target : string) (confirmed : bool)
    (st : App) (payer : string) : App * string :=
  if confirmed then
    let newList := filter (λ p, p ≠ target) (payers st) in
    (savePayers newList st,
     if bool_decide (payer = target) then default "" (head newList) else payer)
  else (st, payer).

(** ** Expense ledger *)

(** The comparator [(a, b) => new Date(b.date) - new Date(a.date)]. *)
Definition by_date_descending (a b : Expense.t) : comparison :=
  Js.minus_sign (Js.Date_value (Expense.date b)) (Js.Date_value (Expense.date a)).

Definition handleExpenseSave (expense : Expense.t) (isEdit : bool)
    (prev : list Expense.t) : list Expense.t :=
  if isEdit
  then (λ e, if bool_decide (Expense.id e = Expense.id expense) then expense else e) <$> prev
  else Js.sort by_date_descending (prev ++ [expense]).

Definition handleExpenseDelete (id : Z) (confirmed : bool)
    (prev : list Expense.t) : list Expense.t :=
  if confirmed then filter (λ e, Expense.id e ≠ id) prev else prev.

Definition matchPayer (filterPayer : string) (e : Expense.t) : bool :=
  bool_decide (filterPayer = "All") || bool_decide (Expense.payer e = filterPayer).

Definition matchDate (filterStart filterEnd : string) (e : Expense.t) : bool :=
  (negb (Js.truthy_str filterStart) || Js.str_ge (Expense.date e) filterStart)
  && (negb (Js.truthy_str filterEnd) || Js.str_le (Expense.date e) filterEnd).

Definition filteredExpenses (expenses : list Expense.t)
    (filterPayer filterStart filterEnd : string) : list Expense.t :=
  filter (λ e, matchPayer filterPayer e && matchDate filterStart filterEnd e) expenses.

(** [filteredExpenses.reduce((sum, e) => sum + e.amount, 0)]. *)
Definition totalExpense (filtered : list Expense.t) : Js.number :=
  foldl (λ sum e, Js.add sum (Expense.amount e)) (Js.Zero false) filtered.

(** ** Itinerary store *)

(** [const { originalDate, ...activityWithoutOriginalDate } = activity]. *)
Definition withoutOriginalDate (activity : Submitted.t) : Activity.t :=
  {| Activity.id := Submitted.id activity;
     Activity.date := Some (Submitted.date activity);
     Activity.time := Submitted.time activity;
     Activity.icon := Submitted.icon activity;
     Activity.description := Submitted.description activity;
     Activity.location := Submitted.location activity;
     Activity.lat := Submitted.lat activity;
     Activity.lng := Submitted.lng activity |}.

(** The comparators [(a, b) => a.date.localeCompare(b.date)] on days and
    [(a, b) => a.time.localeCompare(b.time)] on activities. *)
Definition by_date (a b : Day.t) : comparison :=
  Js.localeCompare (Day.date a) (Day.date b).

Definition by_time (a b : Activity.t) : comparison :=
  Js.localeCompare (Activity.time a) (Activity.time b).

(** [day.activities.filter(a => a.id !== id)] on the days dated [date],
    followed by the pruning of the empty days. *)
Definition removeFromDay (id date : string) (day : Day.t) : Day.t :=
  if bool_decide (Day.date day = date)
  then {| Day.date := Day.date day;
          Day.activities := filter (λ a, Activity.id a ≠ id) (Day.activities day) |}
  else day.

Definition removeEmptyDays (days : list Day.t) : list Day.t :=
  filter (λ day, 0 < length (Day.activities day)) days.

(** The test [isEdit && activity.originalDate && activity.originalDate !==
    activity.date] of [handleActivitySave]: the original date when the
    date-move branch is taken. An absent or empty original date is falsy. *)
Definition dateChanged (activity : Submitted.t) (isEdit : bool) : option string :=
  match Submitted.originalDate activity with
  | Some originalDate =>
      if isEdit && Js.truthy_str originalDate
         && bool_decide (originalDate ≠ Submitted.date activity)
      then Some originalDate else None
  | None => None
  end.

(** The statements on [newState[newDayIndex].activities] of the date-move
    branch: replace by id, append when the id is not there, sort by time. *)
Definition upsertInto (activity : Submitted.t) (day : Day.t) : Day.t :=
  let replaced :=
    (λ a, if bool_decide (Activity.id a = Submitted.id activity)
          then withoutOriginalDate activity else a) <$> Day.activities day in
  let ensured :=
    if negb (Js.some (λ a, Activity.id a = Submitted.id activity) replaced)
    then replaced ++ [withoutOriginalDate activity]
    else replaced in
  {| Day.date := Day.date day; Day.activities := Js.sort by_time ensured |}.

(** The updater that [handleActivitySave] passes to [setItinerary]. In the
    date-move branch the source assigns to [newState[newDayIndex].activities],
    an object it shares with [prev]; the value returned is the one given
    here. *)
Definition handleActivitySave (activity : Submitted.t) (isEdit : bool)
    (prev : list Day.t) : list Day.t :=
  match dateChanged activity isEdit with
  | Some originalDate =>
    let newState :=
      removeEmptyDays (removeFromDay (Submitted.id activity) originalDate <$> prev) in
    match Js.findIndex (λ day, Day.date day = Submitted.date activity) newState with
    | None =>
        Js.sort by_date
          (newState ++ [ {| Day.date := Submitted.date activity;
                            Day.activities := [withoutOriginalDate activity] |} ])
    | Some (newDayIndex, _) => alter (upsertInto activity) newDayIndex newState
    end
  | None =>
    match Js.findIndex (λ day, Day.date day = Submitted.date activity) prev with
    | None =>
        let newDay := {| Day.date := Submitted.date activity;
                         Day.activities := [withoutOriginalDate activity] |} in
        Js.sort by_date (prev ++ [newDay])
    | Some (dayIndex, existing) =>
        let updatedActivities :=
          Js.sort by_time
            (if isEdit
             then (λ a, if bool_decide (Activity.id a = Submitted.id activity)
                        then withoutOriginalDate activity else a)
                    <$> Day.activities existing
             else Day.activities existing ++ [withoutOriginalDate activity]) in
        let updatedDay :=
          {| Day.date := Day.date existing; Day.activities := updatedActivities |} in
        imap (λ index day, if bool_decide (index = dayIndex) then updatedDay else day) prev
    end
  end.

Definition handleActivityDelete (id date : string) (confirmed : bool)
    (prev : list Day.t) : list Day.t :=
  if confirmed then removeEmptyDays (removeFromDay id date <$> prev) else prev.

(** All activities of the store, day by day, and those with a given id. *)
Definition allActivities (days : list Day.t) : list Activity.t :=
  days ≫= Day.activities.

Definition withId (id : string) (acts : list Activity.t) : list Activity.t :=
  filter (λ a, Activity.id a = id) acts.

Definition daysOn (date : string) (days : list Day.t) : list Day.t :=
  filter (λ day, Day.date day = date) days.

(** The orders of the store: activities ascending by time, days ascending by
    date, both lexicographic on the text. *)
Definition timeAscending (acts : list Activity.t) : Prop :=
  Sorted (λ a b, String.le (Activity.time a) (Activity.time b)) acts.

Definition dateAscending (days : list Day.t) : Prop :=
  Sorted (λ a b, String.le (Day.date a) (Day.date b)) days.

(** ** Geocoding ([ActivityForm]) *)

Definition SIMULATED_GEO_DATA : gmap string (Q * Q) :=
  list_to_map [
    ("台北車站", (25.0478, 121.5170));
    ("士林夜市", (25.0878, 121.5241));
    ("故宮博物院", (25.1024, 121.5485));
    ("台北101", (25.0339, 121.5645));
    ("桃園機場", (25.0797, 121.2342));
    ("信義區", (25.0339, 121.5645));
    ("東京車站", (35.6812, 139.7671));
    ("澀谷", (35.6591, 139.7031))
  ]%Q.

(** [SIMULATED_GEO_DATA] is an object literal, so the property read
    [SIMULATED_GEO_DATA[key]] also finds what it inherits from
    [Object.prototype]: functions (and the prototype itself), truthy values
    without [lat] and [lng]. *)
Definition Object_prototype_keys : list string :=
  ["constructor"; "hasOwnProperty"; "isPrototypeOf"; "propertyIsEnumerable";
   "toLocaleString"; "toString"; "valueOf"; "__proto__";
   "__defineGetter__"; "__defineSetter__"; "__lookupGetter__"; "__lookupSetter__"].

Inductive geo_result :=
  | Coords (lat lng : Q)
  | Inherited (key : string).

(** What the promise of [geocodeLocation] resolves to, after its simulated
    network delay; [None] is [null]. *)
Definition geocodeLocation (locationName : string) : option geo_result :=
  let key := Js.trim locationName in
  match SIMULATED_GEO_DATA !! key with
  | Some (lat, lng) => Some (Coords lat lng)
  | None => if Js.includes key Object_prototype_keys then Some (Inherited key) else None
  end.

(** What [handleGeocode] awaits: an attempt is one call of [geocodeLocation]
    (which resolves after its own simulated delay), a back-off is the timer
    [setTimeout(resolve, delay)] between two attempts. *)
Inductive event :=
  | Attempt (locationName : string)
  | Backoff (ms : Z).

Definition maxRetries : nat := 3.

(** The [for] loop of [handleGeocode] from index [i] on, [fuel] being the
    iterations left up to [maxRetries]. [geocodeLocation] never rejects, so
    the [catch] block is not entered. *)
Fixpoint retryLoop (fuel i : nat) (delay : Z) (locationName : string) :
  list event * option geo_result :=
  match fuel with
  | 0 => ([], None)
  | S fuel' =>
      match geocodeLocation locationName with
      | Some result => ([Attempt locationName], Some result)
      | None =>
          if bool_decide (i < maxRetries - 1) then
            let '(trace, result) := retryLoop fuel' (S i) (delay * 2)%Z locationName in
            (Attempt locationName :: Backoff delay :: trace, result)
          else
            let '(trace, result) := retryLoop fuel' (S i) delay locationName in
            (Attempt locationName :: trace, result)
      end
  end.

Inductive geocode_status := found | not_found | searching | none.

(** The geocoding part of the local state of [ActivityForm]. *)
Module Geo.
Record t := mk {
  location : string;
  lat : Js.value;
  lng : Js.value;
  isGeocoding : bool;
  geocodeStatus : option geocode_status;
}.
End Geo.

(** [handleGeocode]: the trace of what it awaited and the state it leaves. *)
Definition handleGeocode (st : Geo.t) : list event * Geo.t :=
  if negb (Js.truthy_str (Js.trim (Geo.location st))) then ([], st)
  else
    let '(trace, result) := retryLoop maxRetries 0 200%Z (Js.trim (Geo.location st)) in
    (trace,
     match result with
     | Some (Coords lat lng) =>
         Geo.mk (Geo.location st) (Js.Number lat) (Js.Number lng) false (Some found)
     | Some (Inherited _) =>
         Geo.mk (Geo.location st) Js.Undefined Js.Undefined false (Some found)
     | None =>
         Geo.mk (Geo.location st) Js.Null Js.Null false (Some not_found)
     end).

(** The number of attempts in a trace, and its back-off delays in order. *)
Definition is_attempt (e : event) : bool :=
  match e with Attempt _ => true | Backoff _ => false end.

Definition attempts (trace : list event) : nat :=
  length (filter (λ e, is_attempt e) trace).

Definition backoffs (trace : list event) : list Z :=
  omap (λ e, match e with Backoff ms => Some ms | Attempt _ => None end) trace.

(** ** Map view *)

(** [points]: the activities handed to the marker layer. *)
Definition points (itinerary : list Day.t) : list Activity.t :=
  itinerary ≫= (λ day,
    filter (λ act, Js.truthy (Activity.lat act) && Js.truthy (Activity.lng act))
      (Day.activities day)).

(** A marker of the map: its position and the text of its popup. *)
Module Marker.
Record t := mk { position : Js.value * Js.value; popup : string }.
End Marker.

(** The markers [updateMarkers] places for [currentPoints]. *)
Definition updateMarkers (currentPoints : list Activity.t) : list Marker.t :=
  (λ act,
     Marker.mk (Activity.lat act, Activity.lng act)
       ("<b>" +:+ Activity.description act +:+ "</b><br>" +:+ Activity.time act
          +:+ " - " +:+ Activity.location act))
    <$> filter (λ act, Js.truthy (Activity.lat act) && Js.truthy (Activity.lng act))
          currentPoints.

(** ** Reference notions the properties are stated with *)

(** The rates of [EXCHANGE_RATES] as the decimals the table is written
    with. *)
Definition decimal_rate (c : currency_code) : Q :=
  match c with
  | TWD => 1
  | USD => 32
  | JPY => 0.22
  | EUR => 35
  | CNY => 4.5
  end%Q.

(** The sum of a list of whole numbers, and of their magnitudes. *)
Definition Zsum (l : list Z) : Z := foldr Z.add 0%Z l.

Definition magnitude (l : list Z) : Z := Zsum (Z.abs <$> l).

(** The ledger is ordered by descending date: every record has a time value
    and none is followed by a later one. *)
Definition dateDescending (l : list Expense.t) : Prop :=
  Sorted (λ a b, ∃ ta tb, Js.Date_value (Expense.date a) = Some ta
                          ∧ Js.Date_value (Expense.date b) = Some tb
                          ∧ (tb ≤ ta)%Z) l.

(** A record passes the ledger filter, in the words of the specification:
    its date is within the inclusive bounds that are set, its payer is the
    selected one unless that is the wildcard. *)
Definition inFilter (filterPayer filterStart filterEnd : string) (e : Expense.t) : Prop :=
  (filterStart = "" ∨ String.le filterStart (Expense.date e))
  ∧ (filterEnd = "" ∨ String.le (Expense.date e) filterEnd)
  ∧ (filterPayer = "All" ∨ Expense.payer e = filterPayer).

(** The time value of the date of a record, 0 standing for none. *)
Definition timeValue (e : Expense.t) : Z :=
  default 0%Z (Js.Date_value (Expense.date e)).

(** ** Further wiring of the payer registry *)

(** [handleAddPayer] of the modal applied to the [App], as [saveEdit]. *)
Definition addPayer (newPayer : string) (st : App) : App :=
  onSavePayers (handleAddPayer (payers st) newPayer).1 st.


(** ** Date range of the ledger filter *)

(** [onSelectDate] of the range calendar in [renderExpenses]: the next
    filter bounds and whether the popover stays open. *)
Definition onSelectDate (d : string) (st : App) (popoverOpen : bool) : App * bool :=
  let restart :=
    {| expenses := expenses st; itinerary := itinerary st; payers := payers st;
       storedPayers := storedPayers st;
       filterStart := d; filterEnd := ""; filterPayer := filterPayer st |} in
  if negb (Js.truthy_str (filterStart st))
     || (Js.truthy_str (filterStart st) && Js.truthy_str (filterEnd st))
  then (restart, popoverOpen)
  else if Js.str_lt d (filterStart st) then (restart, popoverOpen)
  else
    ({| expenses := expenses st; itinerary := itinerary st; payers := payers st;
        storedPayers := storedPayers st;
        filterStart := filterStart st; filterEnd := d; filterPayer := filterPayer st |},
     false).

(** ** The activity form *)

(** [s || fallback] on strings, and [v || null] on a coordinate. *)
Definition or_else (s fallback : string) : string :=
  if Js.truthy_str s then s else fallback.

Definition or_null (v : Js.value) : Js.value :=
  if Js.truthy v then v else Js.Null.

(** The item [handleEditActivity] opens in the modal: the activity clicked,
    with the date of the day shown as [originalDate]. *)
Module EditItem.
Record t := mk { activity : Activity.t; originalDate : string }.
End EditItem.

Definition handleEditActivity (act : Activity.t) (selectedItineraryDate : string) :
  EditItem.t :=
  EditItem.mk act selectedItineraryDate.

Module ActivityForm.

(** The local state of the form; the geocoding part is [Geo.t]. *)
Record t := mk {
  date : string;
  time : string;
  icon : string;
  desc : string;
  geo : Geo.t;
}.

(** The state after mounting: the initial values of the [useState] calls and
    the status the mount effect sets. The form reads the fields of the
    activity opened, not the [originalDate] the item carries. *)
Definition init (initialActivity : option EditItem.t) (selectedDate : string) : t :=
  match initialActivity with
  | Some item =>
      let act := EditItem.activity item in
      {| date := match Activity.date act with
                 | Some d => or_else d selectedDate
                 | None => selectedDate
                 end;
         time := or_else (Activity.time act) "10:00";
         icon := or_else (Activity.icon act) "MapPin";
         desc := Activity.description act;
         geo := Geo.mk (Activity.location act)
                  (or_null (Activity.lat act)) (or_null (Activity.lng act)) false
                  (if Js.truthy (Activity.lat act) && Js.truthy (Activity.lng act)
                   then Some found
                   else if Js.truthy_str (Activity.location act) then Some none
                   else None) |}
  | None =>
      {| date := selectedDate; time := "10:00"; icon := "MapPin"; desc := "";
         geo := Geo.mk "" Js.Null Js.Null false None |}
  end.

(** The date input: [setDate(e.target.value)]. *)
Definition setDate (d : string) (form : t) : t :=
  {| date := d; time := time form; icon := icon form; desc := desc form;
     geo := geo form |}.

(** [handleSubmit]: the arguments of [onSave], or [None] when the submit is
    held back. [freshId] is the text [a${Date.now()}]. *)
Definition handleSubmit (initialActivity : option EditItem.t) (freshId : string)
    (form : t) : option (Submitted.t * bool) :=
  if negb (Js.truthy_str (desc form)) || negb (Js.truthy_str (date form))
     || negb (Js.truthy_str (time form))
  then None
  else
    Some
      ({| Submitted.id :=
            match initialActivity with
            | Some item => or_else (Activity.id (EditItem.activity item)) freshId
            | None => freshId
            end;
          Submitted.date := date form;
          Submitted.time := time form;
          Submitted.icon := icon form;
          Submitted.description := desc form;
          Submitted.location := Geo.location (geo form);
          Submitted.lat := Geo.lat (geo form);
          Submitted.lng := Geo.lng (geo form);
          Submitted.originalDate :=
            match initialActivity with
            | Some item => Activity.date (EditItem.activity item)
            | None => None
            end |},
       bool_decide (is_Some initialActivity)).

End ActivityForm.

(** ** The expense form *)

Module ExpenseForm.

(** The local state of the form. *)
Record t := mk {
  amount : string;
  currency : currency_code;
  desc : string;
  cat : string;
  date : string;
  payer : string;
}.

(** [handleSubmit]: the arguments of [onSave], or [None] when the submit is
    held back. [now] is [Date.now()], which stands in for an id of 0. *)
Definition handleSubmit (initialExpense : option Expense.t) (now : Z) (form : t) :
  option (Expense.t * bool) :=
  if negb (Js.truthy_str (amount form)) || negb (Js.truthy_str (desc form)) then None
  else
    Some
      ({| Expense.id :=
            match initialExpense with
            | Some e => if bool_decide (Expense.id e = 0%Z) then now else Expense.id e
            | None => now
            end;
          Expense.date := date form;
          Expense.category := cat form;
          Expense.description := desc form;
          Expense.amount := twdAmount (amount form) (currency form);
          Expense.currency := TWD;
          Expense.inputAmount := Js.parseFloat (amount form);
          Expense.inputCurrency := currency form;
          Expense.payer := payer form |},
       bool_decide (is_Some initialExpense)).

End ExpenseForm.

(** ** Dates of the calendar widgets *)

Module JsDate.

(** The calendar date [(year, month, day)], month from 1, of a day counted
    from 1970-01-01: the inverse of [Js.days_from_civil]. *)
Definition civil_from_days (z : Z) : Z * Z * Z :=
  let z' := (z + 719468)%Z in
  let era := (z' / 146097)%Z in
  let doe := (z' - era * 146097)%Z in
  let yoe := ((doe - doe / 1460 + doe / 36524 - doe / 146096) / 365)%Z in
  let doy := (doe - (365 * yoe + yoe / 4 - yoe / 100))%Z in
  let mp := ((5 * doy + 2) / 153)%Z in
  let d := (doy - (153 * mp + 2) / 5 + 1)%Z in
  let m := if (mp <? 10)%Z then (mp + 3)%Z else (mp - 9)%Z in
  ((yoe + era * 400 + (if (m <=? 2)%Z then 1 else 0))%Z, m, d).

(** A [Date] object at local midnight, which is what the calendar code
    builds: its local calendar day counted from 1970-01-01, or [None] for an
    invalid date. The code reads and sets these dates through their local
    calendar fields only, so the time zone plays no part. *)
Definition t : Type := option Z.

Definition getFullYear (n : Z) : Z := (civil_from_days n).1.1.
Definition getMonth (n : Z) : Z := ((civil_from_days n).1.2 - 1)%Z.
Definition getDate (n : Z) : Z := (civil_from_days n).2.
Definition getDay (n : Z) : Z := ((n + 4) mod 7)%Z.

(** [MakeDay(year, month, date)] of the language specification: the day
    numbered [date] from the first of the month numbered [month] from
    January of [year]; both may lie outside the month and the year. *)
Definition MakeDay (year month date : Z) : Z :=
  (Js.days_from_civil (year + month / 12) (month mod 12 + 1) 1 + date - 1)%Z.

(** [date.setDate(dayValue)] and [date.setMonth(monthValue)]. *)
Definition setDate (n : Z) (dayValue : Z) : Z :=
  MakeDay (getFullYear n) (getMonth n) dayValue.

Definition setMonth (n : Z) (monthValue : Z) : Z :=
  MakeDay (getFullYear n) monthValue (getDate n).

(** [new Date(year, monthIndex, day)] in local time; a year from 0 to 99 is
    taken in the 1900s. *)
Definition make (year monthIndex day : Z) : Z :=
  MakeDay (if bool_decide (0 ≤ year ≤ 99)%Z then (1900 + year)%Z else year)
    monthIndex day.

(** [new Date(s)] for a text [YYYY-MM-DDT00:00:00], the form the code builds
    by appending ['T00:00:00'] to a date: local midnight of that day. *)
Definition parse_local (s : string) : t :=
  match String.list_ascii_of_string s with
  | [y1; y2; y3; y4; "-"; m1; m2; "-"; d1; d2;
     "T"; "0"; "0"; ":"; "0"; "0"; ":"; "0"; "0"]%char =>
      y ← Js.number_of [y1; y2; y3; y4];
      m ← Js.number_of [m1; m2];
      d ← Js.number_of [d1; d2];
      if bool_decide (1 ≤ m ≤ 12 ∧ 1 ≤ d ≤ Js.days_in_month y m)%Z
      then Some (Js.days_from_civil y m d)
      else None
  | _ => None
  end.

(** [String(n)] for an integer. *)
Definition digit_char (k : Z) : ascii := ascii_of_N (48 + Z.to_N k).

Fixpoint decimal_go (fuel : nat) (n : Z) (acc : string) : string :=
  match fuel with
  | 0 => acc
  | S fuel' =>
      let acc' := String (digit_char (n mod 10)) acc in
      if (n <? 10)%Z then acc' else decimal_go fuel' (n / 10) acc'
  end.

Definition toString (n : Z) : string :=
  if (n <? 0)%Z
  then "-" +:+ decimal_go (S (Z.to_nat (Z.log2 (- n)))) (- n) ""
  else decimal_go (S (Z.to_nat (Z.log2 n))) n "".

(** [s.padStart(2, '0')]. *)
Definition padStart2 (s : string) : string :=
  match s with
  | "" => "00"
  | String c "" => String "0" s
  | _ => s
  end.

End JsDate.

(** [formatDate] on a [Date] object; an invalid date prints [NaN] in every
    field. The guard [if (!date) return ''] is for an absent argument, which
    no caller passes. *)
Definition formatDate (date : JsDate.t) : string :=
  match date with
  | Some n =>
      let year := JsDate.getFullYear n in
      let month := JsDate.padStart2 (JsDate.toString (JsDate.getMonth n + 1)) in
      let day := JsDate.padStart2 (JsDate.toString (JsDate.getDate n)) in
      JsDate.toString year +:+ "-" +:+ month +:+ "-" +:+ day
  | None => "NaN-NaN-NaN"
  end.

Definition getStartOfWeek (dateString : string) : string :=
  let date := JsDate.parse_local (dateString +:+ "T00:00:00") in
  formatDate ((λ n, JsDate.setDate n (JsDate.getDate n - JsDate.getDay n)) <$> date).

(** The entries of [weekDays] in [WeeklyCalendar]. *)
Module WeekDay.
Record t := mk { dateStr : string; day : option Z; weekDay : option string }.
End WeekDay.

Definition weekDayNames : list string := ["日"; "一"; "二"; "三"; "四"; "五"; "六"].

Definition weekDays (weekStart : string) : list WeekDay.t :=
  let start := JsDate.parse_local (weekStart +:+ "T00:00:00") in
  (λ i : nat,
     let d := (λ n, JsDate.setDate n (JsDate.getDate n + Z.of_nat i)) <$> start in
     WeekDay.mk (formatDate d) (JsDate.getDate <$> d)
       (d ≫= λ n, weekDayNames !! Z.to_nat (JsDate.getDay n)))
    <$> seq 0 7.

(** [changeWeek]: the next value of [refDate]. *)
Definition changeWeek (offset : Z) (weekStart : string) : string :=
  let d := JsDate.parse_local (weekStart +:+ "T00:00:00") in
  formatDate ((λ n, JsDate.setDate n (JsDate.getDate n + offset * 7)) <$> d).

(** The days that [formatDate] writes as [YYYY-MM-DD]: those of the years
    1000 to 9999. *)
Definition fourDigitYear (n : Z) : Prop :=
  (Js.days_from_civil 1000 1 1 ≤ n ≤ Js.days_from_civil 9999 12 31)%Z.

(** ** The range calendar *)

Definition getDaysInMonth (year month : Z) : Z :=
  JsDate.getDate (JsDate.make year (month + 1) 0).

Definition getFirstDayOfMonth (year month : Z) : Z :=
  JsDate.getDay (JsDate.make year month 1).

(** [a < b] on two [Date] objects compares their time values; an invalid
    date compares false. *)
Definition date_before (a b : JsDate.t) : bool :=
  match a, b with
  | Some x, Some y => bool_decide (x < y)%Z
  | _, _ => false
  end.

(** A cell of the month grid: an empty one before the first day, or a day
    with its date text, its number and what decides its highlighting. *)
Module Cell.
Inductive t :=
  | Empty (i : Z)
  | Day (dateStr : string) (d : Z) (isStart isEnd isRange : bool).
End Cell.

(** [renderMonth] for the month of [currentMonth]. *)
Definition renderMonth (currentMonth : Z) (startDate endDate : string) : list Cell.t :=
  let year := JsDate.getFullYear currentMonth in
  let month := JsDate.getMonth currentMonth in
  let daysInMonth := getDaysInMonth year month in
  let firstDay := getFirstDayOfMonth year month in
  let start :=
    if Js.truthy_str startDate
    then Some (JsDate.parse_local (startDate +:+ "T00:00:00")) else None in
  let end_ :=
    if Js.truthy_str endDate
    then Some (JsDate.parse_local (endDate +:+ "T00:00:00")) else None in
  (Cell.Empty <$> seqZ 0 firstDay)
  ++ ((λ d,
         let dateStr := formatDate (Some (JsDate.make year month d)) in
         let current := JsDate.parse_local (dateStr +:+ "T00:00:00") in
         Cell.Day dateStr d
           (bool_decide (dateStr = startDate)) (bool_decide (dateStr = endDate))
           (match start, end_ with
            | Some s, Some e => date_before s current && date_before current e
            | _, _ => false
            end))
        <$> seqZ 1 daysInMonth).

(** The month buttons: [currentMonth.setMonth(currentMonth.getMonth() + k)],
    [k] being -1 or 1. *)
Definition changeMonth (k : Z) (currentMonth : Z) : Z :=
  JsDate.setMonth currentMonth (JsDate.getMonth currentMonth + k).

(** * Properties *)

(** ** The sort model: a stable sorted permutation *)

Section sort_facts.
Context {A : Type} (compareFn : A → A → comparison).

Lemma sort_insert_Permutation x l : Js.sort_insert compareFn x l ≡ₚ x :: l.
Proof.
  induction l as [|y l IH]; simpl; [done|].
  destruct (compareFn x y); try done.
  rewrite IH. apply Permutation_swap.
Qed.

Lemma sort_Permutation l : Js.sort compareFn l ≡ₚ l.
Proof.
  induction l as [|x l IH]; simpl; [done|].
  by rewrite sort_insert_Permutation, IH.
Qed.

Lemma sort_length l : length (Js.sort compareFn l) = length l.
Proof. by rewrite sort_Permutation. Qed.

(** Stability: the elements of a class [P] within which the comparator never
    answers "greater" keep their relative order. *)
Lemma sort_insert_filter (P : A → Prop) `{∀ x, Decision (P x)} x l :
  (∀ y, P x → P y → compareFn x y ≠ Gt) →
  filter P (Js.sort_insert compareFn x l) = filter P (x :: l).
Proof.
  intros Hcls. induction l as [|y l IH]; simpl; [done|].
  destruct (compareFn x y) eqn:Hxy; try done.
  rewrite filter_cons, IH, !filter_cons.
  destruct (decide (P x)) as [Hx|]; [|done].
  destruct (decide (P y)) as [Hy|]; [|done].
  by destruct (Hcls y Hx Hy).
Qed.

Lemma sort_filter (P : A → Prop) `{∀ x, Decision (P x)} l :
  (∀ x y, P x → P y → compareFn x y ≠ Gt) →
  filter P (Js.sort compareFn l) = filter P l.
Proof.
  intros Hcls. induction l as [|x l IH]; simpl; [done|].
  rewrite sort_insert_filter by auto.
  by rewrite !filter_cons, IH.
Qed.

(** Sortedness, for a comparator that is total and transitive. *)
Hypothesis total : ∀ x y, compareFn x y = Gt → compareFn y x ≠ Gt.
Hypothesis trans : Transitive (Js.in_order compareFn).

Lemma sort_insert_StronglySorted x l :
  StronglySorted (Js.in_order compareFn) l →
  StronglySorted (Js.in_order compareFn) (Js.sort_insert compareFn x l).
Proof.
  induction 1 as [|y l Hl IH Hy]; simpl.
  { repeat constructor. }
  assert (compareFn x y ≠ Gt → StronglySorted (Js.in_order compareFn) (x :: y :: l))
    as Hfront.
  { intros Hxy. constructor; [by constructor|].
    constructor; [done|]. eapply Forall_impl; [exact Hy|].
    intros z ?. by etrans. }
  destruct (compareFn x y) eqn:Hxy; [by apply Hfront..|].
  constructor; [done|].
  rewrite sort_insert_Permutation. constructor; [|done].
  by apply total.
Qed.

Lemma sort_StronglySorted l :
  StronglySorted (Js.in_order compareFn) (Js.sort compareFn l).
Proof.
  induction l as [|x l IH]; simpl; [constructor|].
  by apply sort_insert_StronglySorted.
Qed.

End sort_facts.

(** ** Orders on lists *)

Section order_facts.
Context {A : Type}.

Lemma StronglySorted_impl (R R' : relation A) l :
  (∀ x y, R x y → R' x y) → StronglySorted R l → StronglySorted R' l.
Proof.
  intros HR. induction 1 as [|x l Hl IH Hx]; constructor; [done|].
  eapply Forall_impl; eauto.
Qed.

Lemma StronglySorted_filter (R : relation A) (P : A → Prop) `{∀ x, Decision (P x)} l :
  StronglySorted R l → StronglySorted R (filter P l).
Proof.
  induction 1 as [|x l Hl IH Hx]; [constructor|].
  rewrite filter_cons. destruct (decide (P x)); [|done].
  constructor; [done|].
  apply Forall_forall. intros y [_ Hy]%list_elem_of_filter.
  by eapply Forall_forall in Hx.
Qed.

Lemma Sorted_filter (R : relation A) `{!Transitive R}
    (P : A → Prop) `{∀ x, Decision (P x)} l :
  Sorted R l → Sorted R (filter P l).
Proof.
  intros Hl. apply StronglySorted_Sorted, StronglySorted_filter.
  by apply Sorted_StronglySorted.
Qed.

End order_facts.

(** The comparator on texts is the lexicographic order. *)
Lemma localeCompare_in_order a b :
  Js.in_order Js.localeCompare a b ↔ String.le a b.
Proof.
  unfold Js.in_order, Js.localeCompare, String.le, String.leb.
  destruct (String.compare a b); simpl; naive_solver.
Qed.

Lemma localeCompare_total a b :
  Js.localeCompare a b = Gt → Js.localeCompare b a ≠ Gt.
Proof.
  unfold Js.localeCompare. rewrite (String.compare_antisym b a).
  by intros ->.
Qed.

Lemma localeCompare_same a : Js.localeCompare a a = Eq.
Proof.
  unfold Js.localeCompare. pose proof (String.compare_antisym a a) as H.
  by destruct (String.compare a a).
Qed.

Global Instance in_order_localeCompare_trans :
  Transitive (Js.in_order Js.localeCompare).
Proof.
  intros a b c. rewrite !localeCompare_in_order. apply transitivity.
Qed.

Global Instance time_le_trans :
  Transitive (λ a b, String.le (Activity.time a) (Activity.time b)).
Proof. intros a b c. apply transitivity. Qed.

Global Instance date_le_trans :
  Transitive (λ a b, String.le (Day.date a) (Day.date b)).
Proof. intros a b c. apply transitivity. Qed.

Lemma sort_by_time_ascending acts : timeAscending (Js.sort by_time acts).
Proof.
  apply StronglySorted_Sorted.
  eapply StronglySorted_impl; [|apply sort_StronglySorted].
  - intros a b. apply localeCompare_in_order.
  - intros a b. apply localeCompare_total.
  - intros a b c. unfold Js.in_order, by_time.
    apply (in_order_localeCompare_trans _ (Activity.time b)).
Qed.

Lemma sort_by_date_ascending days : dateAscending (Js.sort by_date days).
Proof.
  apply StronglySorted_Sorted.
  eapply StronglySorted_impl; [|apply sort_StronglySorted].
  - intros a b. apply localeCompare_in_order.
  - intros a b. apply localeCompare_total.
  - intros a b c. unfold Js.in_order, by_date.
    apply (in_order_localeCompare_trans _ (Day.date b)).
Qed.

(** ** Map view *)

Lemma truthy_false v :
  Js.truthy v = false ↔ v = Js.Undefined ∨ v = Js.Null ∨ ∃ q, v = Js.Number q ∧ (q == 0)%Q.
Proof.
  destruct v as [| |q]; simpl.
  - split; [by left|done].
  - split; [by right; left|done].
  - rewrite negb_false_iff, Qeq_bool_iff. split.
    + intros Hq. right; right. by exists q.
    + by intros [[=]|[[=]|(q' & [= <-] & Hq)]].
Qed.

Lemma truthy_true v :
  Js.truthy v = true ↔ ∃ q, v = Js.Number q ∧ ¬ (q == 0)%Q.
Proof.
  destruct v as [| |q]; simpl; [by split; [|intros (? & [=] & _)]..|].
  rewrite negb_true_iff. split.
  - intros Hq. exists q. split; [done|]. intros ?%Qeq_bool_iff. congruence.
  - intros (q' & [= <-] & Hq). destruct (Qeq_bool q 0) eqn:E; [|done].
    by apply Qeq_bool_iff in E.
Qed.

Lemma filter_bind {A B} (f : A → list B) (P : B → Prop) `{∀ x, Decision (P x)} l :
  filter P (l ≫= f) = l ≫= (λ x, filter P (f x)).
Proof.
  induction l as [|x l IH]; [done|].
  by rewrite !bind_cons, filter_app, IH.
Qed.

(** C10. The points handed to the map view are exactly the activities of the
    itinerary whose [lat] and [lng] are both truthy, in store order; so a
    point has two non-zero numbers as coordinates, an activity with a
    coordinate that is [undefined], [null] or zero is not a point, and the
    marker layer places one marker per point. *)
Theorem points_are_the_truthy_coordinates (itinerary : list Day.t) :
  points itinerary
  = filter (λ act, Js.truthy (Activity.lat act) && Js.truthy (Activity.lng act))
      (allActivities itinerary)
  ∧ (∀ act, act ∈ points itinerary ↔
       act ∈ allActivities itinerary
       ∧ ∃ la ln, Activity.lat act = Js.Number la ∧ Activity.lng act = Js.Number ln
                  ∧ ¬ (la == 0)%Q ∧ ¬ (ln == 0)%Q)
  ∧ (∀ act, Js.truthy (Activity.lat act) = false ∨ Js.truthy (Activity.lng act) = false →
       act ∉ points itinerary)
  ∧ length (updateMarkers (points itinerary)) = length (points itinerary).
Proof.
  assert (points itinerary
    = filter (λ act, Js.truthy (Activity.lat act) && Js.truthy (Activity.lng act))
        (allActivities itinerary)) as Heq.
  { unfold points, allActivities. by rewrite filter_bind. }
  split_and!.
  - done.
  - intros act. rewrite Heq, list_elem_of_filter, andb_True.
    rewrite !Is_true_true, !truthy_true. split.
    + intros [[(la & ? & ?) (ln & ? & ?)] ?]. split; [done|]. by exists la, ln.
    + intros [? (la & ln & ? & ? & ? & ?)]. split; [|done].
      split; [by exists la|by exists ln].
  - intros act Hfalsy. rewrite Heq, list_elem_of_filter, andb_True.
    rewrite !Is_true_true. intros [[??] _]. destruct Hfalsy; congruence.
  - unfold updateMarkers. rewrite length_fmap. f_equal.
    rewrite Heq. apply list_filter_filter_l. done.
Qed.

Lemma points_are_the_truthy_coordinates_witness :
  let lunch :=
    Submitted.mk "a7" "2025-11-05" "12:00" "Utensils" "Lunch" "" Js.Null Js.Null None in
  let equator :=
    Submitted.mk "a8" "2025-11-06" "10:00" "MapPin" "Equator" "" (Js.Number 0) (Js.Number 100) None in
  let itinerary :=
    handleActivitySave equator false (handleActivitySave lunch false initialItinerary) in
  (withoutOriginalDate lunch ∈ allActivities itinerary)
  ∧ (withoutOriginalDate lunch ∉ points itinerary)
  ∧ (withoutOriginalDate equator ∈ allActivities itinerary)
  ∧ (withoutOriginalDate equator ∉ points itinerary)
  ∧ Activity.id <$> points itinerary = ["a1"; "a2"; "a3"; "a4"; "a5"; "a6"]
  ∧ length (updateMarkers (points itinerary)) = 6.
Proof.
  intros lunch equator itinerary.
  destruct (points_are_the_truthy_coordinates itinerary) as (_ & _ & Hexcluded & Hmarkers).
  split_and!.
  - vm_compute. do 2 right. left.
  - apply Hexcluded. by left.
  - vm_compute. do 5 right. left.
  - apply Hexcluded. by left.
  - by vm_compute.
  - rewrite Hmarkers. by vm_compute.
Defined.

(** ** Payer registry *)

(** C9. Deleting a payer leaves the expense list as it was, whatever the
    payers of its records: only the registry, its stored copy and the payer
    selections change. *)
Theorem handleDeletePayer_keeps_expenses
    (st : App) (payer target : string) (confirmed : bool) :
  let st' := (handleDeletePayer target confirmed st payer).1 in
  expenses st' = expenses st
  ∧ Expense.payer <$> expenses st' = Expense.payer <$> expenses st
  ∧ payers st' = (if confirmed then filter (λ p, p ≠ target) (payers st) else payers st).
Proof. by destruct confirmed. Qed.

Lemma truthy_str_true s : Js.truthy_str s = true ↔ s ≠ "".
Proof. by destruct s. Qed.

Lemma includes_true {A} `{EqDecision A} (x : A) l : Js.includes x l = true ↔ x ∈ l.
Proof. unfold Js.includes. apply bool_decide_eq_true. Qed.

(** C7, as the code has it. A rename is a no-op when the new name is empty,
    equal to the old one, blank (empty once trimmed) or, once trimmed,
    already in the registry; otherwise every entry equal to the old name
    becomes the trimmed new name, the other entries and the order staying. *)
Theorem handleSaveEdit_rename (st : App) (old new : string) :
  let st' := saveEdit (Some (Editing.mk old new)) st in
  let noop := new = "" ∨ new = old ∨ Js.trim new = "" ∨ Js.trim new ∈ payers st in
  (noop → st' = st)
  ∧ payers st'
    = if decide noop then payers st
      else (λ p, if decide (p = old) then Js.trim new else p) <$> payers st.
Proof.
  intros st' noop. subst st'. unfold saveEdit, handleSaveEdit. simpl.
  destruct (Js.truthy_str new) eqn:Hnew; simpl.
  2:{ assert (new = "") as -> by (by destruct new).
      split; [done|]. by rewrite decide_True by (by left). }
  apply truthy_str_true in Hnew.
  case_bool_decide as Hold; simpl.
  { split; [done|]. rewrite decide_True; [done|]. by right; left. }
  destruct (Js.truthy_str (Js.trim new)) eqn:Htrim; simpl.
  2:{ assert (Js.trim new = "") by (by destruct (Js.trim new)).
      split; [done|]. rewrite decide_True; [done|]. by right; right; left. }
  apply truthy_str_true in Htrim.
  destruct (Js.includes (Js.trim new) (payers st)) eqn:Hin; simpl.
  { apply includes_true in Hin. split; [done|].
    rewrite decide_True; [done|]. by right; right; right. }
  assert (Js.trim new ∉ payers st) as Hnotin.
  { intros ?%includes_true. congruence. }
  split; [intros [?|[?|[?|?]]]; done|].
  rewrite decide_False by (intros [?|[?|[?|?]]]; done).
  apply list_fmap_ext. intros _ p _. by repeat case_bool_decide; case_decide.
Qed.

Lemma handleSaveEdit_rename_witness :
  let st := mkApp initialExpenses initialItinerary DEFAULT_PAYERS None "" "" "John" in
  let wide := String "227" (String "128" (String "128" "")) in
  payers (saveEdit (Some (Editing.mk "John" " Joe ")) st) = ["我 (Me)"; "Joe"; "Jane"; "Max"]
  ∧ saveEdit (Some (Editing.mk "John" "Jane ")) st = st
  ∧ Js.trim ("Jane" +:+ wide) = "Jane"
  ∧ saveEdit (Some (Editing.mk "John" ("Jane" +:+ wide))) st = st
  ∧ saveEdit (Some (Editing.mk "John" "John")) st = st.
Proof.
  intros st wide.
  destruct (handleSaveEdit_rename st "John" " Joe ") as [_ Hrenamed].
  destruct (handleSaveEdit_rename st "John" "Jane ") as [Htaken _].
  destruct (handleSaveEdit_rename st "John" ("Jane" +:+ wide)) as [Hwide _].
  destruct (handleSaveEdit_rename st "John" "John") as [Hsame _].
  split_and!.
  - rewrite Hrenamed. by vm_compute.
  - apply Htaken. right; right; right. apply (bool_decide_unpack _). by vm_compute.
  - by vm_compute.
  - apply Hwide. right; right; right. apply (bool_decide_unpack _). by vm_compute.
  - apply Hsame. by right; left.
Defined.

(** C7, as the specification words it, fails on a blank new name: the
    specification has the entry replaced by the empty trimmed name, the code
    leaves the registry as it is. *)
Lemma handleSaveEdit_blank_name :
  let st := mkApp initialExpenses initialItinerary DEFAULT_PAYERS None "" "" "All" in
  (" " ≠ "") ∧ (" " ≠ "John") ∧ (Js.trim " " ∉ payers st)
  ∧ payers (saveEdit (Some (Editing.mk "John" " ")) st) = payers st
  ∧ payers (saveEdit (Some (Editing.mk "John" " ")) st)
    ≠ (λ p, if decide (p = "John") then Js.trim " " else p) <$> payers st.
Proof.
  intros st. split_and!; [done|done| |by vm_compute..].
  apply (bool_decide_unpack _). by vm_compute.
Qed.

(** ** Double-precision arithmetic *)

Section doubles.
Local Open Scope Q_scope.

Lemma pow2_pos e : 0 < Js.pow2 e.
Proof. by apply Qpower_0_lt. Qed.

Lemma pow2_plus a b : Js.pow2 (a + b) == Js.pow2 a * Js.pow2 b.
Proof. by apply Qpower_plus. Qed.

Lemma pow2_le a b : (a ≤ b)%Z → Js.pow2 a <= Js.pow2 b.
Proof. intros. by apply Qpower_le_compat_l. Qed.

Lemma pow2_lt a b : (a < b)%Z → Js.pow2 a < Js.pow2 b.
Proof. intros. by apply Qpower_lt_compat_l. Qed.

Lemma pow2_lt_inv a b : Js.pow2 a < Js.pow2 b → (a < b)%Z.
Proof. intros. by apply (Qpower_lt_compat_l_inv 2). Qed.

Lemma pow2_Z e : (0 ≤ e)%Z → Js.pow2 e == inject_Z (2 ^ e).
Proof. intros. unfold Js.pow2. by rewrite Zpower_Qpower. Qed.

Lemma pow2_succ e : Js.pow2 (e + 1) == 2 * Js.pow2 e.
Proof. rewrite pow2_plus. change (Js.pow2 1) with 2. ring. Qed.

Lemma log2_bounds (n : Z) :
  (0 < n)%Z →
  Js.pow2 (Z.log2 n) <= inject_Z n ∧ inject_Z n < Js.pow2 (Z.log2 n + 1).
Proof.
  intros Hn. destruct (Z.log2_spec n Hn) as [Hlo Hhi].
  pose proof (Z.log2_nonneg n).
  rewrite !pow2_Z by lia. rewrite <- Zle_Qle, <- Zlt_Qlt.
  split; [done|]. by rewrite <- Z.add_1_r in Hhi.
Qed.

Lemma binade_spec x :
  ¬ x == 0 →
  Js.pow2 (Js.binade x - 1) <= Qabs x ∧ Qabs x < Js.pow2 (Js.binade x).
Proof.
  intros Hx. unfold Js.binade.
  destruct x as [n d]. simpl Qnum. simpl Qden.
  assert (n ≠ 0%Z) as Hn.
  { intros ->. apply Hx. reflexivity. }
  set (a := Z.log2 (Z.abs n)). set (b := Z.log2 (Z.pos d)).
  destruct (log2_bounds (Z.abs n) ltac:(lia)) as [Ha1 Ha2].
  destruct (log2_bounds (Z.pos d) ltac:(lia)) as [Hb1 Hb2].
  fold a in Ha1, Ha2. fold b in Hb1, Hb2.
  assert (Qabs (n # d) == inject_Z (Z.abs n) / inject_Z (Z.pos d)) as Habs.
  { unfold Qabs. by rewrite Qmake_Qdiv. }
  assert (0 < inject_Z (Z.pos d)) as Hd.
  { change 0 with (inject_Z 0). rewrite <- Zlt_Qlt. lia. }
  pose proof (pow2_pos a). pose proof (pow2_pos b).
  pose proof (pow2_pos (a - b)). pose proof (pow2_pos (a - b - 1)).
  assert (Js.pow2 (a - b - 1) < Qabs (n # d)) as Hlow.
  { rewrite Habs. apply Qlt_shift_div_l; [done|].
    assert (Js.pow2 a == Js.pow2 (a - b - 1) * Js.pow2 (b + 1)) as Heq.
    { rewrite <- pow2_plus. by replace (a - b - 1 + (b + 1))%Z with a by lia. }
    apply Qlt_le_trans with (Js.pow2 (a - b - 1) * Js.pow2 (b + 1)); [|by rewrite <- Heq].
    apply Qmult_lt_l; done. }
  assert (Qabs (n # d) < Js.pow2 (a - b + 1)) as Hhigh.
  { rewrite Habs. apply Qlt_shift_div_r; [done|].
    assert (Js.pow2 (a + 1) == Js.pow2 (a - b + 1) * Js.pow2 b) as Heq.
    { rewrite <- pow2_plus. by replace (a - b + 1 + b)%Z with (a + 1)%Z by lia. }
    apply Qlt_le_trans with (Js.pow2 (a + 1)); [done|]. rewrite Heq.
    apply Qmult_le_l; [apply pow2_pos|done]. }
  destruct (Qle_bool (Js.pow2 (a - b)) (Qabs (n # d))) eqn:Htest.
  - apply Qle_bool_iff in Htest.
    replace (a - b + 1 - 1)%Z with (a - b)%Z by lia. done.
  - split; [by apply Qlt_le_weak|].
    apply Qnot_le_lt. intros Hle. apply Qle_bool_iff in Hle. congruence.
Qed.

Lemma roundTiesToEven_error x :
  Qabs (inject_Z (Js.roundTiesToEven x) - x) <= 1 # 2.
Proof.
  unfold Js.roundTiesToEven.
  pose proof (Qfloor_le x) as Hlo. pose proof (Qlt_floor x) as Hhi.
  rewrite inject_Z_plus in Hhi. change (inject_Z 1) with 1 in Hhi.
  apply Qabs_Qle_condition.
  destruct (x - inject_Z (Qfloor x) ?= 1 # 2) eqn:Hcmp.
  - apply Qeq_alt in Hcmp. destruct (Z.even (Qfloor x)).
    + split; lra.
    + rewrite inject_Z_plus. change (inject_Z 1) with 1. split; lra.
  - apply Qlt_alt in Hcmp. split; lra.
  - apply Qgt_alt in Hcmp. rewrite inject_Z_plus. change (inject_Z 1) with 1.
    split; lra.
Qed.

Lemma roundTiesToEven_Z k : Js.roundTiesToEven (inject_Z k) = k.
Proof.
  unfold Js.roundTiesToEven. rewrite Qfloor_Z.
  assert ((inject_Z k - inject_Z k ?= 1 # 2) = Lt) as ->; [|done].
  rewrite <- Qlt_alt. generalize (inject_Z k). intros q. lra.
Qed.

Lemma round_double_error x :
  Js.pow2 (-1022) <= Qabs x →
  Qabs (Js.round_double x - x) <= Js.pow2 (-53) * Qabs x.
Proof.
  intros Hlo.
  assert (¬ x == 0) as Hx.
  { intros Hx. rewrite Hx in Hlo. pose proof (pow2_pos (-1022)).
    change (Qabs 0) with 0 in Hlo. lra. }
  destruct (binade_spec x Hx) as [Hb1 Hb2].
  assert (-1022 < Js.binade x)%Z as Hb.
  { apply pow2_lt_inv. eapply Qle_lt_trans; done. }
  unfold Js.round_double. rewrite Z.max_l by lia.
  set (q := (Js.binade x - 53)%Z).
  pose proof (pow2_pos q) as Hq.
  set (y := x / Js.pow2 q).
  assert (x == y * Js.pow2 q) as Hxy.
  { unfold y. field. lra. }
  pose proof (roundTiesToEven_error y) as Herr.
  set (m := inject_Z (Js.roundTiesToEven y)) in *.
  assert (m * Js.pow2 q - x == (m - y) * Js.pow2 q) as -> by (rewrite Hxy at 1; ring).
  rewrite Qabs_Qmult, (Qabs_pos (Js.pow2 q)) by lra.
  assert (Js.pow2 (Js.binade x - 1) == Js.pow2 q * Js.pow2 52) as Hsplit.
  { rewrite <- pow2_plus. by replace (q + 52)%Z with (Js.binade x - 1)%Z by (unfold q; lia). }
  assert (Js.pow2 (-53) * Js.pow2 52 == 1 # 2) as Hhalf by reflexivity.
  apply Qle_trans with ((1 # 2) * Js.pow2 q).
  - apply Qmult_le_compat_r; lra.
  - apply Qle_trans with (Js.pow2 (-53) * Js.pow2 (Js.binade x - 1)).
    + rewrite Hsplit. rewrite <- Hhalf. apply Qle_lteq. right. ring.
    + apply Qmult_le_l; [apply pow2_pos|done].
Qed.

Lemma numberOf_normal x :
  Js.pow2 (-1022) <= Qabs x → Qabs x <= Js.pow2 1023 →
  ∃ y, Js.numberOf x = Js.Finite y ∧ Qabs (y - x) <= Js.pow2 (-53) * Qabs x.
Proof.
  intros Hlo Hhi. unfold Js.numberOf.
  pose proof (Qred_correct x) as Hred. set (x' := Qred x) in *.
  rewrite <- Hred in Hlo, Hhi.
  pose proof (round_double_error x' Hlo) as Herr.
  pose proof (Qred_correct (Js.round_double x')) as Hr.
  set (r := Qred (Js.round_double x')) in *. rewrite <- Hr in Herr.
  pose proof (pow2_pos (-1022)) as Hmin.
  assert (Js.pow2 (-53) == 1 # 9007199254740992) as Hu by reflexivity.
  assert (Js.pow2 1024 == 2 * Js.pow2 1023) as Htop by apply (pow2_succ 1023).
  assert (Qabs r <= Qabs x' + Qabs (r - x')) as Htri1.
  { assert (Qabs r == Qabs (x' + (r - x'))) as -> by (apply Qabs_wd; ring).
    apply Qabs_triangle. }
  assert (Qabs x' <= Qabs r + Qabs (r - x')) as Htri2.
  { assert (Qabs x' == Qabs (r + - (r - x'))) as -> by (apply Qabs_wd; ring).
    eapply Qle_trans; [apply Qabs_triangle|]. rewrite Qabs_opp. lra. }
  rewrite Hu in Herr. clear Hu.
  set (top := Js.pow2 1024) in *. set (big := Js.pow2 1023) in *.
  set (tiny := Js.pow2 (-1022)) in *. clearbody top big tiny.
  destruct (Qeq_bool x' 0) eqn:Hzero.
  { apply Qeq_bool_iff in Hzero. rewrite Hzero in Hlo.
    change (Qabs 0) with 0 in Hlo. exfalso. lra. }
  destruct (Qle_bool top (Qabs r)) eqn:Hover.
  { apply Qle_bool_iff in Hover. exfalso. lra. }
  destruct (Qeq_bool r 0) eqn:Hrzero.
  { apply Qeq_bool_iff in Hrzero.
    assert (Qabs r == 0) as Hr0 by (by rewrite Hrzero). exfalso. lra. }
  exists r. split; [done|].
  assert (Qabs (r - x) == Qabs (r - x')) as -> by (apply Qabs_wd; rewrite Hred; ring).
  assert (Qabs x == Qabs x') as -> by (by apply Qabs_wd).
  assert (Js.pow2 (-53) == 1 # 9007199254740992) as -> by reflexivity. done.
Qed.

Lemma numberOf_proper x y : x == y → Js.numberOf x = Js.numberOf y.
Proof.
  intros Hxy. unfold Js.numberOf. by rewrite (Qred_complete x y Hxy).
Qed.

Lemma roundTiesToEven_proper x y :
  x == y → Js.roundTiesToEven x = Js.roundTiesToEven y.
Proof.
  intros Hxy. unfold Js.roundTiesToEven.
  rewrite (Qfloor_comp x y Hxy).
  assert ((x - inject_Z (Qfloor y) ?= 1 # 2) = (y - inject_Z (Qfloor y) ?= 1 # 2)) as ->;
    [|done].
  apply Qcompare_comp; [by rewrite Hxy|done].
Qed.

Lemma Qabs_inject_Z k : Qabs (inject_Z k) == inject_Z (Z.abs k).
Proof. reflexivity. Qed.

(** A whole number below [2 ^ 53] in magnitude is a double. *)
Lemma round_double_integer x k :
  x == inject_Z k → k ≠ 0%Z → (Z.abs k < 2 ^ 53)%Z →
  Js.round_double x == inject_Z k.
Proof.
  intros Hx Hk Hlt.
  assert (¬ x == 0) as Hnz.
  { rewrite Hx. unfold Qeq. simpl. lia. }
  destruct (binade_spec x Hnz) as [Hb1 Hb2].
  assert (Qabs x == inject_Z (Z.abs k)) as Habs by (by rewrite Hx).
  assert (Js.binade x - 1 < 53)%Z as Hhi.
  { apply pow2_lt_inv. eapply Qle_lt_trans; [exact Hb1|].
    rewrite Habs, pow2_Z by lia. by rewrite <- Zlt_Qlt. }
  assert (0 < Js.binade x)%Z as Hlo.
  { apply pow2_lt_inv. eapply Qle_lt_trans; [|exact Hb2].
    rewrite Habs. change (Js.pow2 0) with (inject_Z 1). rewrite <- Zle_Qle. lia. }
  unfold Js.round_double. rewrite Z.max_l by lia.
  set (e := (Js.binade x - 53)%Z).
  assert (Js.pow2 e * Js.pow2 (- e) == 1) as Hinv.
  { rewrite <- pow2_plus. by replace (e + - e)%Z with 0%Z by lia. }
  pose proof (pow2_pos e) as Hpos.
  assert (Js.pow2 (- e) == inject_Z (2 ^ (- e))) as Hint by (apply pow2_Z; lia).
  assert (x / Js.pow2 e == inject_Z (k * 2 ^ (- e))) as Hquot.
  { rewrite inject_Z_mult, <- Hint, Hx.
    apply Qmult_inj_r with (Js.pow2 e); [lra|].
    assert (inject_Z k / Js.pow2 e * Js.pow2 e == inject_Z k) as -> by (field; lra).
    rewrite <- Qmult_assoc, (Qmult_comm (Js.pow2 (- e))), Hinv. ring. }
  rewrite (roundTiesToEven_proper _ _ Hquot), roundTiesToEven_Z.
  rewrite inject_Z_mult, <- Hint.
  rewrite <- Qmult_assoc, (Qmult_comm (Js.pow2 (- e))), Hinv. ring.
Qed.

Lemma numberOf_integer k :
  k ≠ 0%Z → (Z.abs k < 2 ^ 53)%Z →
  ∃ y, Js.numberOf (inject_Z k) = Js.Finite y ∧ y == inject_Z k.
Proof.
  intros Hk Hlt. unfold Js.numberOf.
  pose proof (Qred_correct (inject_Z k)) as Hred. set (x := Qred (inject_Z k)) in *.
  pose proof (round_double_integer x k Hred Hk Hlt) as Hround.
  pose proof (Qred_correct (Js.round_double x)) as Hr.
  set (r := Qred (Js.round_double x)) in *. rewrite Hround in Hr.
  assert (¬ inject_Z k == 0) as Hnz.
  { unfold Qeq. simpl. lia. }
  destruct (Qeq_bool x 0) eqn:Hzero.
  { apply Qeq_bool_iff in Hzero. rewrite Hred in Hzero. done. }
  destruct (Qle_bool (Js.pow2 1024) (Qabs r)) eqn:Hover.
  { apply Qle_bool_iff in Hover. rewrite Hr, Qabs_inject_Z, pow2_Z in Hover by lia.
    rewrite <- Zle_Qle in Hover.
    assert (2 ^ 53 < 2 ^ 1024)%Z by (by apply Z.pow_lt_mono_r). lia. }
  destruct (Qeq_bool r 0) eqn:Hrzero.
  { apply Qeq_bool_iff in Hrzero. rewrite Hr in Hrzero. done. }
  by exists r.
Qed.

(** Rounding a positive real of the normal range moves it by at most one
    part in [2 ^ 53]. *)
Lemma numberOf_near x :
  Js.pow2 (-1022) <= x → x <= Js.pow2 1023 →
  ∃ y, Js.numberOf x = Js.Finite y
       ∧ (1 - (1 # 9007199254740992)) * x <= y
       ∧ y <= (1 + (1 # 9007199254740992)) * x.
Proof.
  intros Hlo Hhi. pose proof (pow2_pos (-1022)) as Hpos.
  assert (Qabs x == x) as Habs by (apply Qabs_pos; lra).
  destruct (numberOf_normal x) as (y & Hy & Herr); [by rewrite Habs..|].
  exists y. split; [done|].
  rewrite Habs in Herr.
  assert (Js.pow2 (-53) == 1 # 9007199254740992) as Hu by reflexivity.
  rewrite Hu in Herr. clear Hu.
  apply Qabs_Qle_condition in Herr as [Herr1 Herr2].
  set (tiny := Js.pow2 (-1022)) in *. set (big := Js.pow2 1023) in *.
  clearbody tiny big. split; lra.
Qed.

Lemma numberOf_0 : Js.numberOf (inject_Z 0) = Js.Zero false.
Proof. reflexivity. Qed.

Lemma inject_Z_nonzero k : k ≠ 0%Z → ¬ inject_Z k == 0.
Proof. unfold Qeq. simpl. lia. Qed.

(** The sum of two whole numbers that are doubles is their exact sum
    rounded. *)
Lemma add_integers a b :
  (Z.abs a < 2 ^ 53)%Z → (Z.abs b < 2 ^ 53)%Z →
  Js.add (Js.numberOf (inject_Z a)) (Js.numberOf (inject_Z b))
  = Js.numberOf (inject_Z (a + b)).
Proof.
  intros Ha Hb.
  destruct (decide (a = 0%Z)) as [->|Hna]; destruct (decide (b = 0%Z)) as [->|Hnb];
    rewrite ?numberOf_0.
  - done.
  - rewrite Z.add_0_l. by destruct (numberOf_integer b Hnb Hb) as (y & -> & _).
  - rewrite Z.add_0_r. by destruct (numberOf_integer a Hna Ha) as (y & -> & _).
  - destruct (numberOf_integer a Hna Ha) as (ya & -> & Hya).
    destruct (numberOf_integer b Hnb Hb) as (yb & -> & Hyb). simpl.
    assert (ya + yb == inject_Z (a + b)) as Hsum.
    { by rewrite inject_Z_plus, Hya, Hyb. }
    destruct (Qeq_bool (ya + yb) 0) eqn:Hzero.
    + apply Qeq_bool_iff in Hzero. rewrite Hsum in Hzero.
      destruct (decide (a + b = 0)%Z) as [->|Hne]; [done|].
      by apply inject_Z_nonzero in Hne.
    + by apply numberOf_proper.
Qed.

Lemma numberOf_integer_denotes k :
  (Z.abs k < 2 ^ 53)%Z → Js.denotes (Js.numberOf (inject_Z k)) (inject_Z k).
Proof.
  intros Hk. destruct (decide (k = 0%Z)) as [->|Hne]; [done|].
  by destruct (numberOf_integer k Hne Hk) as (y & -> & Hy).
Qed.

End doubles.

(** ** Expense ledger *)

Lemma str_ge_le a b : Js.str_ge a b = true ↔ String.le b a.
Proof.
  unfold Js.str_ge, Js.str_lt, String.ltb, String.le, String.leb.
  rewrite (String.compare_antisym b a).
  by destruct (String.compare a b).
Qed.

Lemma str_le_le a b : Js.str_le a b = true ↔ String.le a b.
Proof.
  unfold Js.str_le, Js.str_lt, String.ltb, String.le, String.leb.
  rewrite (String.compare_antisym b a).
  by destruct (String.compare a b).
Qed.

Lemma matchDate_spec filterStart filterEnd e :
  matchDate filterStart filterEnd e = true ↔
  (filterStart = "" ∨ String.le filterStart (Expense.date e))
  ∧ (filterEnd = "" ∨ String.le (Expense.date e) filterEnd).
Proof.
  unfold matchDate.
  rewrite andb_true_iff, !orb_true_iff, !negb_true_iff, str_ge_le, str_le_le.
  assert (∀ s, Js.truthy_str s = false ↔ s = "") as Hfalsy by (by intros []).
  by rewrite !Hfalsy.
Qed.

Lemma matchPayer_spec filterPayer e :
  matchPayer filterPayer e = true ↔ filterPayer = "All" ∨ Expense.payer e = filterPayer.
Proof.
  unfold matchPayer. by rewrite orb_true_iff, !bool_decide_eq_true.
Qed.

Lemma Zsum_bound ks : (Z.abs (Zsum ks) ≤ magnitude ks)%Z.
Proof.
  unfold magnitude. induction ks as [|k ks IH]; [done|].
  change (Zsum (k :: ks)) with (k + Zsum ks)%Z.
  change (Zsum (Z.abs <$> k :: ks)) with (Z.abs k + Zsum (Z.abs <$> ks))%Z. lia.
Qed.

Lemma magnitude_nonneg ks : (0 ≤ magnitude ks)%Z.
Proof. pose proof (Zsum_bound ks). lia. Qed.

(** Adding whole amounts one after the other is exact as long as the running
    total stays below [2 ^ 53]. *)
Lemma foldl_add_integers acc ks :
  (Z.abs acc + magnitude ks < 2 ^ 53)%Z →
  foldl Js.add (Js.numberOf (inject_Z acc)) ((λ k, Js.numberOf (inject_Z k)) <$> ks)
  = Js.numberOf (inject_Z (acc + Zsum ks)).
Proof.
  revert acc. induction ks as [|k ks IH]; intros acc Hbound; simpl.
  - by rewrite Z.add_0_r.
  - pose proof (magnitude_nonneg ks) as Hpos.
    change (magnitude (k :: ks)) with (Z.abs k + magnitude ks)%Z in Hbound.
    change (Zsum (k :: ks)) with (k + Zsum ks)%Z.
    rewrite add_integers by lia. rewrite IH by lia. f_equal. f_equal. lia.
Qed.

Lemma totalExpense_fold l acc :
  foldl (λ sum e, Js.add sum (Expense.amount e)) acc l
  = foldl Js.add acc (Expense.amount <$> l).
Proof.
  revert acc. induction l as [|e l IH]; intros acc; simpl; [done|]. apply IH.
Qed.

(** C4, as the code has it. The filtered ledger holds exactly the records,
    in ledger order, whose date lies within the bounds that are set (both
    inclusive) and whose payer is the selected one unless the selection is
    the wildcard; the total shown adds the [amount] field of this filtered
    list, record after record from 0, in double precision. When the amounts
    are whole numbers whose magnitudes total less than [2 ^ 53], it is their
    exact sum. *)
Theorem filteredExpenses_exact
    (expenses : list Expense.t) (filterPayer filterStart filterEnd : string) :
  let filtered := filteredExpenses expenses filterPayer filterStart filterEnd in
  filtered = filter (inFilter filterPayer filterStart filterEnd) expenses
  ∧ (∀ e, e ∈ filtered ↔ e ∈ expenses ∧ inFilter filterPayer filterStart filterEnd e)
  ∧ totalExpense filtered = foldl Js.add (Js.Zero false) (Expense.amount <$> filtered)
  ∧ (∀ ks : list Z,
       Expense.amount <$> filtered = (λ k, Js.numberOf (inject_Z k)) <$> ks →
       (magnitude ks < 2 ^ 53)%Z →
       Js.denotes (totalExpense filtered) (inject_Z (Zsum ks))).
Proof.
  intros filtered.
  assert (filtered = filter (inFilter filterPayer filterStart filterEnd) expenses) as Heq.
  { apply list_filter_iff. intros e. unfold inFilter.
    rewrite andb_True, !Is_true_true, matchPayer_spec, matchDate_spec. tauto. }
  split_and!; [done| | |].
  - intros e. rewrite Heq, list_elem_of_filter. tauto.
  - apply totalExpense_fold.
  - intros ks Hks Hbound. unfold totalExpense.
    rewrite totalExpense_fold, Hks.
    change (Js.Zero false) with (Js.numberOf (inject_Z 0)).
    rewrite foldl_add_integers by (simpl; lia). simpl (0 + _)%Z.
    apply numberOf_integer_denotes. pose proof (Zsum_bound ks). lia.
Qed.

Lemma filteredExpenses_exact_witness :
  let filtered := filteredExpenses initialExpenses "All" "2025-11-05" "2025-11-06" in
  filtered = initialExpenses
  ∧ Expense.amount <$> filtered
    = (λ k, Js.numberOf (inject_Z k)) <$> [850; 320; 2200; 650]%Z
  ∧ (magnitude [850; 320; 2200; 650] < 2 ^ 53)%Z
  ∧ Js.denotes (totalExpense filtered) (inject_Z 4020).
Proof.
  intros filtered.
  assert (Expense.amount <$> filtered
          = (λ k, Js.numberOf (inject_Z k)) <$> [850; 320; 2200; 650]%Z) as Hks
    by (by vm_compute).
  assert (magnitude [850; 320; 2200; 650] < 2 ^ 53)%Z as Hbound by (by vm_compute).
  destruct (filteredExpenses_exact initialExpenses "All" "2025-11-05" "2025-11-06")
    as (_ & _ & _ & Hexact).
  split_and!; [by vm_compute|exact Hks|exact Hbound|].
  apply (Hexact _ Hks Hbound).
Defined.

(** C4, as the specification words it, fails on amounts with decimals: the
    ledger of 0.1 TWD and 0.2 TWD holds the doubles nearest to 0.1 and 0.2,
    and its total is the double 0.30000000000000004, which is neither the
    sum of the two amounts held nor the double nearest to 0.3. *)
Lemma totalExpense_not_the_exact_sum :
  let ledger := [
    Expense.mk 5 "2025-11-07" "餐飲" "茶"
      (twdAmount "0.1" TWD) TWD (Js.parseFloat "0.1") TWD "John";
    Expense.mk 6 "2025-11-07" "餐飲" "糖"
      (twdAmount "0.2" TWD) TWD (Js.parseFloat "0.2") TWD "John"
  ] in
  filteredExpenses ledger "All" "" "" = ledger
  ∧ Expense.amount <$> ledger = [Js.numberOf 0.1; Js.numberOf 0.2]
  ∧ totalExpense ledger = Js.numberOf 0.30000000000000004
  ∧ totalExpense ledger ≠ Js.numberOf 0.3
  ∧ ∃ a b, Js.numberOf 0.1 = Js.Finite a ∧ Js.numberOf 0.2 = Js.Finite b
           ∧ ¬ Js.denotes (totalExpense ledger) (a + b).
Proof.
  intros ledger. split_and!; [by vm_compute..|].
  eexists _, _. split_and!; [by vm_compute..|].
  vm_compute. discriminate.
Qed.


(** ** Geocoding *)

Lemma starts_with_prefix w l : Js.starts_with w l = true ↔ w `prefix_of` l.
Proof.
  revert l. induction w as [|c w IH]; intros [|c' l]; simpl.
  - split; [intros _; apply prefix_nil|done].
  - split; [intros _; apply prefix_nil|done].
  - split; [done|]. by intros ?%prefix_nil_inv.
  - rewrite andb_true_iff, Ascii.eqb_eq, IH. split.
    + intros [-> Hw]. by apply prefix_cons.
    + intros Hw. split; [by eapply prefix_cons_inv_1|by eapply prefix_cons_inv_2].
Qed.

Lemma find_None {A} (f : A → bool) l : (∀ x, x ∈ l → f x = false) → find f l = None.
Proof.
  induction l as [|x l IH]; intros Hall; simpl; [done|].
  rewrite (Hall x) by left. apply IH. intros y Hy. apply Hall. by right.
Qed.

Section strip_facts.
Context (ws : list (list ascii)) (Hws : Forall (λ w, w ≠ []) ws).

Lemma strip_clean fuel l :
  length l ≤ fuel → find (λ w, Js.starts_with w (Js.strip ws fuel l)) ws = None.
Proof using Hws.
  revert l. induction fuel as [|fuel IH]; intros l Hlen; simpl.
  - destruct l; [|simpl in Hlen; lia]. apply find_None. intros w Hw.
    rewrite Forall_forall in Hws. specialize (Hws w Hw). by destruct w.
  - destruct (find (λ w, Js.starts_with w l) ws) as [w|] eqn:Hfind; [|done].
    apply find_some in Hfind as [Hin Hw]. apply IH.
    rewrite Forall_forall in Hws. apply list_elem_of_In in Hin.
    specialize (Hws w Hin). rewrite length_drop.
    destruct w; [done|]. simpl. lia.
Qed.

Lemma strip_fixed fuel l :
  find (λ w, Js.starts_with w l) ws = None → Js.strip ws fuel l = l.
Proof. intros Hclean. destruct fuel; simpl; [done|]. by rewrite Hclean. Qed.

Lemma strip_suffix fuel l : Js.strip ws fuel l `suffix_of` l.
Proof.
  revert l. induction fuel as [|fuel IH]; intros l; simpl; [done|].
  destruct (find (λ w, Js.starts_with w l) ws) as [w|]; [|done].
  etrans; [apply IH|apply suffix_drop].
Qed.

Lemma find_starts_with_prefix t l :
  find (λ w, Js.starts_with w l) ws = None → t `prefix_of` l →
  find (λ w, Js.starts_with w t) ws = None.
Proof.
  intros Hclean Hprefix. apply find_None. intros w Hw.
  destruct (Js.starts_with w t) eqn:Hstarts; [|done].
  apply starts_with_prefix in Hstarts.
  assert (Js.starts_with w l = true) as Hl.
  { apply starts_with_prefix. by etrans. }
  apply list_elem_of_In in Hw. by rewrite (find_none _ _ Hclean w Hw) in Hl.
Qed.

End strip_facts.

Lemma white_space_nonempty : Forall (λ w, w ≠ []) Js.white_space.
Proof. apply (bool_decide_unpack _). by vm_compute. Qed.

Lemma white_space_reverse_nonempty : Forall (λ w, w ≠ []) (reverse <$> Js.white_space).
Proof. apply (bool_decide_unpack _). by vm_compute. Qed.

Lemma trimStart_clean s :
  find (λ w, Js.starts_with w (String.list_ascii_of_string (Js.trimStart s)))
    Js.white_space = None.
Proof.
  unfold Js.trimStart. rewrite String.list_ascii_of_string_of_list_ascii.
  by apply strip_clean; [apply white_space_nonempty|].
Qed.

Lemma trimStart_fixed s :
  find (λ w, Js.starts_with w (String.list_ascii_of_string s)) Js.white_space = None →
  Js.trimStart s = s.
Proof.
  intros Hclean. unfold Js.trimStart.
  by rewrite strip_fixed, String.string_of_list_ascii_of_string.
Qed.

Lemma trimEnd_clean s :
  find (λ w, Js.starts_with w (reverse (String.list_ascii_of_string (Js.trimEnd s))))
    (reverse <$> Js.white_space) = None.
Proof.
  unfold Js.trimEnd.
  rewrite String.list_ascii_of_string_of_list_ascii, reverse_involutive.
  by apply strip_clean; [apply white_space_reverse_nonempty|].
Qed.

Lemma trimEnd_fixed s :
  find (λ w, Js.starts_with w (reverse (String.list_ascii_of_string s)))
    (reverse <$> Js.white_space) = None →
  Js.trimEnd s = s.
Proof.
  intros Hclean. unfold Js.trimEnd.
  by rewrite strip_fixed, reverse_involutive, String.string_of_list_ascii_of_string.
Qed.

Lemma trimEnd_prefix s :
  String.list_ascii_of_string (Js.trimEnd s) `prefix_of` String.list_ascii_of_string s.
Proof.
  unfold Js.trimEnd. rewrite String.list_ascii_of_string_of_list_ascii.
  apply prefix_suffix_reverse. rewrite reverse_involutive. apply strip_suffix.
Qed.

Lemma trim_idemp s : Js.trim (Js.trim s) = Js.trim s.
Proof.
  unfold Js.trim.
  rewrite (trimStart_fixed (Js.trimEnd (Js.trimStart s))).
  - apply trimEnd_fixed, trimEnd_clean.
  - eapply find_starts_with_prefix; [apply trimStart_clean|apply trimEnd_prefix].
Qed.


Lemma geocodeLocation_unknown name :
  SIMULATED_GEO_DATA !! Js.trim name = None →
  Js.trim name ∉ Object_prototype_keys →
  geocodeLocation (Js.trim name) = None.
Proof.
  intros Htable Hproto. unfold geocodeLocation. rewrite trim_idemp, Htable.
  destruct (Js.includes _ _) eqn:Hin; [|done].
  by apply includes_true in Hin.
Qed.

Lemma geocodeLocation_known name lat lng :
  SIMULATED_GEO_DATA !! Js.trim name = Some (lat, lng) →
  geocodeLocation (Js.trim name) = Some (Coords lat lng).
Proof. intros Htable. unfold geocodeLocation. by rewrite trim_idemp, Htable. Qed.

(** C5, as the code has it. For a location that is not blank: when its
    trimmed name is neither a key of the table nor a property every object
    inherits, [handleGeocode] makes exactly three attempts, backs off 200 ms
    before the second and 400 ms before the third, awaits nothing after the
    third and reports [not_found]; when the trimmed name is in the table, the
    first attempt succeeds and nothing else is awaited. *)
Theorem handleGeocode_retries (st : Geo.t) :
  let name := Js.trim (Geo.location st) in
  name ≠ "" →
  (SIMULATED_GEO_DATA !! name = None → name ∉ Object_prototype_keys →
     (handleGeocode st).1
     = [Attempt name; Backoff 200; Attempt name; Backoff 400; Attempt name]
     ∧ attempts (handleGeocode st).1 = 3
     ∧ backoffs (handleGeocode st).1 = [200; 400]%Z
     ∧ (handleGeocode st).2 = Geo.mk (Geo.location st) Js.Null Js.Null false (Some not_found))
  ∧ (∀ lat lng, SIMULATED_GEO_DATA !! name = Some (lat, lng) →
       (handleGeocode st).1 = [Attempt name]
       ∧ (handleGeocode st).2
         = Geo.mk (Geo.location st) (Js.Number lat) (Js.Number lng) false (Some found)).
Proof.
  intros name Hname. subst name. apply truthy_str_true in Hname.
  unfold handleGeocode. rewrite Hname. simpl negb. cbv iota. split.
  - intros Htable Hproto. simpl.
    rewrite (geocodeLocation_unknown _ Htable Hproto). by simpl.
  - intros lat lng Htable. simpl.
    by rewrite (geocodeLocation_known _ _ _ Htable).
Qed.

Lemma handleGeocode_retries_witness :
  let unknown := Geo.mk "XYZ" Js.Null Js.Null false None in
  let known := Geo.mk "士林夜市" Js.Null Js.Null false None in
  let wide := String "227" (String "128" (String "128" "")) in
  let padded := Geo.mk (" 台北車站" +:+ wide) Js.Null Js.Null false None in
  ((handleGeocode unknown).1
   = [Attempt "XYZ"; Backoff 200; Attempt "XYZ"; Backoff 400; Attempt "XYZ"]
   ∧ attempts (handleGeocode unknown).1 = 3
   ∧ backoffs (handleGeocode unknown).1 = [200; 400]%Z
   ∧ (handleGeocode unknown).2 = Geo.mk "XYZ" Js.Null Js.Null false (Some not_found))
  ∧ ((handleGeocode known).1 = [Attempt "士林夜市"]
     ∧ (handleGeocode known).2
       = Geo.mk "士林夜市" (Js.Number 25.0878) (Js.Number 121.5241) false (Some found))
  ∧ ((handleGeocode padded).1 = [Attempt "台北車站"]
     ∧ (handleGeocode padded).2
       = Geo.mk (" 台北車站" +:+ wide) (Js.Number 25.0478) (Js.Number 121.5170) false
           (Some found)).
Proof.
  intros unknown known wide padded. split; [|split].
  - apply (handleGeocode_retries unknown); [done|by vm_compute|].
    apply (bool_decide_unpack _). by vm_compute.
  - apply (handleGeocode_retries known); [done|by vm_compute].
  - assert (Js.trim (Geo.location padded) = "台北車站") as Htrim by (by vm_compute).
    pose proof (handleGeocode_retries padded) as Hretries. cbv zeta in Hretries.
    rewrite Htrim in Hretries.
    apply Hretries; [done|by vm_compute].
Defined.

(** C5, as the specification words it, fails on its own example: after the
    third failed attempt nothing is awaited, there is no back-off of 800 ms. *)
Lemma handleGeocode_no_third_backoff :
  let st := Geo.mk "XYZ" Js.Null Js.Null false None in
  SIMULATED_GEO_DATA !! "XYZ" = None
  ∧ (handleGeocode st).1
    = [Attempt "XYZ"; Backoff 200; Attempt "XYZ"; Backoff 400; Attempt "XYZ"]
  ∧ backoffs (handleGeocode st).1 ≠ [200; 400; 800]%Z
  ∧ Geo.geocodeStatus (handleGeocode st).2 = Some not_found.
Proof. intros st. split_and!; by vm_compute. Qed.

(** ** Currency conversion *)

Section conversion.
Local Open Scope Q_scope.

Lemma Qfloor_unique x k : inject_Z k <= x → x < inject_Z k + 1 → Qfloor x = k.
Proof.
  intros Hlo Hhi.
  pose proof (Qfloor_le x) as Hle. pose proof (Qlt_floor x) as Hlt.
  set (n := Qfloor x) in *. rewrite inject_Z_plus in Hlt.
  change (inject_Z 1) with 1 in Hlt.
  assert (inject_Z n < inject_Z (k + 1)) as H1.
  { rewrite inject_Z_plus. change (inject_Z 1) with 1. lra. }
  assert (inject_Z k < inject_Z (n + 1)) as H2.
  { rewrite inject_Z_plus. change (inject_Z 1) with 1. lra. }
  rewrite <- Zlt_Qlt in H1, H2. lia.
Qed.

Lemma numberOf_100 : Js.numberOf 100 = Js.Finite 100.
Proof. by vm_compute. Qed.

Lemma normal_range_low : Js.pow2 (-1022) <= Js.pow2 (-1000) * (1 # 1024).
Proof.
  assert (Js.pow2 (-1000) * (1 # 1024) == Js.pow2 (-1010)) as ->.
  { by rewrite (pow2_plus (-1000) (-10)). }
  by apply pow2_le.
Qed.

Lemma normal_range_high : Js.pow2 1000 * 1048576 <= Js.pow2 1023.
Proof.
  assert (Js.pow2 1000 * 1048576 == Js.pow2 1020) as ->.
  { by rewrite (pow2_plus 1000 20). }
  by apply pow2_le.
Qed.

(** The rounding of a positive product in double precision, step by step:
    [r] is the rate as a double, [d] the rate as a decimal. *)
Lemma twdAmount_steps val r d :
  0 < d → (1 - (1 # 9007199254740992)) * d <= r → r <= (1 + (1 # 9007199254740992)) * d →
  (1 # 8) <= r → r <= 64 →
  Js.pow2 (-1000) <= val → val <= Js.pow2 1000 →
  ∃ n : Z,
    Js.div (Js.Math_round (Js.mul (Js.mul (Js.Finite val) (Js.Finite r)) (Js.Finite 100)))
      (Js.Finite 100)
    = Js.numberOf (inject_Z n / 100)
    ∧ Qabs (inject_Z n / 100 - val * d) <= (1 # 200) + Js.pow2 (-51) * (val * d).
Proof.
  intros Hd Hr1 Hr2 Hr3 Hr4 Hlo Hhi. cbn [Js.mul].
  pose proof normal_range_low as Hlow. pose proof normal_range_high as Hhigh.
  pose proof (pow2_pos (-1000)) as Hpos. pose proof (pow2_pos 1000) as Hpos'.
  assert (Js.pow2 (-51) == 1 # 2251799813685248) as Hu by reflexivity.
  set (lo := Js.pow2 (-1000)) in *. set (hi := Js.pow2 1000) in *.
  set (tiny := Js.pow2 (-1022)) in *. set (big := Js.pow2 1023) in *.
  assert (lo * (1 # 8) <= val * r) as Hx1.
  { apply Qle_trans with (val * (1 # 8)).
    - apply Qmult_le_compat_r; [done|lra].
    - apply Qmult_le_l; [lra|done]. }
  assert (val * r <= hi * 64) as Hx2.
  { apply Qle_trans with (val * 64).
    - apply Qmult_le_l; [lra|done].
    - apply Qmult_le_compat_r; [done|lra]. }
  assert ((1 - (1 # 9007199254740992)) * (val * d) <= val * r) as Hx3.
  { assert ((1 - (1 # 9007199254740992)) * (val * d)
            == val * ((1 - (1 # 9007199254740992)) * d)) as -> by ring.
    apply Qmult_le_l; [lra|done]. }
  assert (val * r <= (1 + (1 # 9007199254740992)) * (val * d)) as Hx4.
  { assert ((1 + (1 # 9007199254740992)) * (val * d)
            == val * ((1 + (1 # 9007199254740992)) * d)) as -> by ring.
    apply Qmult_le_l; [lra|done]. }
  assert (0 < val * d) as Hvd by (apply Qmult_lt_0_compat; lra).
  set (x1 := val * r) in *. set (vd := val * d) in *.
  assert (vd == val * d) as Hvd' by reflexivity. clearbody vd.
  set (u51 := Js.pow2 (-51)) in *.
  pose proof numberOf_near as Hnear. fold tiny big in Hnear.
  clearbody lo hi tiny big x1 u51.
  destruct (Hnear x1) as (p1 & -> & Hp1 & Hp1'); [lra..|].
  cbn [Js.mul].
  destruct (Hnear (p1 * 100)) as (p2 & -> & Hp2 & Hp2'); [lra..|].
  clear Hnear. unfold Js.Math_round.
  pose proof (Qfloor_le (p2 + (1 # 2))) as Hn1.
  pose proof (Qlt_floor (p2 + (1 # 2))) as Hn2.
  set (n := Qfloor (p2 + (1 # 2))) in *.
  rewrite inject_Z_plus in Hn2. change (inject_Z 1) with 1 in Hn2.
  exists n. split.
  - destruct (n =? 0)%Z eqn:Hzero; [|done].
    apply Z.eqb_eq in Hzero. rewrite Hzero.
    assert (Js.is_negative p2 = false) as ->.
    { unfold Js.is_negative. apply negb_false_iff, Qle_bool_iff. lra. }
    by vm_compute.
  - assert (inject_Z n / 100 == inject_Z n * (1 # 100)) as -> by field.
    rewrite Hu. clear Hu. apply Qabs_Qle_condition. split; lra.
Qed.

Lemma rates_near c :
  ∃ r, EXCHANGE_RATES c = Js.Finite r
       ∧ 0 < decimal_rate c
       ∧ (1 - (1 # 9007199254740992)) * decimal_rate c <= r
       ∧ r <= (1 + (1 # 9007199254740992)) * decimal_rate c
       ∧ (1 # 8) <= r ∧ r <= 64.
Proof.
  destruct c; eexists; (split; [by vm_compute|]);
    split_and!; try (apply Qle_bool_iff; by vm_compute); by vm_compute.
Qed.

Lemma twdAmount_zero amount currency s :
  Js.parseFloat amount = Js.Zero s → twdAmount amount currency = Js.Zero s.
Proof.
  intros Hparse. unfold twdAmount. rewrite Hparse.
  destruct currency, s; by vm_compute.
Qed.

(** In the home currency a two-decimal amount below [2 ^ 50] hundredths
    comes back as it went in. *)
Lemma twdAmount_home amount k :
  (0 ≤ k < 2 ^ 50)%Z →
  Js.parseFloat amount = Js.numberOf (inject_Z k / 100) →
  twdAmount amount TWD = Js.parseFloat amount.
Proof.
  intros [Hk0 Hk] Hparse.
  destruct (decide (k = 0%Z)) as [->|Hne].
  { assert (Js.parseFloat amount = Js.Zero false) as Hzero
      by (rewrite Hparse; by vm_compute).
    rewrite Hzero. by apply twdAmount_zero. }
  assert (1 <= inject_Z k) as Hk1.
  { change 1 with (inject_Z 1). rewrite <- Zle_Qle. lia. }
  assert (inject_Z k < 1125899906842624) as Hk2.
  { change 1125899906842624 with (inject_Z (2 ^ 50)). by rewrite <- Zlt_Qlt. }
  assert (Js.pow2 (-1022) <= 1 # 1024) as Hlow.
  { change (1 # 1024) with (Js.pow2 (-10)). by apply pow2_le. }
  assert (1152921504606846976 <= Js.pow2 1023) as Hhigh.
  { change 1152921504606846976 with (Js.pow2 60). by apply pow2_le. }
  assert (inject_Z k / 100 == inject_Z k * (1 # 100)) as Hdiv by field.
  set (tiny := Js.pow2 (-1022)) in *. set (big := Js.pow2 1023) in *.
  pose proof numberOf_near as Hnear. fold tiny big in Hnear.
  set (K := inject_Z k) in *. clearbody tiny big.
  destruct (Hnear (K / 100)) as (a & Ha & Ha1 & Ha2); [rewrite Hdiv; lra..|].
  rewrite Hdiv in Ha1, Ha2.
  unfold twdAmount. rewrite Hparse, Ha. cbn [Js.isNaN].
  assert (EXCHANGE_RATES TWD = Js.Finite 1) as -> by (by vm_compute).
  rewrite numberOf_100. cbn [Js.mul].
  destruct (Hnear (a * 1)) as (p1 & -> & Hp1 & Hp1'); [lra..|].
  cbn [Js.mul].
  destruct (Hnear (p1 * 100)) as (p2 & -> & Hp2 & Hp2'); [lra..|].
  clear Hnear. unfold Js.Math_round.
  assert (Qfloor (p2 + (1 # 2)) = k) as ->.
  { apply Qfloor_unique; fold K; clearbody K; lra. }
  apply Z.eqb_neq in Hne. rewrite Hne. done.
Qed.

End conversion.

(** C3, as the code has it. An amount that does not parse yields 0 and a
    zero amount yields zero. For a parsed amount [a] between [2 ^ -1000] and
    [2 ^ 1000] the converted amount is [Math.round(a * rate * 100) / 100]
    in double precision: the double nearest to [n / 100] for a whole [n] at
    most half a hundredth, and a relative [2 ^ -51] for the rounding of the
    products, away from the amount times the decimal rate. In the home
    currency an amount of [k] hundredths, [k] below [2 ^ 50], converts to
    itself. *)
Theorem twdAmount_rounds (amount : string) (currency : currency_code) :
  EXCHANGE_RATES <$> CURRENCIES = Js.numberOf <$> [1; 32; 0.22; 35; 4.5]%Q
  ∧ (Js.parseFloat amount = Js.NaN → twdAmount amount currency = Js.Zero false)
  ∧ (∀ s, Js.parseFloat amount = Js.Zero s → twdAmount amount currency = Js.Zero s)
  ∧ (∀ a, Js.parseFloat amount = Js.Finite a →
       (Js.pow2 (-1000) <= a)%Q → (a <= Js.pow2 1000)%Q →
       ∃ n : Z,
         twdAmount amount currency = Js.numberOf (inject_Z n / 100)
         ∧ (Qabs (inject_Z n / 100 - a * decimal_rate currency)
            <= (1 # 200) + Js.pow2 (-51) * (a * decimal_rate currency))%Q)
  ∧ (∀ k : Z, (0 ≤ k < 2 ^ 50)%Z →
       Js.parseFloat amount = Js.numberOf (inject_Z k / 100) →
       twdAmount amount TWD = Js.parseFloat amount).
Proof.
  split_and!.
  - done.
  - intros Hnan. unfold twdAmount. by rewrite Hnan.
  - apply twdAmount_zero.
  - intros a Hparse Hlo Hhi. unfold twdAmount. rewrite Hparse. cbn [Js.isNaN].
    destruct (rates_near currency) as (r & -> & Hd & Hr1 & Hr2 & Hr3 & Hr4).
    rewrite numberOf_100. by apply (twdAmount_steps a r).
  - apply twdAmount_home.
Qed.

Lemma twdAmount_rounds_witness :
  Js.parseFloat "1000" = Js.Finite 1000
  ∧ (Js.pow2 (-1000) <= 1000)%Q ∧ (1000 <= Js.pow2 1000)%Q
  ∧ (∃ n : Z,
       twdAmount "1000" JPY = Js.numberOf (inject_Z n / 100)
       ∧ (Qabs (inject_Z n / 100 - 1000 * decimal_rate JPY)
          <= (1 # 200) + Js.pow2 (-51) * (1000 * decimal_rate JPY))%Q)
  ∧ twdAmount "1000" JPY = Js.numberOf 220
  ∧ twdAmount "5.75" JPY = Js.numberOf 1.26
  ∧ twdAmount "1000" TWD = Js.parseFloat "1000"
  ∧ twdAmount "" USD = Js.Zero false.
Proof.
  assert (Js.parseFloat "1000" = Js.Finite 1000) as Hparse by (by vm_compute).
  assert (Js.pow2 (-1000) <= 1000)%Q as Hlo by (apply Qle_bool_iff; by vm_compute).
  assert (1000 <= Js.pow2 1000)%Q as Hhi by (apply Qle_bool_iff; by vm_compute).
  destruct (twdAmount_rounds "1000" JPY) as (_ & _ & _ & Hnumeric & Hhome).
  destruct (twdAmount_rounds "" USD) as (_ & Hnan & _).
  split_and!; [exact Hparse|exact Hlo|exact Hhi| |by vm_compute|by vm_compute| |].
  - exact (Hnumeric _ Hparse Hlo Hhi).
  - assert (0 ≤ 100000 < 2 ^ 50)%Z as Hk by lia.
    assert (Js.parseFloat "1000" = Js.numberOf (inject_Z 100000 / 100)) as Hhundredths
      by (by vm_compute).
    exact (Hhome 100000%Z Hk Hhundredths).
  - apply Hnan. by vm_compute.
Defined.

(** C3, as the specification words it, fails in the home currency on an
    amount with three decimal places, 1.234 TWD converting to 1.23, and on a
    product that sits on a rounding boundary: 5.75 JPY is 1.265 in decimals,
    which rounds to 1.27, but the product in double precision is
    126.49999999999999 hundredths and the converted amount 1.26. *)
Lemma twdAmount_TWD_not_identity :
  Js.parseFloat "1.234" = Js.numberOf 1.234
  ∧ twdAmount "1.234" TWD = Js.numberOf 1.23
  ∧ twdAmount "1.234" TWD ≠ Js.parseFloat "1.234"
  ∧ Js.parseFloat "5.75" = Js.numberOf 5.75
  ∧ (5.75 * decimal_rate JPY == 1.265)%Q
  ∧ twdAmount "5.75" JPY = Js.numberOf 1.26
  ∧ twdAmount "5.75" JPY ≠ Js.numberOf 1.27.
Proof. split_and!; by vm_compute. Qed.


(** ** Adding to the ledger *)

Lemma sort_insert_ext {A} (cmp cmp' : A → A → comparison) x l :
  (∀ y, y ∈ l → cmp x y = cmp' x y) →
  Js.sort_insert cmp x l = Js.sort_insert cmp' x l.
Proof.
  induction l as [|y l IH]; intros Hagree; simpl; [done|].
  rewrite <- (Hagree y) by left.
  destruct (cmp x y); try done.
  f_equal. apply IH. intros z Hz. apply Hagree. by right.
Qed.

Lemma sort_ext {A} (cmp cmp' : A → A → comparison) l :
  (∀ x y, x ∈ l → y ∈ l → cmp x y = cmp' x y) →
  Js.sort cmp l = Js.sort cmp' l.
Proof.
  induction l as [|x l IH]; intros Hagree; simpl; [done|].
  rewrite IH by (intros y z ??; apply Hagree; by right).
  apply sort_insert_ext. intros y Hy.
  rewrite sort_Permutation in Hy. apply Hagree; [by left|by right].
Qed.

Lemma StronglySorted_impl_in {A} (R R' : relation A) l :
  (∀ x y, x ∈ l → y ∈ l → R x y → R' x y) →
  StronglySorted R l → StronglySorted R' l.
Proof.
  intros HR Hl. induction Hl as [|x l Hl IH Hx]; constructor.
  - apply IH. intros y z ??. apply HR; by right.
  - apply Forall_forall. intros y Hy. apply HR; [by left|by right|].
    by eapply Forall_forall in Hx.
Qed.

Lemma by_date_descending_valid a b :
  is_Some (Js.Date_value (Expense.date a)) →
  is_Some (Js.Date_value (Expense.date b)) →
  by_date_descending a b = (timeValue b ?= timeValue a)%Z.
Proof.
  intros [ta Ha] [tb Hb]. unfold by_date_descending, timeValue.
  by rewrite Ha, Hb.
Qed.


Lemma sort_by_date_descending l :
  Forall (λ e, is_Some (Js.Date_value (Expense.date e))) l →
  dateDescending (Js.sort by_date_descending l).
Proof.
  intros Hvalid. rewrite Forall_forall in Hvalid.
  rewrite (sort_ext _ (λ a b, (timeValue b ?= timeValue a)%Z))
    by (intros; apply by_date_descending_valid; auto).
  apply StronglySorted_Sorted.
  eapply StronglySorted_impl_in; [|apply sort_StronglySorted].
  - intros a b Ha Hb Hab. rewrite sort_Permutation in Ha, Hb.
    destruct (Hvalid a Ha) as [ta Hta], (Hvalid b Hb) as [tb Htb].
    exists ta, tb. split_and!; [done..|].
    unfold Js.in_order, timeValue in Hab. rewrite Hta, Htb in Hab. simpl in Hab.
    by apply Z.compare_le_iff.
  - intros a b. rewrite (Z.compare_antisym (timeValue b) (timeValue a)).
    by destruct (timeValue b ?= timeValue a)%Z.
  - intros a b c. unfold Js.in_order. rewrite !Z.compare_le_iff. lia.
Qed.



(** ** Itinerary store: the orders *)

Lemma Sorted_on_fmap {A B} (f : A → B) (R : relation B) l :
  Sorted (λ a b, R (f a) (f b)) l ↔ Sorted R (f <$> l).
Proof.
  split; [by apply Sorted_fmap|].
  induction l as [|x l IH]; [constructor|].
  rewrite fmap_cons. intros [Hl Hx]%Sorted_inv. constructor; [by apply IH|].
  destruct l; [constructor|]. constructor. by apply HdRel_inv in Hx.
Qed.

Lemma dateAscending_dates (l l' : list Day.t) :
  Day.date <$> l' = Day.date <$> l → dateAscending l → dateAscending l'.
Proof.
  unfold dateAscending. rewrite !(Sorted_on_fmap Day.date String.le).
  by intros ->.
Qed.

Lemma imap_replace {A} (i : nat) (x : A) l :
  imap (λ index y, if bool_decide (index = i) then x else y) l = <[i:=x]> l.
Proof.
  apply list_eq. intros j. rewrite list_lookup_imap.
  destruct (decide (j = i)) as [->|Hne].
  - destruct (l !! i) as [y|] eqn:Hy; simpl.
    + rewrite bool_decide_true by done.
      by rewrite list_lookup_insert_eq by (by eapply lookup_lt_Some).
    + rewrite list_insert_ge by (by apply lookup_ge_None). by rewrite Hy.
  - rewrite list_lookup_insert_ne by done.
    destruct (l !! j); simpl; [|done]. by rewrite bool_decide_false.
Qed.

Lemma removeFromDay_date id date day :
  Day.date (removeFromDay id date day) = Day.date day.
Proof. unfold removeFromDay. by case_bool_decide. Qed.

Lemma removeFromDay_dates id date (days : list Day.t) :
  Day.date <$> (removeFromDay id date <$> days) = Day.date <$> days.
Proof.
  rewrite <- list_fmap_compose. apply list_fmap_ext.
  intros _ day _. apply removeFromDay_date.
Qed.

Lemma removeFromDay_ascending id date day :
  timeAscending (Day.activities day) →
  timeAscending (Day.activities (removeFromDay id date day)).
Proof.
  unfold removeFromDay. case_bool_decide; [|done]. simpl.
  apply (Sorted_filter _ _).
Qed.

Lemma removeEmptyDays_Forall (P : Day.t → Prop) days :
  Forall P days → Forall P (removeEmptyDays days).
Proof.
  rewrite !Forall_forall. intros Hall day [_ Hday]%list_elem_of_filter. auto.
Qed.

Lemma removeEmptyDays_nonempty days :
  Forall (λ day, Day.activities day ≠ []) (removeEmptyDays days).
Proof.
  apply Forall_forall. intros day [Hlen _]%list_elem_of_filter.
  intros Hnil. rewrite Hnil in Hlen. simpl in Hlen. lia.
Qed.

Lemma removeEmptyDays_ascending days :
  dateAscending days → dateAscending (removeEmptyDays days).
Proof. apply (Sorted_filter _ _). Qed.

Lemma upsertInto_date activity day :
  Day.date (upsertInto activity day) = Day.date day.
Proof. done. Qed.

Lemma upsertInto_ascending activity day :
  timeAscending (Day.activities (upsertInto activity day)).
Proof. apply sort_by_time_ascending. Qed.

Lemma some_true {A} (P : A → Prop) `{∀ x, Decision (P x)} l :
  Js.some P l = true ↔ ∃ x, x ∈ l ∧ P x.
Proof. unfold Js.some. by rewrite bool_decide_eq_true, Exists_exists. Qed.

Lemma upsertInto_nonempty activity day :
  Day.activities (upsertInto activity day) ≠ [].
Proof.
  unfold upsertInto. simpl. intros Hnil%(f_equal length).
  rewrite sort_length in Hnil.
  destruct (Js.some _ _) eqn:Hsome; simpl in Hnil.
  - apply some_true in Hsome as (a & Ha & _).
    destruct (_ <$> Day.activities day); [by apply elem_of_nil in Ha|done].
  - rewrite length_app in Hnil. simpl in Hnil. lia.
Qed.

Lemma findIndex_Some {A} (P : A → Prop) `{∀ x, Decision (P x)} l i x :
  Js.findIndex P l = Some (i, x) → l !! i = Some x ∧ P x.
Proof. intros (? & ? & _)%list_find_Some. done. Qed.

(** What the two branches of [handleActivitySave] return, with the array
    updates written as insertions. *)
Lemma handleActivitySave_moved activity isEdit prev originalDate :
  dateChanged activity isEdit = Some originalDate →
  let newState :=
    removeEmptyDays (removeFromDay (Submitted.id activity) originalDate <$> prev) in
  let newDay := Day.mk (Submitted.date activity) [withoutOriginalDate activity] in
  handleActivitySave activity isEdit prev
  = match Js.findIndex (λ day, Day.date day = Submitted.date activity) newState with
    | None => Js.sort by_date (newState ++ [newDay])
    | Some (newDayIndex, existing) => <[newDayIndex := upsertInto activity existing]> newState
    end.
Proof.
  intros Hmoved. unfold handleActivitySave. rewrite Hmoved. simpl.
  destruct (Js.findIndex _ _) as [[i existing]|] eqn:Hfind; [|done].
  apply findIndex_Some in Hfind as [Hexisting _].
  apply list_eq. intros j. rewrite list_lookup_alter.
  case_decide as Hj.
  - subst j. rewrite Hexisting. simpl.
    by rewrite list_lookup_insert_eq by (by eapply lookup_lt_Some).
  - by rewrite list_lookup_insert_ne.
Qed.

Lemma handleActivitySave_same_date activity isEdit prev :
  dateChanged activity isEdit = None →
  let newDay := Day.mk (Submitted.date activity) [withoutOriginalDate activity] in
  handleActivitySave activity isEdit prev
  = match Js.findIndex (λ day, Day.date day = Submitted.date activity) prev with
    | None => Js.sort by_date (prev ++ [newDay])
    | Some (dayIndex, existing) =>
        <[dayIndex :=
            Day.mk (Day.date existing)
              (Js.sort by_time
                 (if isEdit
                  then (λ a, if bool_decide (Activity.id a = Submitted.id activity)
                             then withoutOriginalDate activity else a)
                         <$> Day.activities existing
                  else Day.activities existing ++ [withoutOriginalDate activity]))]> prev
    end.
Proof.
  intros Hsame. unfold handleActivitySave. rewrite Hsame. simpl.
  destruct (Js.findIndex _ _) as [[i existing]|]; [|done].
  apply imap_replace.
Qed.

Lemma newDay_ascending activity :
  timeAscending (Day.activities (Day.mk (Submitted.date activity) [withoutOriginalDate activity])).
Proof. repeat constructor. Qed.

(** C2. From a store whose days all list their activities in ascending time,
    every itinerary mutation (a save in add, edit or date-move mode, or a
    delete, confirmed or not) leaves a store whose days all list their
    activities in ascending time. *)
Theorem activities_stay_time_ascending (prev : list Day.t) :
  Forall (λ day, timeAscending (Day.activities day)) prev →
  (∀ activity isEdit,
     Forall (λ day, timeAscending (Day.activities day))
       (handleActivitySave activity isEdit prev))
  ∧ (∀ id date confirmed,
       Forall (λ day, timeAscending (Day.activities day))
         (handleActivityDelete id date confirmed prev)).
Proof.
  intros Hprev.
  assert (∀ id date, Forall (λ day, timeAscending (Day.activities day))
            (removeEmptyDays (removeFromDay id date <$> prev))) as Hremoved.
  { intros id date. apply removeEmptyDays_Forall, Forall_fmap.
    eapply Forall_impl; [exact Hprev|]. intros day. apply removeFromDay_ascending. }
  split.
  - intros activity isEdit.
    destruct (dateChanged activity isEdit) as [originalDate|] eqn:Hmoved.
    + rewrite (handleActivitySave_moved _ _ _ _ Hmoved). simpl.
      destruct (Js.findIndex _ _) as [[i existing]|].
      * apply Forall_insert; [apply Hremoved|apply upsertInto_ascending].
      * rewrite sort_Permutation. apply Forall_app. split; [apply Hremoved|].
        constructor; [apply newDay_ascending|constructor].
    + rewrite (handleActivitySave_same_date _ _ _ Hmoved). simpl.
      destruct (Js.findIndex _ _) as [[i existing]|].
      * apply Forall_insert; [done|apply sort_by_time_ascending].
      * rewrite sort_Permutation. apply Forall_app. split; [done|].
        constructor; [apply newDay_ascending|constructor].
  - intros id date [|]; [apply Hremoved|done].
Qed.

Lemma activities_stay_time_ascending_witness :
  let lunch :=
    Submitted.mk "a7" "2025-11-05" "12:00" "Utensils" "Lunch" "" Js.Null Js.Null None in
  Forall (λ day, timeAscending (Day.activities day)) initialItinerary
  ∧ Forall (λ day, timeAscending (Day.activities day))
      (handleActivitySave lunch false initialItinerary)
  ∧ (Activity.id <$> allActivities (handleActivitySave lunch false initialItinerary))
    = ["a1"; "a2"; "a7"; "a3"; "a4"; "a5"; "a6"]
  ∧ Forall (λ day, timeAscending (Day.activities day))
      (handleActivityDelete "a2" "2025-11-05" true initialItinerary).
Proof.
  intros lunch.
  assert (Forall (λ day, timeAscending (Day.activities day)) initialItinerary) as Hinit.
  { repeat constructor. }
  destruct (activities_stay_time_ascending initialItinerary Hinit) as [Hsave Hdelete].
  split_and!; [exact Hinit|apply Hsave|by vm_compute|apply Hdelete].
Defined.

Lemma insert_same_date (days : list Day.t) i day day' :
  days !! i = Some day → Day.date day' = Day.date day →
  dateAscending days → dateAscending (<[i:=day']> days).
Proof.
  intros Hi Hdate. apply dateAscending_dates.
  rewrite list_fmap_insert, Hdate. apply list_insert_id.
  by rewrite list_lookup_fmap, Hi.
Qed.

(** C6. From a store whose days are in ascending date order and all hold an
    activity, every itinerary mutation (a save in add, edit or date-move
    mode, or a delete, confirmed or not) leaves a store whose days are in
    ascending date order and all hold an activity. *)
Theorem days_stay_date_ascending_and_nonempty (prev : list Day.t) :
  dateAscending prev →
  Forall (λ day, Day.activities day ≠ []) prev →
  (∀ activity isEdit,
     dateAscending (handleActivitySave activity isEdit prev)
     ∧ Forall (λ day, Day.activities day ≠ []) (handleActivitySave activity isEdit prev))
  ∧ (∀ id date confirmed,
       dateAscending (handleActivityDelete id date confirmed prev)
       ∧ Forall (λ day, Day.activities day ≠ []) (handleActivityDelete id date confirmed prev)).
Proof.
  intros Hsorted Hnonempty.
  assert (∀ id date, dateAscending (removeEmptyDays (removeFromDay id date <$> prev)))
    as Hremoved.
  { intros id date. apply removeEmptyDays_ascending.
    by eapply dateAscending_dates; [apply removeFromDay_dates|]. }
  assert (∀ (days : list Day.t) day,
            Forall (λ day, Day.activities day ≠ []) days → Day.activities day ≠ [] →
            Forall (λ day, Day.activities day ≠ []) (Js.sort by_date (days ++ [day])))
    as Hadded.
  { intros days day Hdays Hday. rewrite sort_Permutation. apply Forall_app.
    split; [done|]. by repeat constructor. }
  split.
  - intros activity isEdit.
    destruct (dateChanged activity isEdit) as [originalDate|] eqn:Hmoved.
    + rewrite (handleActivitySave_moved _ _ _ _ Hmoved). simpl.
      destruct (Js.findIndex _ _) as [[i existing]|] eqn:Hfind.
      * apply findIndex_Some in Hfind as [Hi _]. split.
        -- by eapply insert_same_date.
        -- apply Forall_insert; [apply removeEmptyDays_nonempty|].
           apply upsertInto_nonempty.
      * split; [apply sort_by_date_ascending|].
        apply Hadded; [apply removeEmptyDays_nonempty|done].
    + rewrite (handleActivitySave_same_date _ _ _ Hmoved). simpl.
      destruct (Js.findIndex _ _) as [[i existing]|] eqn:Hfind.
      * apply findIndex_Some in Hfind as [Hi _]. split.
        -- by eapply insert_same_date.
        -- apply Forall_insert; [done|]. simpl.
           intros Hnil%(f_equal length). rewrite sort_length in Hnil.
           destruct isEdit.
           ++ rewrite length_fmap in Hnil. apply nil_length_inv in Hnil.
              by eapply Forall_lookup_1 in Hnonempty.
           ++ rewrite length_app in Hnil. simpl in Hnil. lia.
      * split; [apply sort_by_date_ascending|]. by apply Hadded.
  - intros id date [|]; simpl; [|done].
    split; [apply Hremoved|apply removeEmptyDays_nonempty].
Qed.

Lemma days_stay_date_ascending_and_nonempty_witness :
  let moved :=
    Submitted.mk "a2" "2025-11-04" "12:00" "MapPin" "抵達目的地並辦理入住" "台北車站"
      (Js.Number 25.0478) (Js.Number 121.5170) (Some "2025-11-05") in
  dateAscending initialItinerary
  ∧ Forall (λ day, Day.activities day ≠ []) initialItinerary
  ∧ dateAscending (handleActivitySave moved true initialItinerary)
  ∧ Forall (λ day, Day.activities day ≠ []) (handleActivitySave moved true initialItinerary)
  ∧ Day.date <$> handleActivitySave moved true initialItinerary
    = ["2025-11-04"; "2025-11-05"; "2025-11-06"]
  ∧ dateAscending (handleActivityDelete "a2" "2025-11-05" true initialItinerary).
Proof.
  intros moved.
  assert (dateAscending initialItinerary) as Hsorted by (repeat constructor).
  assert (Forall (λ day, Day.activities day ≠ []) initialItinerary) as Hnonempty
    by (by repeat constructor).
  destruct (days_stay_date_ascending_and_nonempty initialItinerary Hsorted Hnonempty)
    as [Hsave Hdelete].
  split_and!; [done|done|apply Hsave|apply Hsave|by vm_compute|apply Hdelete].
Defined.

(** ** Itinerary store: moving an activity to another day *)

Lemma filter_none {A} (P : A → Prop) `{∀ x, Decision (P x)} l :
  (∀ x, x ∈ l → ¬ P x) → filter P l = [].
Proof.
  induction l as [|x l IH]; intros Hnone; [done|].
  rewrite filter_cons_False by (apply Hnone; left).
  apply IH. intros y Hy. apply Hnone. by right.
Qed.

Lemma filter_unique {A B} `{EqDecision B} (f : A → B) l x :
  NoDup (f <$> l) → x ∈ l → filter (λ y, f y = f x) l = [x].
Proof.
  induction l as [|y l IH]; intros Hnodup Hx; [by apply elem_of_nil in Hx|].
  rewrite fmap_cons in Hnodup. apply NoDup_cons in Hnodup as [Hy Hnodup].
  apply elem_of_cons in Hx as [->|Hx].
  - rewrite filter_cons_True by done. f_equal.
    apply filter_none. intros z Hz Heq. apply Hy. rewrite <- Heq.
    by apply list_elem_of_fmap_2.
  - rewrite filter_cons_False; [by apply IH|].
    intros Heq. apply Hy. rewrite Heq. by apply list_elem_of_fmap_2.
Qed.

Lemma allActivities_removeEmptyDays days :
  allActivities (removeEmptyDays days) = allActivities days.
Proof.
  unfold allActivities, removeEmptyDays.
  induction days as [|day days IH]; [done|].
  rewrite filter_cons, !bind_cons. case_decide as Hlen.
  - by rewrite bind_cons, IH.
  - destruct (Day.activities day); [by rewrite IH|simpl in Hlen; lia].
Qed.

Lemma allActivities_split date (days : list Day.t) :
  allActivities days
  ≡ₚ allActivities (daysOn date days)
     ++ allActivities (filter (λ day, Day.date day ≠ date) days).
Proof.
  unfold allActivities, daysOn. rewrite <- bind_app.
  by rewrite (filter_app_complement (λ day, Day.date day = date) days).
Qed.

Lemma allActivities_elem_of a (days : list Day.t) :
  a ∈ allActivities days ↔ ∃ day, day ∈ days ∧ a ∈ Day.activities day.
Proof.
  unfold allActivities. rewrite list_elem_of_bind.
  split; intros (day & ? & ?); by exists day.
Qed.

Lemma removeFromDay_other id date day :
  Day.date day ≠ date → removeFromDay id date day = day.
Proof. intros Hdate. unfold removeFromDay. by rewrite bool_decide_false. Qed.

Lemma removeFromDay_length id date day :
  Day.date day = date →
  length (Day.activities (removeFromDay id date day))
  + length (withId id (Day.activities day))
  = length (Day.activities day).
Proof.
  intros Hdate. unfold removeFromDay, withId. rewrite bool_decide_true by done.
  simpl. induction (Day.activities day) as [|a acts IH]; [done|].
  rewrite !filter_cons. destruct (decide (Activity.id a = id)).
  - rewrite decide_False by auto. simpl. lia.
  - rewrite decide_True by done. simpl. lia.
Qed.

Lemma allActivities_length_removed id date (days : list Day.t) :
  length (allActivities (removeFromDay id date <$> days))
  + length (withId id (allActivities (daysOn date days)))
  = length (allActivities days).
Proof.
  unfold allActivities, daysOn.
  induction days as [|day days IH]; [done|].
  rewrite fmap_cons, filter_cons, !bind_cons, !length_app, <- IH.
  destruct (decide (Day.date day = date)) as [Hdate|Hdate].
  - pose proof (removeFromDay_length id date day Hdate) as Hday.
    unfold withId in *. rewrite bind_cons, filter_app, length_app.
    rewrite <- Hday. lia.
  - rewrite removeFromDay_other by done. lia.
Qed.

(** In a store with unique ids, taking the activity out of the days of its
    date takes out its only occurrence. *)
Lemma removed_everywhere id date (prev : list Day.t) :
  NoDup (Activity.id <$> allActivities prev) →
  (∃ a, a ∈ allActivities (daysOn date prev) ∧ Activity.id a = id) →
  let newState := removeEmptyDays (removeFromDay id date <$> prev) in
  Forall (λ a, Activity.id a ≠ id) (allActivities newState)
  ∧ S (length (allActivities newState)) = length (allActivities prev).
Proof.
  intros Hnodup (a0 & Ha0 & Hid0) newState. subst newState.
  rewrite allActivities_removeEmptyDays.
  rewrite (allActivities_split date prev), fmap_app in Hnodup.
  apply NoDup_app in Hnodup as (Hthere & Helsewhere & _).
  split.
  - apply Forall_forall. intros a (day' & Hday' & Ha)%allActivities_elem_of.
    apply list_elem_of_fmap in Hday' as (day & -> & Hday).
    unfold removeFromDay in Ha. case_bool_decide as Hdate; simpl in Ha.
    + by apply list_elem_of_filter in Ha as [? _].
    + intros Hid. apply (Helsewhere id).
      * rewrite <- Hid0. by apply list_elem_of_fmap_2.
      * rewrite <- Hid. apply list_elem_of_fmap_2, allActivities_elem_of.
        exists day. split; [|done]. by apply list_elem_of_filter.
  - subst id.
    pose proof (allActivities_length_removed (Activity.id a0) date prev) as Hlen.
    unfold withId in Hlen.
    rewrite (filter_unique Activity.id _ a0 Hthere Ha0) in Hlen.
    simpl in Hlen. lia.
Qed.

Lemma withId_none id acts :
  Forall (λ a, Activity.id a ≠ id) acts → withId id acts = [].
Proof.
  intros Hnone. apply filter_none. intros a Ha.
  by eapply Forall_forall in Hnone.
Qed.

Lemma withId_none_sub id (days days' : list Day.t) :
  Forall (λ a, Activity.id a ≠ id) (allActivities days) →
  days' ⊆ days →
  withId id (allActivities days') = [].
Proof.
  intros Hnone Hsub. apply withId_none, Forall_forall.
  intros a (day & Hday & Ha)%allActivities_elem_of.
  eapply Forall_forall in Hnone; [done|].
  apply allActivities_elem_of. exists day. auto.
Qed.

(** Upserting an activity whose id the day does not hold appends it. *)
Lemma upsertInto_fresh activity day :
  Forall (λ a, Activity.id a ≠ Submitted.id activity) (Day.activities day) →
  Day.activities (upsertInto activity day)
  ≡ₚ Day.activities day ++ [withoutOriginalDate activity].
Proof.
  intros Hfresh. unfold upsertInto. simpl. rewrite sort_Permutation.
  assert ((λ a, if bool_decide (Activity.id a = Submitted.id activity)
                then withoutOriginalDate activity else a) <$> Day.activities day
          = Day.activities day) as ->.
  { rewrite <- (list_fmap_id (Day.activities day)) at 2.
    apply list_fmap_ext. intros i a Ha%list_elem_of_lookup_2.
    eapply Forall_forall in Hfresh; [|done]. by rewrite bool_decide_false. }
  destruct (Js.some _ _) eqn:Hsome; [|done].
  apply some_true in Hsome as (a & Ha & Hid).
  eapply Forall_forall in Hfresh; [|done]. done.
Qed.

Lemma allActivities_insert (days : list Day.t) i day day' a :
  days !! i = Some day →
  Day.activities day' ≡ₚ Day.activities day ++ [a] →
  allActivities (<[i:=day']> days) ≡ₚ allActivities days ++ [a].
Proof.
  intros Hi Hacts. rewrite insert_take_drop by (by eapply lookup_lt_Some).
  rewrite <- (take_drop_middle days i day Hi) at 3.
  unfold allActivities. rewrite !bind_app, !bind_cons, Hacts.
  rewrite <- !app_assoc. f_equiv. f_equiv. apply Permutation_app_comm.
Qed.

Lemma daysOn_insert date (days : list Day.t) i day day' :
  days !! i = Some day →
  daysOn date (<[i:=day']> days)
  = daysOn date (take i days) ++ daysOn date [day'] ++ daysOn date (drop (S i) days).
Proof.
  intros Hi. rewrite insert_take_drop by (by eapply lookup_lt_Some).
  unfold daysOn. by rewrite cons_middle, !filter_app.
Qed.

Lemma daysOn_middle date (days : list Day.t) i day :
  days !! i = Some day →
  daysOn date days
  = daysOn date (take i days) ++ daysOn date [day] ++ daysOn date (drop (S i) days).
Proof.
  intros Hi. rewrite <- (take_drop_middle days i day Hi) at 1.
  unfold daysOn. by rewrite cons_middle, !filter_app.
Qed.

Lemma daysOn_sort date days :
  daysOn date (Js.sort by_date days) = daysOn date days.
Proof.
  apply sort_filter. intros a b Ha Hb. unfold by_date.
  rewrite Ha, Hb, localeCompare_same. done.
Qed.

Lemma daysOn_removed id date (prev : list Day.t) :
  daysOn date (removeEmptyDays (removeFromDay id date <$> prev))
  = removeEmptyDays (removeFromDay id date <$> daysOn date prev).
Proof.
  unfold daysOn, removeEmptyDays.
  induction prev as [|day prev IH]; [done|].
  rewrite fmap_cons, !filter_cons.
  destruct (decide (Day.date day = date)) as [Hdate|Hdate].
  - rewrite fmap_cons, filter_cons. case_decide as Hlen; [|done].
    rewrite filter_cons, decide_True by (by rewrite removeFromDay_date).
    by rewrite IH.
  - rewrite removeFromDay_other by done.
    case_decide as Hlen; [|done].
    rewrite filter_cons, decide_False by done. done.
Qed.

Lemma dateChanged_moved activity originalDate :
  Submitted.originalDate activity = Some originalDate →
  originalDate ≠ "" →
  originalDate ≠ Submitted.date activity →
  dateChanged activity true = Some originalDate.
Proof.
  intros Horiginal Hset Hother. unfold dateChanged. rewrite Horiginal.
  apply truthy_str_true in Hset. rewrite Hset. by rewrite bool_decide_true.
Qed.

Lemma daysOn_other date day : Day.date day ≠ date → daysOn date [day] = [].
Proof. intros Hdate. unfold daysOn. by rewrite filter_cons_False. Qed.

Lemma daysOn_same date day : Day.date day = date → daysOn date [day] = [day].
Proof. intros Hdate. unfold daysOn. by rewrite filter_cons_True. Qed.

Lemma daysOn_app date (days days' : list Day.t) :
  daysOn date (days ++ days') = daysOn date days ++ daysOn date days'.
Proof. apply filter_app. Qed.

Lemma allActivities_app (days days' : list Day.t) :
  allActivities (days ++ days') = allActivities days ++ allActivities days'.
Proof. apply bind_app. Qed.

Lemma allActivities_singleton day : allActivities [day] = Day.activities day.
Proof. unfold allActivities. rewrite bind_cons. apply app_nil_r. Qed.

Lemma withId_app id acts acts' :
  withId id (acts ++ acts') = withId id acts ++ withId id acts'.
Proof. apply filter_app. Qed.

(** The three facts about the store after a move from which the relocation
    property follows, in either case of the destination day. *)
Lemma move_result (prev : list Day.t) (activity : Submitted.t) (originalDate : string) :
  originalDate ≠ Submitted.date activity →
  dateChanged activity true = Some originalDate →
  let id := Submitted.id activity in
  let newState := removeEmptyDays (removeFromDay id originalDate <$> prev) in
  let next := handleActivitySave activity true prev in
  Forall (λ a, Activity.id a ≠ id) (allActivities newState) →
  allActivities next ≡ₚ allActivities newState ++ [withoutOriginalDate activity]
  ∧ daysOn originalDate next = daysOn originalDate newState
  ∧ withId id (allActivities (daysOn (Submitted.date activity) next))
    = [withoutOriginalDate activity].
Proof.
  intros Hother Hmoved id newState next Hnone. subst next.
  rewrite (handleActivitySave_moved _ _ _ _ Hmoved). simpl. fold id newState.
  assert (withId id [withoutOriginalDate activity] = [withoutOriginalDate activity])
    as Hself by (unfold withId; by rewrite filter_cons_True).
  destruct (Js.findIndex _ newState) as [[i existing]|] eqn:Hfind.
  - apply findIndex_Some in Hfind as [Hi Hdate].
    assert (Forall (λ a, Activity.id a ≠ id) (Day.activities existing)) as Hfresh.
    { apply Forall_forall. intros a Ha. eapply Forall_forall in Hnone; [done|].
      apply allActivities_elem_of. exists existing.
      split; [by eapply list_elem_of_lookup_2|done]. }
    pose proof (upsertInto_fresh activity existing Hfresh) as Hupsert.
    split_and!.
    + by eapply allActivities_insert.
    + rewrite (daysOn_insert _ _ _ _ _ Hi), (daysOn_middle originalDate _ _ _ Hi).
      rewrite !daysOn_other; [done|congruence|].
      rewrite upsertInto_date. congruence.
    + rewrite (daysOn_insert _ _ _ _ _ Hi), daysOn_same by done.
      rewrite !allActivities_app, !withId_app, allActivities_singleton.
      rewrite (withId_none_sub id newState (daysOn _ (take i newState))),
        (withId_none_sub id newState (daysOn _ (drop (S i) newState))); try done.
      * rewrite app_nil_r. simpl. apply Permutation_singleton_r.
        unfold withId. rewrite Hupsert, filter_app.
        change (withId id (Day.activities existing)
                ++ withId id [withoutOriginalDate activity]
                ≡ₚ [withoutOriginalDate activity]).
        by rewrite (withId_none _ _ Hfresh), Hself.
      * intros day [_ Hday]%list_elem_of_filter. by eapply subseteq_drop.
      * intros day [_ Hday]%list_elem_of_filter. by eapply subseteq_take.
  - apply list_find_None in Hfind.
    split_and!.
    + unfold allActivities. by rewrite sort_Permutation, bind_app.
    + rewrite daysOn_sort, daysOn_app, daysOn_other, app_nil_r; [done|].
      simpl. congruence.
    + rewrite daysOn_sort, daysOn_app, daysOn_same by done.
      unfold daysOn at 1. rewrite (filter_none _ newState).
      * by rewrite app_nil_l, allActivities_singleton.
      * intros day Hday. by eapply Forall_forall in Hfind.
Qed.

(** C1. In a store whose activity ids are unique, moving an activity from
    its day [originalDate] to another day (a save in edit mode whose original
    date is set and differs from the new date) leaves a store in which no
    day of the original date lists the activity, the days of the original
    date are the former ones without it and without those it left empty, the
    days of the new date list exactly one activity with that id (the saved
    one), the whole store lists it exactly once, and the total number of
    activities is the same. *)
Theorem move_relocates_activity
    (prev : list Day.t) (activity : Submitted.t) (originalDate : string) :
  Submitted.originalDate activity = Some originalDate →
  originalDate ≠ "" →
  originalDate ≠ Submitted.date activity →
  NoDup (Activity.id <$> allActivities prev) →
  (∃ a, a ∈ allActivities (daysOn originalDate prev)
        ∧ Activity.id a = Submitted.id activity) →
  let id := Submitted.id activity in
  let next := handleActivitySave activity true prev in
  withId id (allActivities (daysOn originalDate next)) = []
  ∧ daysOn originalDate next
    = removeEmptyDays (removeFromDay id originalDate <$> daysOn originalDate prev)
  ∧ withId id (allActivities (daysOn (Submitted.date activity) next))
    = [withoutOriginalDate activity]
  ∧ withId id (allActivities next) = [withoutOriginalDate activity]
  ∧ length (allActivities next) = length (allActivities prev).
Proof.
  intros Horiginal Hset Hother Hnodup Hin id next.
  pose proof (dateChanged_moved _ _ Horiginal Hset Hother) as Hmoved.
  destruct (removed_everywhere id originalDate prev Hnodup Hin) as [Hnone Hlen].
  destruct (move_result prev activity originalDate Hother Hmoved Hnone)
    as (Hall & Hfrom & Hto).
  fold id next in Hall, Hfrom, Hto.
  split_and!.
  - rewrite Hfrom. eapply withId_none_sub; [exact Hnone|].
    apply list_subseteq_filter.
  - rewrite Hfrom. apply daysOn_removed.
  - exact Hto.
  - apply Permutation_singleton_r. unfold withId. rewrite Hall, filter_app.
    fold (withId id (allActivities
      (removeEmptyDays (removeFromDay id originalDate <$> prev)))).
    rewrite (withId_none _ _ Hnone). by rewrite filter_cons_True.
  - rewrite Hall, length_app. simpl. lia.
Qed.

Lemma move_relocates_activity_witness :
  let moved :=
    Submitted.mk "a2" "2025-11-06" "12:00" "MapPin" "抵達目的地並辦理入住" "台北車站"
      (Js.Number 25.0478) (Js.Number 121.5170) (Some "2025-11-05") in
  let next := handleActivitySave moved true initialItinerary in
  NoDup (Activity.id <$> allActivities initialItinerary)
  ∧ withId "a2" (allActivities (daysOn "2025-11-05" next)) = []
  ∧ withId "a2" (allActivities (daysOn "2025-11-06" next)) = [withoutOriginalDate moved]
  ∧ withId "a2" (allActivities next) = [withoutOriginalDate moved]
  ∧ length (allActivities next) = length (allActivities initialItinerary)
  ∧ (λ day, (Day.date day, Activity.id <$> Day.activities day)) <$> next
    = [("2025-11-05", ["a1"; "a3"]); ("2025-11-06", ["a4"; "a2"; "a5"; "a6"])].
Proof.
  intros moved next.
  assert (NoDup (Activity.id <$> allActivities initialItinerary)) as Hnodup.
  { apply (bool_decide_unpack _). by vm_compute. }
  assert (∃ a, a ∈ allActivities (daysOn "2025-11-05" initialItinerary)
               ∧ Activity.id a = Submitted.id moved) as Hin.
  { eexists. split; [right; left|done]. }
  destruct (move_relocates_activity initialItinerary moved "2025-11-05"
              eq_refl ltac:(done) ltac:(done) Hnodup Hin)
    as (Hfrom & _ & Hto & Honce & Hcount).
  split_and!; [exact Hnodup|exact Hfrom|exact Hto|exact Honce|exact Hcount|by vm_compute].
Defined.

(** C1, as the specification words it, fails on a store that lists an id
    twice. Such a store arises from the seed itinerary: the form submits a
    seed entry edited to a new date without an original date, and the save
    then adds a copy on the new day. Moving the copy back onto the day of the
    first entry replaces that entry, so the store loses one activity. *)
Lemma move_onto_same_id_loses_one :
  let copied :=
    Submitted.mk "a2" "2025-11-07" "12:00" "MapPin" "抵達目的地並辦理入住" "台北車站"
      (Js.Number 25.0478) (Js.Number 121.5170) None in
  let prev := handleActivitySave copied true initialItinerary in
  let back :=
    Submitted.mk "a2" "2025-11-05" "12:00" "MapPin" "抵達目的地並辦理入住" "台北車站"
      (Js.Number 25.0478) (Js.Number 121.5170) (Some "2025-11-07") in
  let next := handleActivitySave back true prev in
  (λ day, (Day.date day, Activity.id <$> Day.activities day)) <$> prev
  = [("2025-11-05", ["a1"; "a2"; "a3"]); ("2025-11-06", ["a4"; "a5"; "a6"]);
     ("2025-11-07", ["a2"])]
  ∧ (λ day, (Day.date day, Activity.id <$> Day.activities day)) <$> next
    = [("2025-11-05", ["a1"; "a2"; "a3"]); ("2025-11-06", ["a4"; "a5"; "a6"])]
  ∧ length (allActivities prev) = 7
  ∧ length (allActivities next) = 6
  ∧ length (allActivities next) ≠ length (allActivities prev).
Proof. intros copied prev back next. split_and!; by vm_compute. Qed.

(** * Further properties of the handlers *)

(** ** Itinerary store: deleting, adding and editing in place *)

Lemma dateChanged_add activity : dateChanged activity false = None.
Proof. unfold dateChanged. by destruct (Submitted.originalDate activity). Qed.

Lemma removeFromDay_none id date day :
  Forall (λ a, Activity.id a ≠ id) (Day.activities day) →
  removeFromDay id date day = day.
Proof.
  intros Hnone. unfold removeFromDay. case_bool_decide; [|done].
  destruct day as [d acts]. simpl in *. f_equal.
  induction Hnone as [|a acts Ha Hacts IH]; [done|].
  by rewrite filter_cons_True, IH.
Qed.

Lemma removeEmptyDays_id days :
  Forall (λ day, Day.activities day ≠ []) days → removeEmptyDays days = days.
Proof.
  unfold removeEmptyDays. induction 1 as [|day days Hday Hdays IH]; [done|].
  rewrite filter_cons_True, IH; [done|].
  destruct (Day.activities day); [done|simpl; lia].
Qed.

Lemma daysOn_removeEmptyDays date days :
  daysOn date (removeEmptyDays days) = removeEmptyDays (daysOn date days).
Proof.
  unfold daysOn, removeEmptyDays.
  induction days as [|day days IH]; [done|].
  rewrite !filter_cons. case_decide as Hlen; case_decide as Hdate.
  - by rewrite !filter_cons_True, IH by done.
  - by rewrite filter_cons_False by done.
  - by rewrite filter_cons_False by done.
  - done.
Qed.

Lemma daysOn_removed_other id date d (prev : list Day.t) :
  d ≠ date → daysOn d (removeFromDay id date <$> prev) = daysOn d prev.
Proof.
  intros Hd. unfold daysOn. induction prev as [|day prev IH]; [done|].
  rewrite fmap_cons, !filter_cons, removeFromDay_date, IH.
  case_decide; [|done]. by rewrite removeFromDay_other by congruence.
Qed.

Lemma others_removed id date (prev : list Day.t) :
  filter (λ a, Activity.id a ≠ id) (allActivities (removeFromDay id date <$> prev))
  = filter (λ a, Activity.id a ≠ id) (allActivities prev).
Proof.
  unfold allActivities. induction prev as [|day prev IH]; [done|].
  rewrite fmap_cons, !bind_cons, !filter_app, IH. f_equal.
  unfold removeFromDay. case_bool_decide; [|done]. simpl.
  apply list_filter_filter_l. done.
Qed.

Lemma removed_none id date (days : list Day.t) :
  Forall (λ day, Day.date day = date) days →
  Forall (λ a, Activity.id a ≠ id) (allActivities (removeFromDay id date <$> days)).
Proof.
  intros Hdays. apply Forall_forall.
  intros a (day' & Hday' & Ha)%allActivities_elem_of.
  apply list_elem_of_fmap in Hday' as (day & -> & Hday).
  eapply Forall_forall in Hdays; [|done].
  unfold removeFromDay in Ha. rewrite bool_decide_true in Ha by done.
  simpl in Ha. by apply list_elem_of_filter in Ha as [? _].
Qed.

(** X1. A confirmed delete takes the activity out of the days of the given
    date and prunes the days left empty; every activity with another id
    stays, in store order, and the store shrinks by the number of entries
    taken out. A delete that is not confirmed changes nothing. *)
Theorem handleActivityDelete_removes (prev : list Day.t) (id date : string) :
  let next := handleActivityDelete id date true prev in
  withId id (allActivities (daysOn date next)) = []
  ∧ daysOn date next = removeEmptyDays (removeFromDay id date <$> daysOn date prev)
  ∧ (∀ d, d ≠ date → daysOn d next = removeEmptyDays (daysOn d prev))
  ∧ filter (λ a, Activity.id a ≠ id) (allActivities next)
    = filter (λ a, Activity.id a ≠ id) (allActivities prev)
  ∧ length (allActivities next) + length (withId id (allActivities (daysOn date prev)))
    = length (allActivities prev)
  ∧ handleActivityDelete id date false prev = prev.
Proof.
  intros next. subst next. unfold handleActivityDelete. split_and!.
  - rewrite daysOn_removed, allActivities_removeEmptyDays.
    apply withId_none, removed_none. apply Forall_forall.
    by intros day [? _]%list_elem_of_filter.
  - apply daysOn_removed.
  - intros d Hd. by rewrite daysOn_removeEmptyDays, daysOn_removed_other.
  - by rewrite allActivities_removeEmptyDays, others_removed.
  - rewrite allActivities_removeEmptyDays. apply allActivities_length_removed.
  - done.
Qed.

(** X2. Deleting an id that the days of the given date do not list leaves a
    store without empty days exactly as it was. *)
Theorem handleActivityDelete_absent
    (prev : list Day.t) (id date : string) (confirmed : bool) :
  Forall (λ a, Activity.id a ≠ id) (allActivities (daysOn date prev)) →
  Forall (λ day, Day.activities day ≠ []) prev →
  handleActivityDelete id date confirmed prev = prev.
Proof.
  intros Hnone Hnonempty. destruct confirmed; [|done]. unfold handleActivityDelete.
  assert (removeFromDay id date <$> prev = prev) as ->; [|by apply removeEmptyDays_id].
  rewrite <- (list_fmap_id prev) at 2. apply list_fmap_ext.
  intros i day Hday%list_elem_of_lookup_2. simpl.
  destruct (decide (Day.date day = date)) as [Hdate|Hdate].
  - apply removeFromDay_none, Forall_forall. intros a Ha.
    eapply Forall_forall in Hnone; [done|].
    apply allActivities_elem_of. exists day. split; [|done].
    by apply list_elem_of_filter.
  - by apply removeFromDay_other.
Qed.

Lemma handleActivityDelete_absent_witness :
  Forall (λ a, Activity.id a ≠ "a4") (allActivities (daysOn "2025-11-05" initialItinerary))
  ∧ Forall (λ day, Day.activities day ≠ []) initialItinerary
  ∧ handleActivityDelete "a4" "2025-11-05" true initialItinerary = initialItinerary.
Proof.
  assert (Forall (λ a, Activity.id a ≠ "a4")
            (allActivities (daysOn "2025-11-05" initialItinerary))) as Hnone
    by (by repeat constructor).
  assert (Forall (λ day, Day.activities day ≠ []) initialItinerary) as Hnonempty
    by (by repeat constructor).
  split_and!; [done..|]. by apply handleActivityDelete_absent.
Defined.

Lemma allActivities_replace (days : list Day.t) i day day' :
  days !! i = Some day →
  Day.activities day' ≡ₚ Day.activities day →
  allActivities (<[i:=day']> days) ≡ₚ allActivities days.
Proof.
  intros Hi Hacts. rewrite insert_take_drop by (by eapply lookup_lt_Some).
  rewrite <- (take_drop_middle days i day Hi) at 3.
  unfold allActivities. by rewrite !bind_app, !bind_cons, Hacts.
Qed.

Lemma daysOn_insert_other d (days : list Day.t) i day day' :
  days !! i = Some day → Day.date day ≠ d → Day.date day' ≠ d →
  daysOn d (<[i:=day']> days) = daysOn d days.
Proof.
  intros Hi Hday Hday'.
  rewrite (daysOn_insert _ _ _ _ _ Hi), (daysOn_middle d _ _ _ Hi).
  by rewrite !daysOn_other.
Qed.

(** X3. A save in add mode adds exactly the submitted activity, stripped of
    its original date: the store gains one activity, the days of the other
    dates are as before, and the activity is among those of its own date.
    Nothing is checked against the ids already in the store. *)
Theorem handleActivitySave_adds (prev : list Day.t) (activity : Submitted.t) :
  let next := handleActivitySave activity false prev in
  let date := Submitted.date activity in
  allActivities next ≡ₚ allActivities prev ++ [withoutOriginalDate activity]
  ∧ length (allActivities next) = S (length (allActivities prev))
  ∧ (∀ d, d ≠ date → daysOn d next = daysOn d prev)
  ∧ allActivities (daysOn date next)
    ≡ₚ allActivities (daysOn date prev) ++ [withoutOriginalDate activity].
Proof.
  intros next date. subst next.
  rewrite (handleActivitySave_same_date _ _ _ (dateChanged_add activity)). simpl.
  fold date.
  assert (∀ next : list Day.t,
            allActivities next ≡ₚ allActivities prev ++ [withoutOriginalDate activity] →
            length (allActivities next) = S (length (allActivities prev))) as Hcount.
  { intros next ->. rewrite length_app. simpl. lia. }
  destruct (Js.findIndex _ prev) as [[i existing]|] eqn:Hfind.
  - apply findIndex_Some in Hfind as [Hi Hdate].
    set (day' := Day.mk _ _).
    assert (Day.activities day'
            ≡ₚ Day.activities existing ++ [withoutOriginalDate activity]) as Hacts
      by apply sort_Permutation.
    pose proof (allActivities_insert prev i existing day' _ Hi Hacts) as Hall.
    split_and!; [done|by apply Hcount| |].
    + intros d Hd. eapply daysOn_insert_other; [done|congruence|simpl; congruence].
    + rewrite (daysOn_insert _ _ _ _ _ Hi), (daysOn_middle date _ _ _ Hi).
      rewrite !daysOn_same by done.
      rewrite !allActivities_app, !allActivities_singleton, Hacts.
      rewrite <- !app_assoc. f_equiv. f_equiv. apply Permutation_app_comm.
  - assert (allActivities (Js.sort by_date
              (prev ++ [Day.mk date [withoutOriginalDate activity]]))
            ≡ₚ allActivities prev ++ [withoutOriginalDate activity]) as Hall.
    { unfold allActivities. by rewrite sort_Permutation, bind_app. }
    split_and!; [done|by apply Hcount| |].
    + intros d Hd. by rewrite daysOn_sort, daysOn_app, daysOn_other, app_nil_r.
    + by rewrite daysOn_sort, daysOn_app, daysOn_same, allActivities_app,
        allActivities_singleton.
Qed.

Lemma replace_other (activity : Submitted.t) (acts : list Activity.t) :
  Forall (λ a, Activity.id a ≠ Submitted.id activity) acts →
  (λ a, if bool_decide (Activity.id a = Submitted.id activity)
        then withoutOriginalDate activity else a) <$> acts = acts.
Proof.
  intros Hother. rewrite <- (list_fmap_id acts) at 2.
  apply list_fmap_ext. intros i a Ha%list_elem_of_lookup_2.
  eapply Forall_forall in Hother; [|done]. by rewrite bool_decide_false.
Qed.

Lemma allActivities_insert_length (days : list Day.t) i day day' :
  days !! i = Some day →
  length (Day.activities day') = length (Day.activities day) →
  length (allActivities (<[i:=day']> days)) = length (allActivities days).
Proof.
  intros Hi Hlen. rewrite insert_take_drop by (by eapply lookup_lt_Some).
  rewrite <- (take_drop_middle days i day Hi) at 3.
  unfold allActivities. rewrite !bind_app, !bind_cons, !length_app. lia.
Qed.

Lemma replace_withId (activity : Submitted.t) (acts : list Activity.t) :
  let replaced :=
    (λ a, if bool_decide (Activity.id a = Submitted.id activity)
          then withoutOriginalDate activity else a) <$> acts in
  Forall (λ a, Activity.id a = Submitted.id activity → a = withoutOriginalDate activity)
    replaced
  ∧ length (withId (Submitted.id activity) replaced)
    = length (withId (Submitted.id activity) acts)
  ∧ filter (λ a, Activity.id a ≠ Submitted.id activity) replaced
    = filter (λ a, Activity.id a ≠ Submitted.id activity) acts.
Proof.
  simpl. unfold withId. induction acts as [|a acts (IH1 & IH2 & IH3)]; [done|].
  rewrite fmap_cons, !filter_cons. case_bool_decide as Ha.
  - rewrite !decide_True, !decide_False by auto. simpl.
    split_and!; [by constructor|by rewrite IH2|done].
  - rewrite !decide_False, !decide_True by done. simpl.
    split_and!; [by constructor|done|by rewrite IH3].
Qed.

(** X4. A save in edit mode that is not a date move (no original date, an
    empty one, or the date unchanged) works on the first day of the
    submitted date. There it makes every entry with the id the submitted
    activity, keeps the other entries and the number of activities, and
    leaves all activities as they are when the day does not list the id: the
    edit is dropped. When the store has no day of that date, the edit adds
    the activity on a new day. *)
Theorem handleActivitySave_edits_in_place (prev : list Day.t) (activity : Submitted.t) :
  dateChanged activity true = None →
  let next := handleActivitySave activity true prev in
  let id := Submitted.id activity in
  (∀ i existing,
     Js.findIndex (λ day, Day.date day = Submitted.date activity) prev = Some (i, existing) →
     length (allActivities next) = length (allActivities prev)
     ∧ (∃ day', next !! i = Some day'
          ∧ Day.date day' = Submitted.date activity
          ∧ Forall (λ a, Activity.id a = id → a = withoutOriginalDate activity)
              (Day.activities day')
          ∧ length (withId id (Day.activities day'))
            = length (withId id (Day.activities existing))
          ∧ filter (λ a, Activity.id a ≠ id) (Day.activities day')
            ≡ₚ filter (λ a, Activity.id a ≠ id) (Day.activities existing))
     ∧ (Forall (λ a, Activity.id a ≠ id) (Day.activities existing) →
        allActivities next ≡ₚ allActivities prev))
  ∧ (Js.findIndex (λ day, Day.date day = Submitted.date activity) prev = None →
     allActivities next ≡ₚ allActivities prev ++ [withoutOriginalDate activity]).
Proof.
  intros Hsame next id. subst next id.
  rewrite (handleActivitySave_same_date _ _ _ Hsame). simpl. split.
  - intros i existing Hfind. rewrite Hfind.
    apply findIndex_Some in Hfind as [Hi Hdate].
    destruct (replace_withId activity (Day.activities existing))
      as (Hreplaced & Hsame_id & Hothers).
    split_and!.
    + eapply allActivities_insert_length; [done|]. simpl.
      by rewrite sort_length, length_fmap.
    + eexists. split; [by apply list_lookup_insert_eq; eapply lookup_lt_Some|].
      simpl. split_and!; [done| | |].
      * by rewrite sort_Permutation.
      * rewrite <- Hsame_id. unfold withId. by rewrite sort_Permutation.
      * rewrite <- Hothers. by rewrite sort_Permutation.
    + intros Hother. eapply allActivities_replace; [done|]. simpl.
      by rewrite sort_Permutation, replace_other.
  - intros Hfind. rewrite Hfind. unfold allActivities.
    by rewrite sort_Permutation, bind_app.
Qed.

Lemma handleActivitySave_edits_in_place_witness :
  let edited :=
    Submitted.mk "a2" "2025-11-05" "08:00" "MapPin" "Early arrival" "台北車站"
      (Js.Number 25.0478) (Js.Number 121.5170) (Some "2025-11-05") in
  let dropped :=
    Submitted.mk "a2" "2025-11-06" "08:00" "MapPin" "Early arrival" "台北車站"
      (Js.Number 25.0478) (Js.Number 121.5170) None in
  dateChanged edited true = None
  ∧ dateChanged dropped true = None
  ∧ length (allActivities (handleActivitySave edited true initialItinerary)) = 6
  ∧ Activity.id <$> allActivities (handleActivitySave edited true initialItinerary)
    = ["a2"; "a1"; "a3"; "a4"; "a5"; "a6"]
  ∧ allActivities (handleActivitySave dropped true initialItinerary)
    ≡ₚ allActivities initialItinerary.
Proof.
  intros edited dropped.
  destruct (handleActivitySave_edits_in_place initialItinerary edited eq_refl)
    as [Hedited _].
  destruct (handleActivitySave_edits_in_place initialItinerary dropped eq_refl)
    as [Hdropped _].
  destruct (Hedited 0 _ eq_refl) as (Hcount & _ & _).
  destruct (Hdropped 1 _ eq_refl) as (_ & _ & Hsame).
  split_and!; [done|done|exact Hcount|by vm_compute|].
  apply Hsame. by repeat constructor.
Defined.

(** ** Payer registry: add, rename, delete *)

Lemma rename_NoDup (old new : string) (l : list string) :
  NoDup l → new ∉ l →
  NoDup ((λ p, if bool_decide (p = old) then new else p) <$> l).
Proof.
  intros Hl Hnew. induction Hl as [|p l Hp Hl IH]; [constructor|].
  rewrite fmap_cons. apply not_elem_of_cons in Hnew as [Hne Hnew].
  constructor; [|by apply IH].
  intros (q & Hq & Hin)%list_elem_of_fmap.
  case_bool_decide as Hpold; case_bool_decide as Hqold; by subst.
Qed.

(** X5. A registry without duplicates stays without duplicates under every
    registry operation: adding a name, saving a rename, deleting a name. *)
Theorem payers_stay_distinct (st : App) :
  NoDup (payers st) →
  (∀ newPayer, NoDup (payers (addPayer newPayer st)))
  ∧ (∀ editingPayer, NoDup (payers (saveEdit editingPayer st)))
  ∧ (∀ target confirmed payer,
       NoDup (payers (handleDeletePayer target confirmed st payer).1)).
Proof.
  intros Hdistinct. split_and!.
  - intros newPayer. unfold addPayer, handleAddPayer.
    destruct (Js.truthy_str newPayer); simpl; [|done].
    destruct (Js.includes newPayer (payers st)) eqn:Hin; simpl; [done|].
    apply NoDup_app. split_and!; [done| |apply NoDup_singleton].
    intros p Hp ->%list_elem_of_singleton.
    apply includes_true in Hp. congruence.
  - intros [ep|]; [|done]. unfold saveEdit, handleSaveEdit.
    destruct (negb _ || _); simpl; [done|].
    destruct (Js.truthy_str _); simpl; [|done].
    destruct (Js.includes _ _) eqn:Hin; simpl; [done|].
    apply rename_NoDup; [done|]. intros ?%includes_true. congruence.
  - intros target [|] payer; simpl; [|done]. by apply NoDup_filter.
Qed.

Lemma payers_stay_distinct_witness :
  let st := mkApp initialExpenses initialItinerary DEFAULT_PAYERS None "" "" "All" in
  NoDup (payers st)
  ∧ NoDup (payers (addPayer "Zoe" st))
  ∧ payers (addPayer "Zoe" st) = ["我 (Me)"; "John"; "Jane"; "Max"; "Zoe"]
  ∧ NoDup (payers (saveEdit (Some (Editing.mk "John" "Joe")) st))
  ∧ NoDup (payers (handleDeletePayer "Jane" true st "Jane").1).
Proof.
  intros st.
  assert (NoDup (payers st)) as Hdistinct.
  { apply (bool_decide_unpack _). by vm_compute. }
  destruct (payers_stay_distinct st Hdistinct) as (Hadd & Hrename & Hdelete).
  split_and!; [done|apply Hadd|by vm_compute|apply Hrename|apply Hdelete].
Defined.

Lemma savePayers_filter newList st :
  filterPayer (savePayers newList st) = "All"
  ∨ filterPayer (savePayers newList st) ∈ newList.
Proof.
  unfold savePayers. simpl. case_bool_decide as Hall; simpl; [|by left].
  destruct (Js.includes _ _) eqn:Hin; simpl; [|by left].
  right. by apply includes_true.
Qed.

(** X6. Whenever the registry is saved, the payer filter of the ledger comes
    out as the wildcard or a name of the saved registry, and the stored copy
    is the saved registry. So a filter selection that is the wildcard or a
    registered payer stays one under adding, renaming and deleting. *)
Theorem filter_selection_stays_valid (st : App) :
  (∀ newList,
     (filterPayer (savePayers newList st) = "All"
      ∨ filterPayer (savePayers newList st) ∈ payers (savePayers newList st))
     ∧ storedPayers (savePayers newList st) = Some (payers (savePayers newList st)))
  ∧ (filterPayer st = "All" ∨ filterPayer st ∈ payers st →
     (∀ newPayer, let st' := addPayer newPayer st in
        filterPayer st' = "All" ∨ filterPayer st' ∈ payers st')
     ∧ (∀ editingPayer, let st' := saveEdit editingPayer st in
          filterPayer st' = "All" ∨ filterPayer st' ∈ payers st')
     ∧ (∀ target confirmed payer,
          let st' := (handleDeletePayer target confirmed st payer).1 in
          filterPayer st' = "All" ∨ filterPayer st' ∈ payers st')).
Proof.
  split.
  - intros newList. split; [apply savePayers_filter|done].
  - intros Hvalid.
    assert (∀ call, let st' := onSavePayers call st in
              filterPayer st' = "All" ∨ filterPayer st' ∈ payers st') as Hcall.
    { intros [newList|]; simpl; [apply savePayers_filter|done]. }
    split_and!.
    + intros newPayer. apply Hcall.
    + intros editingPayer. apply Hcall.
    + intros target [|] payer; simpl; [|done]. apply savePayers_filter.
Qed.

Lemma filter_selection_stays_valid_witness :
  let st := mkApp initialExpenses initialItinerary DEFAULT_PAYERS None "" "" "John" in
  (filterPayer st = "All" ∨ filterPayer st ∈ payers st)
  ∧ filterPayer (saveEdit (Some (Editing.mk "John" "Joe")) st) = "All"
  ∧ filterPayer (handleDeletePayer "Jane" true st "Jane").1 = "John"
  ∧ (let st' := (handleDeletePayer "John" true st "Jane").1 in
     filterPayer st' = "All" ∨ filterPayer st' ∈ payers st').
Proof.
  intros st.
  assert (filterPayer st = "All" ∨ filterPayer st ∈ payers st) as Hvalid.
  { right. apply (bool_decide_unpack _). by vm_compute. }
  destruct (filter_selection_stays_valid st) as [_ Hkept].
  destruct (Hkept Hvalid) as (_ & _ & Hdelete).
  split_and!; [done|by vm_compute|by vm_compute|apply Hdelete].
Defined.

(** X7. Adding a name is a no-op when the name is empty or already in the
    registry; otherwise the name goes to the end of the registry exactly as
    typed (it is not trimmed) and the input is cleared. *)
Theorem handleAddPayer_appends (st : App) (newPayer : string) :
  let noop := newPayer = "" ∨ newPayer ∈ payers st in
  (noop → addPayer newPayer st = st
          ∧ (handleAddPayer (payers st) newPayer).2 = newPayer)
  ∧ (¬ noop → payers (addPayer newPayer st) = payers st ++ [newPayer]
              ∧ storedPayers (addPayer newPayer st) = Some (payers st ++ [newPayer])
              ∧ (handleAddPayer (payers st) newPayer).2 = "").
Proof.
  intros noop. subst noop. unfold addPayer, handleAddPayer.
  destruct (Js.truthy_str newPayer) eqn:Hset; simpl.
  - apply truthy_str_true in Hset.
    destruct (Js.includes newPayer (payers st)) eqn:Hin; simpl.
    + apply includes_true in Hin. split; [done|]. intros []. by right.
    + split; [|done]. intros [?|?%includes_true]; congruence.
  - assert (newPayer = "") as -> by (by destruct newPayer).
    split; [done|]. intros []. by left.
Qed.

Lemma handleAddPayer_appends_witness :
  let st := mkApp initialExpenses initialItinerary DEFAULT_PAYERS None "" "" "All" in
  addPayer "John" st = st
  ∧ payers (addPayer " John" st) = ["我 (Me)"; "John"; "Jane"; "Max"; " John"].
Proof.
  intros st. destruct (handleAddPayer_appends st "John") as [Hnoop _].
  destruct (handleAddPayer_appends st " John") as [_ Hadded].
  split.
  - apply Hnoop. right. apply (bool_decide_unpack _). by vm_compute.
  - apply Hadded. intros [?|Hin]; [done|].
    by apply (bool_decide_pack _), Is_true_true in Hin.
Defined.



(** X9. Deleting the payer that is selected in the ledger filter resets the
    filter to the wildcard: the ledger then shows every record within the
    date bounds, those paid by the deleted payer included. *)
Theorem deleting_the_filtered_payer_shows_all (st : App) (target payer : string) :
  filterPayer st = target → target ≠ "All" →
  let st' := (handleDeletePayer target true st payer).1 in
  filterPayer st' = "All"
  ∧ filteredExpenses (expenses st') (filterPayer st') (filterStart st') (filterEnd st')
    = filter (λ e, matchDate (filterStart st) (filterEnd st) e) (expenses st)
  ∧ (∀ e, e ∈ filteredExpenses (expenses st) target (filterStart st) (filterEnd st) →
          e ∈ filteredExpenses (expenses st') (filterPayer st') (filterStart st')
                (filterEnd st')).
Proof.
  intros Hsel Hall st'. subst st'. simpl.
  assert ((if bool_decide (filterPayer st ≠ "All")
              && negb (Js.includes (filterPayer st) (filter (λ p, p ≠ target) (payers st)))
           then "All" else filterPayer st) = "All") as ->.
  { rewrite bool_decide_true by congruence. simpl.
    destruct (Js.includes _ _) eqn:Hin; [|done].
    apply includes_true, list_elem_of_filter in Hin as [Hne _]. congruence. }
  assert (∀ l, filteredExpenses l "All" (filterStart st) (filterEnd st)
               = filter (λ e, matchDate (filterStart st) (filterEnd st) e) l) as Hwild.
  { intros l. apply list_filter_iff. intros e. unfold matchPayer.
    by rewrite bool_decide_true. }
  split_and!; [done|apply Hwild|].
  intros e. rewrite Hwild. unfold filteredExpenses.
  rewrite !list_elem_of_filter, andb_True. tauto.
Qed.

Lemma deleting_the_filtered_payer_shows_all_witness :
  let st := mkApp initialExpenses initialItinerary DEFAULT_PAYERS None "" "" "John" in
  let st' := (handleDeletePayer "John" true st "Jane").1 in
  Expense.id <$> filteredExpenses (expenses st) (filterPayer st) (filterStart st) (filterEnd st)
  = [2%Z]
  ∧ filterPayer st' = "All"
  ∧ Expense.id <$> filteredExpenses (expenses st') (filterPayer st') (filterStart st')
                     (filterEnd st')
    = [1; 2; 3; 4]%Z.
Proof.
  intros st st'.
  destruct (deleting_the_filtered_payer_shows_all st "John" "Jane" eq_refl ltac:(done))
    as (Hreset & _ & _).
  split_and!; [by vm_compute|exact Hreset|by vm_compute].
Defined.



(** ** Expense ledger: edit, delete, and the date range *)

(** X11. A save in edit mode replaces, in place, every record that has the
    id of the submitted record: the ids, their order and the length of the
    ledger stay, the ledger is not sorted again, and an id that the ledger
    does not hold changes nothing. With unique ids the submitted record is
    then the only one with its id. *)
Theorem handleExpenseSave_edit (prev : list Expense.t) (expense : Expense.t) :
  let next := handleExpenseSave expense true prev in
  Expense.id <$> next = Expense.id <$> prev
  ∧ (∀ i e, prev !! i = Some e →
       next !! i = Some (if decide (Expense.id e = Expense.id expense) then expense else e))
  ∧ (Expense.id expense ∉ Expense.id <$> prev → next = prev)
  ∧ (NoDup (Expense.id <$> prev) → Expense.id expense ∈ Expense.id <$> prev →
     filter (λ e, Expense.id e = Expense.id expense) next = [expense]).
Proof.
  intros next. subst next. unfold handleExpenseSave.
  assert (Expense.id <$> ((λ e, if bool_decide (Expense.id e = Expense.id expense)
                                 then expense else e) <$> prev)
          = Expense.id <$> prev) as Hids.
  { rewrite <- list_fmap_compose. apply list_fmap_ext. intros _ e _. simpl.
    by case_bool_decide. }
  split_and!.
  - done.
  - intros i e Hi. rewrite list_lookup_fmap, Hi. simpl.
    by case_bool_decide; case_decide.
  - intros Habsent. rewrite <- (list_fmap_id prev) at 2.
    apply list_fmap_ext. intros i e He%list_elem_of_lookup_2. simpl.
    rewrite bool_decide_false; [done|]. intros Hid. apply Habsent.
    rewrite <- Hid. by apply list_elem_of_fmap_2.
  - intros Hdistinct (e0 & Hid0 & He0)%list_elem_of_fmap.
    rewrite <- Hids in Hdistinct.
    assert (expense ∈ (λ e, if bool_decide (Expense.id e = Expense.id expense)
                            then expense else e) <$> prev) as Hin.
    { apply list_elem_of_fmap. exists e0. by rewrite bool_decide_true. }
    apply (filter_unique Expense.id _ expense Hdistinct Hin).
Qed.

Lemma handleExpenseSave_edit_witness :
  let edited :=
    Expense.mk 1 "2025-11-08" "交通" "高鐵票 (改期)"
      (twdAmount "900" TWD) TWD (Js.parseFloat "900") TWD "John" in
  NoDup (Expense.id <$> initialExpenses)
  ∧ (Expense.id edited ∈ Expense.id <$> initialExpenses)
  ∧ filter (λ e, Expense.id e = 1%Z) (handleExpenseSave edited true initialExpenses)
    = [edited]
  ∧ Expense.date <$> handleExpenseSave edited true initialExpenses
    = ["2025-11-08"; "2025-11-05"; "2025-11-06"; "2025-11-06"].
Proof.
  intros edited.
  assert (NoDup (Expense.id <$> initialExpenses)) as Hdistinct.
  { apply (bool_decide_unpack _). by vm_compute. }
  assert (Expense.id edited ∈ Expense.id <$> initialExpenses) as Hin by (by left).
  destruct (handleExpenseSave_edit initialExpenses edited) as (_ & _ & _ & Honly).
  split_and!; [done|done|by apply Honly|by vm_compute].
Defined.

Global Instance dateDescending_trans :
  Transitive (λ a b : Expense.t,
    ∃ ta tb, Js.Date_value (Expense.date a) = Some ta
             ∧ Js.Date_value (Expense.date b) = Some tb ∧ (tb ≤ ta)%Z).
Proof.
  intros a b c (ta & tb & Ha & Hb & Hab) (tb' & tc & Hb' & Hc & Hbc).
  exists ta, tc. split_and!; [done..|]. rewrite Hb in Hb'.
  injection Hb' as <-. lia.
Qed.

(** X12. A confirmed delete takes every record with the id out of the ledger
    and keeps the others in order, so a ledger in descending date order
    stays so; an id that the ledger does not hold, or a delete that is not
    confirmed, changes nothing. *)
Theorem handleExpenseDelete_removes (prev : list Expense.t) (id : Z) :
  let next := handleExpenseDelete id true prev in
  (id ∉ Expense.id <$> next)
  ∧ next = filter (λ e, Expense.id e ≠ id) prev
  ∧ (∀ e, Expense.id e ≠ id → (e ∈ next ↔ e ∈ prev))
  ∧ (id ∉ Expense.id <$> prev → next = prev)
  ∧ (dateDescending prev → dateDescending next)
  ∧ handleExpenseDelete id false prev = prev.
Proof.
  intros next. subst next. unfold handleExpenseDelete. split_and!.
  - intros (e & -> & [He _]%list_elem_of_filter)%list_elem_of_fmap. done.
  - done.
  - intros e He. rewrite list_elem_of_filter. tauto.
  - intros Habsent. induction prev as [|e prev IH]; [done|].
    rewrite fmap_cons in Habsent. apply not_elem_of_cons in Habsent as [Hne Habsent].
    rewrite filter_cons_True by done. by rewrite IH.
  - apply (Sorted_filter _ _).
  - done.
Qed.

(** The sort leaves a sorted array as it is, and commutes with filters. *)
Section sort_filter_facts.
Context {A : Type} (compareFn : A → A → comparison).

Lemma sort_insert_front x l :
  Forall (Js.in_order compareFn x) l → Js.sort_insert compareFn x l = x :: l.
Proof.
  destruct 1 as [|y l Hy _]; simpl; [done|].
  unfold Js.in_order in Hy. by destruct (compareFn x y).
Qed.

Lemma sort_sorted l :
  StronglySorted (Js.in_order compareFn) l → Js.sort compareFn l = l.
Proof.
  induction 1 as [|x l Hl IH Hx]; simpl; [done|].
  rewrite IH. by apply sort_insert_front.
Qed.

Hypothesis total : ∀ x y, compareFn x y = Gt → compareFn y x ≠ Gt.
Hypothesis trans : Transitive (Js.in_order compareFn).

Lemma sort_insert_filter_sorted (P : A → Prop) `{∀ x, Decision (P x)} x l :
  StronglySorted (Js.in_order compareFn) l →
  filter P (Js.sort_insert compareFn x l)
  = if decide (P x) then Js.sort_insert compareFn x (filter P l) else filter P l.
Proof.
  induction 1 as [|y l Hl IH Hy]; simpl.
  { rewrite filter_cons, filter_nil. by case_decide. }
  destruct (compareFn x y) eqn:Hxy.
  1,2: rewrite (filter_cons _ x); case_decide; [|done];
       symmetry; apply sort_insert_front, Forall_forall;
       intros z [_ Hz]%list_elem_of_filter;
       assert (Js.in_order compareFn x y) by (unfold Js.in_order; congruence);
       apply elem_of_cons in Hz as [->|Hz]; [done|];
       eapply Forall_forall in Hy; [|done]; by etrans.
  rewrite !(filter_cons _ y), IH.
  destruct (decide (P y)); [|done].
  case_decide; [|done]. simpl. by rewrite Hxy.
Qed.

Lemma sort_filter_commute (P : A → Prop) `{∀ x, Decision (P x)} l :
  filter P (Js.sort compareFn l) = Js.sort compareFn (filter P l).
Proof.
  induction l as [|x l IH]; simpl; [done|].
  rewrite sort_insert_filter_sorted by (by apply sort_StronglySorted).
  rewrite filter_cons, IH. by case_decide.
Qed.

End sort_filter_facts.

(** X13. Adding a record with a fresh id to a ledger of calendar days in
    descending date order and deleting it again gives the ledger back. *)
Theorem add_then_delete_restores (prev : list Expense.t) (expense : Expense.t) :
  Forall (λ e, is_Some (Js.Date_value (Expense.date e))) (prev ++ [expense]) →
  dateDescending prev →
  Expense.id expense ∉ Expense.id <$> prev →
  handleExpenseDelete (Expense.id expense) true (handleExpenseSave expense false prev)
  = prev.
Proof.
  intros Hvalid Hsorted Hfresh. unfold handleExpenseDelete, handleExpenseSave.
  pose proof Hvalid as Hvalid'. rewrite Forall_forall in Hvalid'.
  rewrite (sort_ext _ (λ a b, (timeValue b ?= timeValue a)%Z))
    by (intros; apply by_date_descending_valid; auto).
  assert (∀ x y : Expense.t, (timeValue y ?= timeValue x)%Z = Gt →
                            (timeValue x ?= timeValue y)%Z ≠ Gt) as Htotal.
  { intros a b. rewrite (Z.compare_antisym (timeValue b) (timeValue a)).
    by destruct (timeValue b ?= timeValue a)%Z. }
  assert (Transitive (Js.in_order (λ a b : Expense.t, (timeValue b ?= timeValue a)%Z)))
    as Htrans.
  { intros a b c. unfold Js.in_order. rewrite !Z.compare_le_iff. lia. }
  rewrite (sort_filter_commute _ Htotal Htrans), filter_app.
  rewrite filter_cons_False, filter_nil, app_nil_r by auto.
  assert (filter (λ e, Expense.id e ≠ Expense.id expense) prev = prev) as ->.
  { clear -Hfresh. induction prev as [|e prev IH]; [done|].
    rewrite fmap_cons in Hfresh. apply not_elem_of_cons in Hfresh as [Hne Hfresh].
    rewrite filter_cons_True by done. by rewrite IH. }
  apply sort_sorted.
  pose proof (Sorted_StronglySorted _ prev Hsorted) as Hstrong.
  eapply StronglySorted_impl; [|exact Hstrong].
  intros a b (ta & tb & Ha & Hb & Hle). unfold Js.in_order, timeValue.
  rewrite Ha, Hb. simpl. by apply Z.compare_le_iff.
Qed.

Lemma add_then_delete_restores_witness :
  let expense :=
    Expense.mk 5 "2025-11-06" "餐飲" "拉麵"
      (twdAmount "1000" JPY) TWD (Js.parseFloat "1000") JPY "John" in
  let sorted := Js.sort by_date_descending initialExpenses in
  Forall (λ e, is_Some (Js.Date_value (Expense.date e))) (sorted ++ [expense])
  ∧ dateDescending sorted
  ∧ (Expense.id expense ∉ Expense.id <$> sorted)
  ∧ Expense.id <$> handleExpenseSave expense false sorted = [3; 4; 5; 1; 2]%Z
  ∧ handleExpenseDelete 5 true (handleExpenseSave expense false sorted) = sorted.
Proof.
  intros expense sorted.
  assert (Forall (λ e, is_Some (Js.Date_value (Expense.date e))) (sorted ++ [expense]))
    as Hvalid by (repeat constructor; by eexists).
  assert (dateDescending sorted) as Hsorted.
  { apply sort_by_date_descending. repeat constructor; by eexists. }
  assert (Expense.id expense ∉ Expense.id <$> sorted) as Hfresh.
  { intros Hin. by apply (bool_decide_pack _), Is_true_true in Hin. }
  split_and!; [done|done|done|by vm_compute|].
  by apply (add_then_delete_restores sorted expense).
Defined.




(** ** The activity form and the store *)

Lemma or_else_truthy s fallback : fallback ≠ "" → Js.truthy_str (or_else s fallback) = true.
Proof.
  intros Hfallback. unfold or_else. destruct (Js.truthy_str s) eqn:Hs; [done|].
  by apply truthy_str_true.
Qed.

Lemma or_else_set s fallback : s ≠ "" → or_else s fallback = s.
Proof. intros Hs. unfold or_else. by rewrite (proj2 (truthy_str_true s) Hs). Qed.

(** X15. An entry that carries no date field (the seed entries) is submitted
    by the form without an original date, whatever day it was opened from.
    When its date is changed in the form to a day the store does not have,
    the save therefore takes the in-place branch and adds a copy on a new
    day: the entry stays on the day it was opened from, the copy is listed
    on the new day under the same id, and the store holds one activity
    more. *)
Theorem editing_the_date_of_a_dateless_entry_copies_it
    (prev : list Day.t) (act : Activity.t) (selected newDate freshId : string) :
  Activity.date act = None →
  Activity.id act ≠ "" →
  Activity.description act ≠ "" →
  newDate ≠ "" →
  act ∈ allActivities (daysOn selected prev) →
  Forall (λ day, Day.date day ≠ newDate) prev →
  let item := handleEditActivity act selected in
  let form := ActivityForm.setDate newDate (ActivityForm.init (Some item) selected) in
  ∃ activity,
    ActivityForm.handleSubmit (Some item) freshId form = Some (activity, true)
    ∧ Submitted.id activity = Activity.id act
    ∧ Submitted.date activity = newDate
    ∧ Submitted.originalDate activity = None
    ∧ let next := handleActivitySave activity true prev in
      act ∈ allActivities (daysOn selected next)
      ∧ withoutOriginalDate activity ∈ allActivities (daysOn newDate next)
      ∧ length (allActivities next) = S (length (allActivities prev)).
Proof.
  intros Hdateless Hid Hdesc HnewDate Hlisted Habsent item form.
  subst item form. unfold ActivityForm.handleSubmit, handleEditActivity. simpl.
  rewrite (proj2 (truthy_str_true _) Hdesc), (proj2 (truthy_str_true _) HnewDate).
  rewrite or_else_truthy by done. simpl.
  eexists. split; [reflexivity|]. simpl.
  split; [by apply or_else_set|]. split; [done|]. split; [done|].
  set (activity := Submitted.mk _ _ _ _ _ _ _ _ _).
  assert (dateChanged activity true = None) as Hsame.
  { unfold dateChanged. simpl. by rewrite Hdateless. }
  rewrite (handleActivitySave_same_date _ _ _ Hsame). simpl.
  assert (Js.findIndex (λ day, Day.date day = newDate) prev = None) as ->.
  { by apply list_find_None. }
  rewrite !daysOn_sort, !daysOn_app, !allActivities_app.
  rewrite (daysOn_same newDate) by done. rewrite allActivities_singleton. simpl.
  split_and!.
  - apply elem_of_app. by left.
  - apply elem_of_app. right. by left.
  - unfold allActivities. rewrite sort_Permutation, bind_app, length_app. simpl. lia.
Qed.

Lemma editing_the_date_of_a_dateless_entry_copies_it_witness :
  let a2 :=
    Activity.mk "a2" None "12:00" "MapPin" "抵達目的地並辦理入住" "台北車站"
      (Js.Number 25.0478) (Js.Number 121.5170) in
  let item := handleEditActivity a2 "2025-11-05" in
  let form := ActivityForm.setDate "2025-11-07" (ActivityForm.init (Some item) "2025-11-05") in
  (a2 ∈ allActivities (daysOn "2025-11-05" initialItinerary))
  ∧ Forall (λ day, Day.date day ≠ "2025-11-07") initialItinerary
  ∧ ∃ activity,
      ActivityForm.handleSubmit (Some item) "a1762300800000" form = Some (activity, true)
      ∧ (λ day, (Day.date day, Activity.id <$> Day.activities day))
          <$> handleActivitySave activity true initialItinerary
        = [("2025-11-05", ["a1"; "a2"; "a3"]); ("2025-11-06", ["a4"; "a5"; "a6"]);
           ("2025-11-07", ["a2"])].
Proof.
  intros a2 item form.
  assert (a2 ∈ allActivities (daysOn "2025-11-05" initialItinerary)) as Hlisted.
  { vm_compute. right. left. }
  assert (Forall (λ day, Day.date day ≠ "2025-11-07") initialItinerary) as Habsent
    by (by repeat constructor).
  destruct (editing_the_date_of_a_dateless_entry_copies_it initialItinerary a2
              "2025-11-05" "2025-11-07" "a1762300800000"
              eq_refl ltac:(done) ltac:(done) ltac:(done) Hlisted Habsent)
    as (activity & Hsubmit & _).
  split_and!; [done|done|]. exists activity. split; [exact Hsubmit|].
  vm_compute in Hsubmit. injection Hsubmit as <-. by vm_compute.
Defined.

Lemma NoDup_fmap_same {A B} `{EqDecision B} (f : A → B) l x y :
  NoDup (f <$> l) → x ∈ l → y ∈ l → f y = f x → y = x.
Proof.
  intros Hnodup Hx Hy Hf.
  assert (y ∈ filter (λ z, f z = f x) l) as Hin by (by apply list_elem_of_filter).
  rewrite (filter_unique f l x Hnodup Hx) in Hin.
  by apply list_elem_of_singleton in Hin.
Qed.

(** X16. Opening an entry and submitting the form unchanged leaves the store
    exactly as it was, provided the entry carries the date of its day, its
    text fields are set, its coordinates are numbers other than zero or
    [null], and its day is the first of that date, lists each id once and is
    in ascending time order. *)
Theorem saving_without_changes_is_identity
    (prev : list Day.t) (act : Activity.t) (i : nat) (existing : Day.t)
    (freshId : string) :
  let selected := Day.date existing in
  Js.findIndex (λ day, Day.date day = selected) prev = Some (i, existing) →
  act ∈ Day.activities existing →
  NoDup (Activity.id <$> Day.activities existing) →
  timeAscending (Day.activities existing) →
  Activity.date act = Some selected → selected ≠ "" →
  Activity.id act ≠ "" → Activity.time act ≠ "" → Activity.icon act ≠ "" →
  Activity.description act ≠ "" →
  or_null (Activity.lat act) = Activity.lat act →
  or_null (Activity.lng act) = Activity.lng act →
  let item := handleEditActivity act selected in
  ∃ activity,
    ActivityForm.handleSubmit (Some item) freshId (ActivityForm.init (Some item) selected)
    = Some (activity, true)
    ∧ withoutOriginalDate activity = act
    ∧ handleActivitySave activity true prev = prev.
Proof.
  intros selected Hfind Hact Hdistinct Hsorted Hdate Hselected Hid Htime Hicon Hdesc
    Hlat Hlng item.
  subst item. unfold ActivityForm.handleSubmit, handleEditActivity. simpl.
  rewrite Hdate, Hlat, Hlng, !or_else_set by done.
  rewrite (proj2 (truthy_str_true _) Hdesc), (proj2 (truthy_str_true _) Hselected),
    (proj2 (truthy_str_true _) Htime). simpl.
  eexists. split; [reflexivity|].
  set (activity := Submitted.mk _ _ _ _ _ _ _ _ _).
  assert (withoutOriginalDate activity = act) as Hsame_act.
  { subst activity. unfold withoutOriginalDate. simpl.
    destruct act. simpl in *. by subst. }
  split; [done|].
  assert (dateChanged activity true = None) as Hsame.
  { unfold dateChanged. simpl. by rewrite bool_decide_false, andb_false_r by auto. }
  rewrite (handleActivitySave_same_date _ _ _ Hsame). simpl.
  fold selected. rewrite Hfind, Hsame_act.
  apply findIndex_Some in Hfind as [Hi _].
  assert ((λ a, if bool_decide (Activity.id a = Activity.id act) then act else a)
            <$> Day.activities existing = Day.activities existing) as ->.
  { rewrite <- (list_fmap_id (Day.activities existing)) at 2.
    apply list_fmap_ext. intros j a Ha%list_elem_of_lookup_2. simpl.
    case_bool_decide as Hida; [|done]. symmetry.
    by apply (NoDup_fmap_same Activity.id (Day.activities existing)). }
  rewrite sort_sorted.
  - apply list_insert_id. rewrite Hi. by destruct existing.
  - pose proof (Sorted_StronglySorted _ _ Hsorted) as Hstrong.
    eapply StronglySorted_impl; [|exact Hstrong].
    intros a b. apply localeCompare_in_order.
Qed.

Lemma saving_without_changes_is_identity_witness :
  let lunch :=
    Submitted.mk "a7" "2025-11-05" "12:00" "Utensils" "Lunch" "" Js.Null Js.Null None in
  let prev := handleActivitySave lunch false initialItinerary in
  let item := handleEditActivity (withoutOriginalDate lunch) "2025-11-05" in
  ∃ existing,
    Js.findIndex (λ day, Day.date day = "2025-11-05") prev = Some (0, existing)
    ∧ Day.date existing = "2025-11-05"
    ∧ (withoutOriginalDate lunch ∈ Day.activities existing)
    ∧ NoDup (Activity.id <$> Day.activities existing)
    ∧ timeAscending (Day.activities existing)
    ∧ ∃ activity,
        ActivityForm.handleSubmit (Some item) "a0"
          (ActivityForm.init (Some item) "2025-11-05") = Some (activity, true)
        ∧ handleActivitySave activity true prev = prev.
Proof.
  intros lunch prev item.
  destruct (Js.findIndex (λ day, Day.date day = "2025-11-05") prev)
    as [[i existing]|] eqn:Hfind; [|by vm_compute in Hfind].
  assert (i = 0 ∧ existing = Day.mk "2025-11-05"
            (Js.sort by_time (Day.activities (Day.mk "2025-11-05"
               [Activity.mk "a1" None "09:00" "Plane" "桃園機場出發 (TPE)" "桃園機場"
                  (Js.Number 25.0797) (Js.Number 121.2342);
                Activity.mk "a2" None "12:00" "MapPin" "抵達目的地並辦理入住" "台北車站"
                  (Js.Number 25.0478) (Js.Number 121.5170);
                Activity.mk "a3" None "19:00" "Utensils" "夜市觀光與晚餐" "士林夜市"
                  (Js.Number 25.0878) (Js.Number 121.5241)])
             ++ [withoutOriginalDate lunch]))) as [-> Hexisting].
  { vm_compute in Hfind. by injection Hfind as <- <-. }
  exists existing.
  assert (Day.date existing = "2025-11-05") as Hdate by (by rewrite Hexisting).
  assert (withoutOriginalDate lunch ∈ Day.activities existing) as Hact.
  { rewrite Hexisting. vm_compute. do 2 right. left. }
  assert (NoDup (Activity.id <$> Day.activities existing)) as Hdistinct.
  { rewrite Hexisting. apply (bool_decide_unpack _). by vm_compute. }
  assert (timeAscending (Day.activities existing)) as Hsorted.
  { rewrite Hexisting. apply sort_by_time_ascending. }
  split_and!; [done..|].
  rewrite <- Hdate in Hfind.
  destruct (saving_without_changes_is_identity prev (withoutOriginalDate lunch) 0
              existing "a0" Hfind Hact Hdistinct Hsorted)
    as (activity & Hsubmit & _ & Hsame);
    [by rewrite Hdate|by rewrite Hdate|done..|].
  rewrite Hdate in Hsubmit. by exists activity.
Defined.

(** ** Geocoding: what one lookup decides *)

(** X17. A blank location makes [handleGeocode] do nothing. Otherwise the
    first lookup decides: either it succeeds and is the only attempt, or all
    three attempts fail and the form is left without coordinates. A name
    that the table object only inherits (such as [toString]) counts as
    found, after one attempt, with undefined coordinates. *)
Theorem handleGeocode_outcomes (st : Geo.t) :
  let key := Js.trim (Geo.location st) in
  (key = "" → handleGeocode st = ([], st))
  ∧ (key ≠ "" →
     ((handleGeocode st).1 = [Attempt key]
      ∧ Geo.geocodeStatus (handleGeocode st).2 = Some found
      ∧ is_Some (geocodeLocation key))
     ∨ ((handleGeocode st).1
        = [Attempt key; Backoff 200; Attempt key; Backoff 400; Attempt key]
        ∧ (handleGeocode st).2
          = Geo.mk (Geo.location st) Js.Null Js.Null false (Some not_found)
        ∧ geocodeLocation key = None))
  ∧ (key ≠ "" → SIMULATED_GEO_DATA !! key = None → key ∈ Object_prototype_keys →
     handleGeocode st
     = ([Attempt key], Geo.mk (Geo.location st) Js.Undefined Js.Undefined false (Some found)))
  ∧ attempts (handleGeocode st).1 ≤ maxRetries
  ∧ Geo.location (handleGeocode st).2 = Geo.location st.
Proof.
  intros key. subst key. unfold handleGeocode.
  destruct (Js.truthy_str (Js.trim (Geo.location st))) eqn:Hset; simpl.
  - apply truthy_str_true in Hset.
    destruct (geocodeLocation (Js.trim (Geo.location st))) as [[lat lng|key']|] eqn:Hlookup;
      simpl.
    + split_and!; [done|intros _; left; by eauto| |unfold attempts, maxRetries; simpl; lia|done].
      intros _ Htable _. unfold geocodeLocation in Hlookup.
      rewrite trim_idemp, Htable in Hlookup. by destruct (Js.includes _ _).
    + split_and!; [done|intros _; left; by eauto| |unfold attempts, maxRetries; simpl; lia|done].
      intros _ Htable Hkey. unfold geocodeLocation in Hlookup.
      rewrite trim_idemp, Htable in Hlookup. by destruct (Js.includes _ _).
    + split_and!; [done|intros _; by right| |unfold attempts, maxRetries; simpl; lia|done].
      intros _ Htable Hkey%includes_true. unfold geocodeLocation in Hlookup.
      rewrite trim_idemp, Htable, Hkey in Hlookup. done.
  - assert (Js.trim (Geo.location st) = "") as Hblank
      by (by destruct (Js.trim (Geo.location st))).
    split_and!; [done|done|done|unfold attempts, maxRetries; simpl; lia|done].
Qed.

Lemma handleGeocode_outcomes_witness :
  let st := Geo.mk " toString " Js.Null Js.Null false None in
  (Js.trim (Geo.location st) ≠ "")
  ∧ SIMULATED_GEO_DATA !! Js.trim (Geo.location st) = None
  ∧ handleGeocode st
    = ([Attempt "toString"],
       Geo.mk " toString " Js.Undefined Js.Undefined false (Some found))
  ∧ handleGeocode (Geo.mk "   " (Js.Number 1) (Js.Number 2) false (Some found))
    = ([], Geo.mk "   " (Js.Number 1) (Js.Number 2) false (Some found)).
Proof.
  intros st.
  destruct (handleGeocode_outcomes st) as (_ & _ & Hinherited & _).
  destruct (handleGeocode_outcomes (Geo.mk "   " (Js.Number 1) (Js.Number 2) false (Some found)))
    as (Hblank & _).
  split_and!; [done|by vm_compute| |by apply Hblank].
  apply Hinherited; [done|by vm_compute|].
  apply (bool_decide_unpack _). by vm_compute.
Defined.

(** ** Calendar utilities *)

Section civil_dates.
Local Open Scope Z_scope.

Ltac months_as_cases :=
  repeat match goal with
         | H : _ ∈ _ :: _ |- _ => rewrite !elem_of_cons, elem_of_nil in H
         | H : _ ∉ _ :: _ |- _ => rewrite !elem_of_cons, elem_of_nil in H
         end.

Lemma civil_from_days_spec n :
  ∃ y m d, JsDate.civil_from_days n = (y, m, d)
           ∧ Js.days_from_civil y m d = n
           ∧ 1 ≤ m ≤ 12 ∧ 1 ≤ d ≤ Js.days_in_month y m.
Proof.
  unfold JsDate.civil_from_days, Js.days_from_civil, Js.days_in_month, Js.is_leap.
  set (z' := n + 719468). set (era := z' / 146097). set (doe := z' - era * 146097).
  set (yoe := (doe - doe / 1460 + doe / 36524 - doe / 146096) / 365).
  set (doy := doe - (365 * yoe + yoe / 4 - yoe / 100)).
  set (mp := (5 * doy + 2) / 153).
  assert (0 ≤ doe < 146097) by (subst doe era; Z.div_mod_to_equations; lia).
  assert (0 ≤ yoe ≤ 399) by (subst yoe; Z.div_mod_to_equations; lia).
  assert (0 ≤ doy ≤ 365) by (subst doy yoe; Z.div_mod_to_equations; lia).
  assert (0 ≤ mp ≤ 11) by (subst mp; Z.div_mod_to_equations; lia).
  eexists _, _, _. split; [reflexivity|].
  destruct (mp <? 10) eqn:Hmp; [apply Z.ltb_lt in Hmp|apply Z.ltb_ge in Hmp].
  - rewrite (proj2 (Z.leb_gt (mp + 3) 2)) by lia.
    replace (yoe + era * 400 + 0) with (yoe + era * 400) by lia.
    replace ((yoe + era * 400) / 400) with era by (Z.div_mod_to_equations; lia).
    replace (yoe + era * 400 - era * 400) with yoe by lia.
    replace (mp + 3 - 3) with mp by lia.
    split; [subst doy z'; lia|]. split; [lia|].
    repeat case_bool_decide; months_as_cases; subst doy mp yoe;
      Z.div_mod_to_equations; lia.
  - rewrite (proj2 (Z.leb_le (mp - 9) 2)) by lia.
    replace (yoe + era * 400 + 1 - 1) with (yoe + era * 400) by lia.
    replace ((yoe + era * 400) / 400) with era by (Z.div_mod_to_equations; lia).
    replace (yoe + era * 400 - era * 400) with yoe by lia.
    replace (mp - 9 + 9) with mp by lia.
    split; [subst doy z'; lia|]. split; [lia|].
    repeat case_bool_decide; months_as_cases; subst doy mp yoe;
      Z.div_mod_to_equations; lia.
Qed.


Lemma days_in_month_le y m : Js.days_in_month y m ≤ 31.
Proof.
  unfold Js.days_in_month. repeat case_match; lia.
Qed.

Lemma days_from_civil_day y m d :
  Js.days_from_civil y m d = Js.days_from_civil y m 1 + d - 1.
Proof.
  unfold Js.days_from_civil. cbv zeta. lia.
Qed.

Lemma days_from_civil_year_lt y m d bound :
  1 ≤ m ≤ 12 → 1 ≤ d ≤ 31 → y < bound →
  Js.days_from_civil y m d < Js.days_from_civil bound 1 1.
Proof.
  intros Hm Hd Hy. unfold Js.days_from_civil. cbv zeta.
  rewrite (proj2 (Z.leb_le 1 2)) by lia.
  destruct (m <=? 2) eqn:Hle; [apply Z.leb_le in Hle|apply Z.leb_gt in Hle];
    Z.div_mod_to_equations; lia.
Qed.

Lemma days_from_civil_year_gt y m d bound :
  1 ≤ m ≤ 12 → 1 ≤ d ≤ 31 → bound < y →
  Js.days_from_civil bound 12 31 < Js.days_from_civil y m d.
Proof.
  intros Hm Hd Hy. unfold Js.days_from_civil. cbv zeta.
  rewrite (proj2 (Z.leb_gt 12 2)) by lia.
  destruct (m <=? 2) eqn:Hle; [apply Z.leb_le in Hle|apply Z.leb_gt in Hle];
    Z.div_mod_to_equations; lia.
Qed.

Lemma setDate_shift n dayValue :
  JsDate.setDate n dayValue = n + (dayValue - JsDate.getDate n).
Proof.
  unfold JsDate.setDate, JsDate.MakeDay, JsDate.getFullYear, JsDate.getMonth,
    JsDate.getDate.
  destruct (civil_from_days_spec n) as (y & m & d & -> & Hn & Hm & _).
  cbn [fst snd].
  rewrite (Z.div_small (m - 1) 12), (Z.mod_small (m - 1) 12) by lia.
  replace (y + 0) with y by lia. replace (m - 1 + 1) with m by lia.
  rewrite (days_from_civil_day y m d) in Hn. lia.
Qed.

Lemma fourDigitYear_year n :
  fourDigitYear n → 1000 ≤ JsDate.getFullYear n ≤ 9999.
Proof.
  unfold fourDigitYear, JsDate.getFullYear. intros [Hlo Hhi].
  destruct (civil_from_days_spec n) as (y & m & d & -> & Hn & Hm & Hd). simpl.
  pose proof (days_in_month_le y m).
  destruct (decide (y < 1000)) as [Hy|?].
  { pose proof (days_from_civil_year_lt y m d 1000 Hm ltac:(lia) Hy). lia. }
  destruct (decide (9999 < y)) as [Hy|?]; [|lia].
  pose proof (days_from_civil_year_gt y m d 9999 Hm ltac:(lia) Hy). lia.
Qed.

End civil_dates.

(** The decimal text of a year of four digits, and of a month or day padded
    to two, read back by [Js.number_of]. *)
Lemma year_digits y :
  (1000 ≤ y ≤ 9999)%Z →
  ∃ c1 c2 c3 c4, JsDate.toString y = String c1 (String c2 (String c3 (String c4 "")))
                 ∧ Js.number_of [c1; c2; c3; c4] = Some y.
Proof.
  intros Hy.
  assert (forallb
            (λ y, match JsDate.toString y with
                  | String c1 (String c2 (String c3 (String c4 ""))) =>
                      bool_decide (Js.number_of [c1; c2; c3; c4] = Some y)
                  | _ => false
                  end) (seqZ 1000 9000) = true) as Hall by (vm_compute; reflexivity).
  rewrite forallb_forall in Hall. specialize (Hall y).
  rewrite <- list_elem_of_In, elem_of_seqZ in Hall. specialize (Hall ltac:(lia)).
  destruct (JsDate.toString y) as [|c1 [|c2 [|c3 [|c4 [|]]]]]; try done.
  apply bool_decide_eq_true in Hall. by exists c1, c2, c3, c4.
Qed.

Lemma two_digits k :
  (1 ≤ k ≤ 31)%Z →
  ∃ c1 c2, JsDate.padStart2 (JsDate.toString k) = String c1 (String c2 "")
           ∧ Js.number_of [c1; c2] = Some k.
Proof.
  intros Hk.
  assert (forallb
            (λ k, match JsDate.padStart2 (JsDate.toString k) with
                  | String c1 (String c2 "") =>
                      bool_decide (Js.number_of [c1; c2] = Some k)
                  | _ => false
                  end) (seqZ 1 31) = true) as Hall by (vm_compute; reflexivity).
  rewrite forallb_forall in Hall. specialize (Hall k).
  rewrite <- list_elem_of_In, elem_of_seqZ in Hall. specialize (Hall ltac:(lia)).
  destruct (JsDate.padStart2 (JsDate.toString k)) as [|c1 [|c2 [|]]]; try done.
  apply bool_decide_eq_true in Hall. by exists c1, c2.
Qed.

(** The text [formatDate] writes for a day of a four-digit year. *)
Lemma formatDate_text n :
  fourDigitYear n →
  ∃ y m d y1 y2 y3 y4 m1 m2 d1 d2,
    JsDate.civil_from_days n = (y, m, d)
    ∧ formatDate (Some n)
      = String y1 (String y2 (String y3 (String y4 (String "-"
          (String m1 (String m2 (String "-" (String d1 (String d2 "")))))))))
    ∧ Js.number_of [y1; y2; y3; y4] = Some y
    ∧ Js.number_of [m1; m2] = Some m
    ∧ Js.number_of [d1; d2] = Some d
    ∧ (1 ≤ m ≤ 12 ∧ 1 ≤ d ≤ Js.days_in_month y m)%Z
    ∧ Js.days_from_civil y m d = n.
Proof.
  intros Hn. pose proof (fourDigitYear_year n Hn) as Hy.
  unfold formatDate, JsDate.getFullYear, JsDate.getMonth, JsDate.getDate in *.
  destruct (civil_from_days_spec n) as (y & m & d & Hc & Hinv & Hm & Hd).
  rewrite Hc in *. simpl in Hy. cbn [fst snd].
  pose proof (days_in_month_le y m).
  destruct (year_digits y Hy) as (y1 & y2 & y3 & y4 & -> & Hyn).
  replace (m - 1 + 1)%Z with m by lia.
  destruct (two_digits m ltac:(lia)) as (m1 & m2 & -> & Hmn).
  destruct (two_digits d ltac:(lia)) as (d1 & d2 & -> & Hdn).
  by exists y, m, d, y1, y2, y3, y4, m1, m2, d1, d2.
Qed.

Lemma parse_local_formatDate n :
  fourDigitYear n →
  JsDate.parse_local (formatDate (Some n) +:+ "T00:00:00") = Some n.
Proof.
  intros Hn.
  destruct (formatDate_text n Hn)
    as (y & m & d & y1 & y2 & y3 & y4 & m1 & m2 & d1 & d2
        & _ & -> & Hy & Hm & Hd & Hvalid & Hinv).
  unfold JsDate.parse_local.
  cbv [String.append String.list_ascii_of_string].
  rewrite Hy, Hm, Hd. simpl. by rewrite bool_decide_eq_true_2, Hinv.
Qed.

Lemma Date_value_formatDate n :
  fourDigitYear n →
  Js.Date_value (formatDate (Some n)) = Some (n * 86400000)%Z.
Proof.
  intros Hn.
  destruct (formatDate_text n Hn)
    as (y & m & d & y1 & y2 & y3 & y4 & m1 & m2 & d1 & d2
        & _ & -> & Hy & Hm & Hd & Hvalid & Hinv).
  unfold Js.Date_value.
  cbv [String.list_ascii_of_string].
  rewrite Hy, Hm, Hd. simpl. by rewrite bool_decide_eq_true_2, Hinv.
Qed.

Lemma getDay_range n : (0 ≤ JsDate.getDay n < 7)%Z.
Proof.
  unfold JsDate.getDay. apply Z.mod_pos_bound. lia.
Qed.

Lemma getStartOfWeek_formatDate n :
  fourDigitYear n →
  getStartOfWeek (formatDate (Some n)) = formatDate (Some (n - JsDate.getDay n)%Z).
Proof.
  intros Hn. unfold getStartOfWeek. rewrite parse_local_formatDate by done.
  cbn [fmap option_fmap option_map WeekDay.dateStr]. rewrite setDate_shift. do 2 f_equal. lia.
Qed.

Lemma changeWeek_formatDate n offset :
  fourDigitYear n →
  changeWeek offset (formatDate (Some n)) = formatDate (Some (n + 7 * offset)%Z).
Proof.
  intros Hn. unfold changeWeek. rewrite parse_local_formatDate by done.
  cbn [fmap option_fmap option_map WeekDay.dateStr]. rewrite setDate_shift. do 2 f_equal. lia.
Qed.

(** X18. [formatDate] writes a day of a four-digit year as a text that
    [new Date] reads back as the same day, in local time with ['T00:00:00']
    appended as the calendars do and as a date-only text as the ledger's
    comparator does. *)
Theorem formatDate_reads_back n :
  fourDigitYear n →
  JsDate.parse_local (formatDate (Some n) +:+ "T00:00:00") = Some n
  ∧ Js.Date_value (formatDate (Some n)) = Some (n * 86400000)%Z.
Proof.
  intros Hn. split; [by apply parse_local_formatDate|by apply Date_value_formatDate].
Qed.

Lemma formatDate_reads_back_witness :
  fourDigitYear 20397
  ∧ JsDate.parse_local (formatDate (Some 20397%Z) +:+ "T00:00:00") = Some 20397%Z
  ∧ Js.Date_value (formatDate (Some 20397%Z)) = Some (20397 * 86400000)%Z.
Proof.
  assert (fourDigitYear 20397) as Hn by (unfold fourDigitYear; split; apply Z.leb_le; by vm_compute).
  split; [exact Hn|apply (formatDate_reads_back 20397 Hn)].
Defined.

Lemma week_start_sunday n :
  JsDate.getDay (n - JsDate.getDay n) = 0%Z ∧ (n - JsDate.getDay n ≤ n < n - JsDate.getDay n + 7)%Z.
Proof.
  pose proof (getDay_range n). split; [|lia].
  unfold JsDate.getDay in *. Z.div_mod_to_equations. lia.
Qed.

(** X19. [getStartOfWeek] of a date gives the Sunday on or before it: a day
    of week 0 at most six days back. *)
Theorem getStartOfWeek_is_the_sunday_before n :
  fourDigitYear n →
  ∃ s, getStartOfWeek (formatDate (Some n)) = formatDate (Some s)
       ∧ JsDate.getDay s = 0%Z ∧ (s ≤ n < s + 7)%Z.
Proof.
  intros Hn. exists (n - JsDate.getDay n)%Z.
  split; [by apply getStartOfWeek_formatDate|]. apply week_start_sunday.
Qed.

Lemma getStartOfWeek_is_the_sunday_before_witness :
  fourDigitYear 20397
  ∧ ∃ s, getStartOfWeek (formatDate (Some 20397%Z)) = formatDate (Some s)
         ∧ JsDate.getDay s = 0%Z ∧ (s ≤ 20397 < s + 7)%Z.
Proof.
  assert (fourDigitYear 20397) as Hn by (unfold fourDigitYear; split; apply Z.leb_le; by vm_compute).
  split; [exact Hn|apply (getStartOfWeek_is_the_sunday_before 20397 Hn)].
Defined.

(** X20. The week strip built on the week start of a date shows the seven
    days from that Sunday on, one day apart across month ends, named Sunday
    to Saturday in order, and the date itself is one of them. *)
Theorem weekDays_are_the_week_of_the_date n :
  fourDigitYear (n - 6) → fourDigitYear n →
  ∃ s, (s ≤ n < s + 7)%Z
       ∧ weekDays (getStartOfWeek (formatDate (Some n)))
         = (λ i : nat,
              WeekDay.mk (formatDate (Some (s + Z.of_nat i)%Z))
                (Some (JsDate.getDate (s + Z.of_nat i))) (weekDayNames !! i)) <$> seq 0 7
       ∧ formatDate (Some n)
         ∈ WeekDay.dateStr <$> weekDays (getStartOfWeek (formatDate (Some n))).
Proof.
  intros Hlo Hn.
  destruct (week_start_sunday n) as [Hday Hrange].
  set (s := (n - JsDate.getDay n)%Z) in *.
  assert (getStartOfWeek (formatDate (Some n)) = formatDate (Some s)) as Hs
    by (by apply getStartOfWeek_formatDate).
  assert (fourDigitYear s) as Hfour by (unfold fourDigitYear in *; lia).
  assert (weekDays (getStartOfWeek (formatDate (Some n)))
          = (λ i : nat,
               WeekDay.mk (formatDate (Some (s + Z.of_nat i)%Z))
                 (Some (JsDate.getDate (s + Z.of_nat i))) (weekDayNames !! i)) <$> seq 0 7)
    as Hweek.
  { rewrite Hs. unfold weekDays. rewrite parse_local_formatDate by done.
    apply list_fmap_ext. intros k i Hi. apply lookup_seq in Hi as [-> Hk].
    cbn [fmap option_fmap option_map mbind option_bind]. rewrite setDate_shift.
    change (0 + k) with k.
    replace (s + (JsDate.getDate s + Z.of_nat k - JsDate.getDate s))%Z
      with (s + Z.of_nat k)%Z by lia.
    f_equal. f_equal.
    assert (JsDate.getDay (s + Z.of_nat k) = Z.of_nat k) as ->; [|by rewrite Nat2Z.id].
    unfold JsDate.getDay in *. Z.div_mod_to_equations. lia. }
  exists s. split; [done|]. split; [done|].
  rewrite Hweek, <- list_fmap_compose. apply list_elem_of_fmap.
  exists (Z.to_nat (n - s)). split.
  - cbn [compose WeekDay.dateStr]. do 2 f_equal. lia.
  - apply elem_of_seq. lia.
Qed.

Lemma weekDays_are_the_week_of_the_date_witness :
  fourDigitYear (20397 - 6) ∧ fourDigitYear 20397
  ∧ ∃ s, (s ≤ 20397 < s + 7)%Z
         ∧ weekDays (getStartOfWeek (formatDate (Some 20397%Z)))
           = (λ i : nat,
                WeekDay.mk (formatDate (Some (s + Z.of_nat i)%Z))
                  (Some (JsDate.getDate (s + Z.of_nat i))) (weekDayNames !! i)) <$> seq 0 7
         ∧ formatDate (Some 20397%Z)
           ∈ WeekDay.dateStr <$> weekDays (getStartOfWeek (formatDate (Some 20397%Z))).
Proof.
  assert (fourDigitYear (20397 - 6)) as Hlo
    by (unfold fourDigitYear; split; apply Z.leb_le; by vm_compute).
  assert (fourDigitYear 20397) as Hn
    by (unfold fourDigitYear; split; apply Z.leb_le; by vm_compute).
  split; [exact Hlo|]. split; [exact Hn|].
  apply (weekDays_are_the_week_of_the_date 20397 Hlo Hn).
Defined.

(** X21. [changeWeek] on a week start moves it by whole weeks: the new
    reference date is again a week start, so the strip shows the week
    [7 * offset] days on, and the opposite offset leads back. *)
Theorem changeWeek_moves_by_whole_weeks s offset :
  fourDigitYear s → fourDigitYear (s + 7 * offset) → JsDate.getDay s = 0%Z →
  changeWeek offset (formatDate (Some s)) = formatDate (Some (s + 7 * offset)%Z)
  ∧ getStartOfWeek (changeWeek offset (formatDate (Some s)))
    = changeWeek offset (formatDate (Some s))
  ∧ changeWeek (- offset) (changeWeek offset (formatDate (Some s)))
    = formatDate (Some s).
Proof.
  intros Hs Hnext Hday. rewrite !changeWeek_formatDate by done.
  split; [done|]. split.
  - rewrite getStartOfWeek_formatDate by done. do 2 f_equal.
    unfold JsDate.getDay in *. Z.div_mod_to_equations. lia.
  - do 2 f_equal. lia.
Qed.

Lemma changeWeek_moves_by_whole_weeks_witness :
  fourDigitYear 20394 ∧ fourDigitYear (20394 + 7 * 1) ∧ JsDate.getDay 20394 = 0%Z
  ∧ changeWeek 1 (formatDate (Some 20394%Z)) = formatDate (Some (20394 + 7 * 1)%Z)
  ∧ getStartOfWeek (changeWeek 1 (formatDate (Some 20394%Z)))
    = changeWeek 1 (formatDate (Some 20394%Z))
  ∧ changeWeek (- 1) (changeWeek 1 (formatDate (Some 20394%Z)))
    = formatDate (Some 20394%Z).
Proof.
  assert (fourDigitYear 20394) as Hs by (unfold fourDigitYear; split; apply Z.leb_le; by vm_compute).
  assert (fourDigitYear (20394 + 7 * 1)) as Hnext
    by (unfold fourDigitYear; split; apply Z.leb_le; by vm_compute).
  assert (JsDate.getDay 20394 = 0%Z) as Hday by reflexivity.
  split; [exact Hs|]. split; [exact Hnext|]. split; [exact Hday|].
  apply (changeWeek_moves_by_whole_weeks 20394 1 Hs Hnext Hday).
Defined.

Section civil_order.
Local Open Scope Z_scope.

Lemma days_from_civil_march y :
  Js.days_from_civil y 3 1 = Js.days_from_civil y 2 1 + Js.days_in_month y 2.
Proof.
  unfold Js.days_from_civil, Js.days_in_month, Js.is_leap. cbv zeta.
  rewrite bool_decide_eq_true_2 by done.
  change (3 <=? 2) with false. change (2 <=? 2) with true. cbv iota.
  set (e := (y - 1) / 400). set (r := y - 1 - e * 400).
  assert (0 ≤ r < 400) as Hr by (subst r e; Z.div_mod_to_equations; lia).
  assert (y = 400 * e + r + 1) as Hy by (subst r; lia).
  clearbody r e. subst y.
  destruct (decide (r = 399)) as [->|Hne].
  - replace (400 * e + 399 + 1) with ((e + 1) * 400) by lia.
    rewrite Z.div_mul by lia.
    replace (((e + 1) * 400) mod 4) with 0
      by (symmetry; apply Z.mod_divide; [lia|]; exists ((e + 1) * 100); lia).
    replace (((e + 1) * 400) mod 400) with 0 by (by rewrite Z.mod_mul).
    rewrite bool_decide_eq_true_2 by (split; [done|by right]).
    replace ((e + 1) * 400 - 1 - e * 400) with 399 by lia.
    replace ((e + 1) * 400 - (e + 1) * 400) with 0 by lia.
    vm_compute (399 / 4). vm_compute (399 / 100).
    vm_compute ((153 * (3 - 3) + 2) / 5). vm_compute ((153 * (2 + 9) + 2) / 5).
    vm_compute (0 / 4). vm_compute (0 / 100). lia.
  - replace ((400 * e + r + 1) / 400) with e by (Z.div_mod_to_equations; lia).
    replace (400 * e + r + 1 - 1 - e * 400) with r by lia.
    replace (400 * e + r + 1 - e * 400) with (r + 1) by lia.
    replace ((400 * e + r + 1) mod 4) with ((r + 1) mod 4)
      by (Z.div_mod_to_equations; lia).
    replace ((400 * e + r + 1) mod 100) with ((r + 1) mod 100)
      by (Z.div_mod_to_equations; lia).
    replace ((400 * e + r + 1) mod 400) with (r + 1)
      by (Z.div_mod_to_equations; lia).
    vm_compute ((153 * (3 - 3) + 2) / 5). vm_compute ((153 * (2 + 9) + 2) / 5).
    case_bool_decide; Z.div_mod_to_equations; lia.
Qed.

(** The first of a month follows the last day of the month before. *)
Lemma days_from_civil_next_month y m :
  1 ≤ m ≤ 11 →
  Js.days_from_civil y (m + 1) 1 = Js.days_from_civil y m 1 + Js.days_in_month y m.
Proof.
  intros Hm.
  assert (m = 1 ∨ m = 2 ∨ m = 3 ∨ m = 4 ∨ m = 5 ∨ m = 6 ∨ m = 7 ∨ m = 8
          ∨ m = 9 ∨ m = 10 ∨ m = 11) as Hcases by lia.
  destruct_or!; subst m; try apply days_from_civil_march;
    unfold Js.days_from_civil, Js.days_in_month; cbv zeta;
    rewrite bool_decide_eq_false_2 by done;
    match goal with
    | |- context [bool_decide (?x ∈ ?l)] =>
        let b := eval vm_compute in (bool_decide (x ∈ l)) in
        replace (bool_decide (x ∈ l)) with b by (by vm_compute)
    end;
    cbv iota;
    repeat match goal with
           | |- context [(?a <=? 2)] =>
               let b := eval vm_compute in (a <=? 2) in
               change (a <=? 2) with b
           end;
    cbv iota;
    repeat match goal with
           | |- context [((153 * ?a + 2) / 5)] =>
               let b := eval vm_compute in ((153 * a + 2) / 5) in
               change ((153 * a + 2) / 5) with b
           end;
    lia.
Qed.

Lemma days_from_civil_next_year y :
  Js.days_from_civil (y + 1) 1 1 = Js.days_from_civil y 12 1 + Js.days_in_month y 12.
Proof.
  unfold Js.days_from_civil, Js.days_in_month. cbv zeta.
  change (1 <=? 2) with true. change (12 <=? 2) with false. cbv iota.
  rewrite bool_decide_eq_false_2 by done.
  replace (bool_decide (12 ∈ [4; 6; 9; 11])) with false by (by vm_compute).
  replace (y + 1 - 1) with y by lia.
  change ((153 * (1 + 9) + 2) / 5) with 306. change ((153 * (12 - 3) + 2) / 5) with 275.
  lia.
Qed.

Lemma days_in_month_ge y m : 28 ≤ Js.days_in_month y m.
Proof.
  unfold Js.days_in_month. repeat case_match; lia.
Qed.

Lemma days_from_civil_first_le y m (k : nat) :
  1 ≤ m → m + Z.of_nat k ≤ 12 →
  Js.days_from_civil y m 1 + Z.of_nat k ≤ Js.days_from_civil y (m + Z.of_nat k) 1.
Proof.
  intros Hm. induction k as [|k IH]; intros Hk.
  - replace (m + Z.of_nat 0) with m by lia. lia.
  - replace (m + Z.of_nat (S k)) with (m + Z.of_nat k + 1) by lia.
    rewrite days_from_civil_next_month by lia.
    pose proof (days_in_month_ge y (m + Z.of_nat k)). lia.
Qed.

Lemma days_from_civil_month_lt y m d m' d' :
  1 ≤ m → m < m' → m' ≤ 12 → d ≤ Js.days_in_month y m → 1 ≤ d' →
  Js.days_from_civil y m d < Js.days_from_civil y m' d'.
Proof.
  intros Hm Hlt Hm' Hd Hd'.
  rewrite (days_from_civil_day y m d), (days_from_civil_day y m' d').
  pose proof (days_from_civil_next_month y m ltac:(lia)).
  pose proof (days_from_civil_first_le y (m + 1) (Z.to_nat (m' - (m + 1)))
                ltac:(lia) ltac:(lia)) as Hle.
  replace (m + 1 + Z.of_nat (Z.to_nat (m' - (m + 1)))) with m' in Hle by lia. lia.
Qed.

(** The day numbers of valid dates follow the order of the calendar. *)
Lemma days_from_civil_lt y m d y' m' d' :
  1 ≤ m ≤ 12 → 1 ≤ d ≤ Js.days_in_month y m →
  1 ≤ m' ≤ 12 → 1 ≤ d' ≤ Js.days_in_month y' m' →
  y < y' ∨ (y = y' ∧ (m < m' ∨ (m = m' ∧ d < d'))) →
  Js.days_from_civil y m d < Js.days_from_civil y' m' d'.
Proof.
  intros Hm Hd Hm' Hd' Hlt.
  pose proof (days_in_month_le y m). pose proof (days_in_month_le y' m').
  destruct Hlt as [Hy|[-> [Hmm|[-> Hdd]]]].
  - pose proof (days_from_civil_year_lt y m d y' Hm ltac:(lia) Hy).
    destruct (decide (m' = 1)) as [->|?].
    + rewrite (days_from_civil_day y' 1 d'). lia.
    + pose proof (days_from_civil_month_lt y' 1 1 m' d'
                    ltac:(lia) ltac:(lia) ltac:(lia)
                    ltac:(pose proof (days_in_month_ge y' 1); lia) ltac:(lia)).
      lia.
  - apply days_from_civil_month_lt; lia.
  - rewrite (days_from_civil_day y' m' d), (days_from_civil_day y' m' d'). lia.
Qed.

Lemma civil_from_days_from_civil y m d :
  1 ≤ m ≤ 12 → 1 ≤ d ≤ Js.days_in_month y m →
  JsDate.civil_from_days (Js.days_from_civil y m d) = (y, m, d).
Proof.
  intros Hm Hd.
  destruct (civil_from_days_spec (Js.days_from_civil y m d))
    as (y' & m' & d' & -> & Heq & Hm' & Hd').
  destruct (Z.lt_trichotomy y' y) as [?|[->|?]].
  - pose proof (days_from_civil_lt y' m' d' y m d Hm' Hd' Hm Hd ltac:(lia)). lia.
  - destruct (Z.lt_trichotomy m' m) as [?|[->|?]].
    + pose proof (days_from_civil_lt y m' d' y m d Hm' Hd' Hm Hd ltac:(lia)). lia.
    + destruct (Z.lt_trichotomy d' d) as [?|[->|?]]; [|done|].
      * pose proof (days_from_civil_lt y m d' y m d Hm' Hd' Hm Hd ltac:(lia)). lia.
      * pose proof (days_from_civil_lt y m d y m d' Hm Hd Hm' Hd' ltac:(lia)). lia.
    + pose proof (days_from_civil_lt y m d y m' d' Hm Hd Hm' Hd' ltac:(lia)). lia.
  - pose proof (days_from_civil_lt y m d y' m' d' Hm Hd Hm' Hd' ltac:(lia)). lia.
Qed.

End civil_order.

(** ** The range calendar *)

Section month_grid.
Local Open Scope Z_scope.

Lemma getMonth_range n : 0 ≤ JsDate.getMonth n ≤ 11.
Proof.
  unfold JsDate.getMonth.
  destruct (civil_from_days_spec n) as (y & m & d & -> & _ & Hm & _). simpl. lia.
Qed.

Lemma civil_from_days_getters n :
  JsDate.civil_from_days n = (JsDate.getFullYear n, JsDate.getMonth n + 1, JsDate.getDate n).
Proof.
  unfold JsDate.getFullYear, JsDate.getMonth, JsDate.getDate.
  destruct (JsDate.civil_from_days n) as [[y m] d]. simpl. f_equal. f_equal. lia.
Qed.

Lemma MakeDay_in_year y mo d :
  0 ≤ mo ≤ 11 → JsDate.MakeDay y mo d = Js.days_from_civil y (mo + 1) d.
Proof.
  intros Hmo. unfold JsDate.MakeDay.
  rewrite (Z.div_small mo 12), (Z.mod_small mo 12) by lia.
  replace (y + 0) with y by lia. rewrite (days_from_civil_day y (mo + 1) d). lia.
Qed.

Lemma MakeDay_last_day y mo :
  0 ≤ mo ≤ 11 →
  JsDate.MakeDay y (mo + 1) 0
  = Js.days_from_civil y (mo + 1) (Js.days_in_month y (mo + 1)).
Proof.
  intros Hmo. rewrite (days_from_civil_day y (mo + 1) (Js.days_in_month y (mo + 1))).
  destruct (decide (mo = 11)) as [->|Hne].
  - unfold JsDate.MakeDay. change ((11 + 1) / 12) with 1.
    change ((11 + 1) mod 12 + 1) with 1. change (11 + 1) with 12.
    rewrite days_from_civil_next_year. lia.
  - rewrite MakeDay_in_year by lia.
    rewrite (days_from_civil_day y (mo + 1 + 1) 0).
    rewrite (days_from_civil_next_month y (mo + 1)) by lia. lia.
Qed.

Lemma make_modern year mo d :
  1000 ≤ year → JsDate.make year mo d = JsDate.MakeDay year mo d.
Proof.
  intros Hyear. unfold JsDate.make. by rewrite bool_decide_eq_false_2 by lia.
Qed.

Lemma fourDigitYear_days_from_civil y m d :
  1000 ≤ y ≤ 9999 → 1 ≤ m ≤ 12 → 1 ≤ d ≤ Js.days_in_month y m →
  fourDigitYear (Js.days_from_civil y m d).
Proof.
  intros Hy Hm Hd. unfold fourDigitYear. split.
  - destruct (decide (y = 1000 ∧ m = 1 ∧ d = 1)) as [(-> & -> & ->)|Hne]; [done|].
    apply Z.lt_le_incl. apply days_from_civil_lt; [lia|by vm_compute|lia|lia|lia].
  - destruct (decide (y = 9999 ∧ m = 12 ∧ d = 31)) as [(-> & -> & ->)|Hne]; [done|].
    pose proof (days_in_month_le y m).
    apply Z.lt_le_incl. apply days_from_civil_lt; [lia|lia|lia|by vm_compute|lia].
Qed.

Lemma formatDate_nonempty n : fourDigitYear n → Js.truthy_str (formatDate (Some n)) = true.
Proof.
  intros Hn.
  by destruct (formatDate_text n Hn)
    as (y & m & d & y1 & y2 & y3 & y4 & m1 & m2 & d1 & d2 & _ & -> & _).
Qed.

Lemma formatDate_inj n n' :
  fourDigitYear n → fourDigitYear n' →
  formatDate (Some n) = formatDate (Some n') → n = n'.
Proof.
  intros Hn Hn' Heq.
  pose proof (parse_local_formatDate n Hn) as Hparse.
  rewrite Heq, parse_local_formatDate in Hparse by done. congruence.
Qed.

Lemma getDaysInMonth_spec year mo :
  1000 ≤ year → 0 ≤ mo ≤ 11 →
  getDaysInMonth year mo = Js.days_in_month year (mo + 1).
Proof.
  intros Hyear Hmo. unfold getDaysInMonth, JsDate.getDate.
  rewrite make_modern, MakeDay_last_day by lia.
  pose proof (days_in_month_ge year (mo + 1)).
  rewrite civil_from_days_from_civil by lia. done.
Qed.

(** X22. The month grid of the range calendar, for a month of a four-digit
    year and a range from day [s] to day [e]: after one empty cell per
    weekday before the first of the month come the days of that month and no
    other, one cell per day in order, each in the column of its weekday;
    a cell is marked as start or end when its day is [s] or [e], and as in
    range when its day lies strictly between them. Without a selection no
    cell is marked. *)
Theorem renderMonth_shows_the_month (n s e : Z) :
  fourDigitYear n → fourDigitYear s → fourDigitYear e →
  let year := JsDate.getFullYear n in
  let month := JsDate.getMonth n + 1 in
  let first := Js.days_from_civil year month 1 in
  renderMonth n (formatDate (Some s)) (formatDate (Some e))
  = (Cell.Empty <$> seqZ 0 (JsDate.getDay first))
    ++ ((λ d, Cell.Day (formatDate (Some (first + d - 1))) d
                (bool_decide (first + d - 1 = s)) (bool_decide (first + d - 1 = e))
                (bool_decide (s < first + d - 1 < e)))
          <$> seqZ 1 (Js.days_in_month year month))
  ∧ renderMonth n "" ""
    = (Cell.Empty <$> seqZ 0 (JsDate.getDay first))
      ++ ((λ d, Cell.Day (formatDate (Some (first + d - 1))) d false false false)
            <$> seqZ 1 (Js.days_in_month year month))
  ∧ (∀ d, 1 ≤ d ≤ Js.days_in_month year month →
       JsDate.civil_from_days (first + d - 1) = (year, month, d)
       ∧ (JsDate.getDay first + (d - 1)) mod 7 = JsDate.getDay (first + d - 1)).
Proof.
  intros Hn Hs He year month first. subst first month year.
  pose proof (fourDigitYear_year n Hn) as Hyear.
  pose proof (getMonth_range n) as Hmonth.
  set (year := JsDate.getFullYear n) in *. set (mo := JsDate.getMonth n) in *.
  assert (∀ d, 1 ≤ d ≤ Js.days_in_month year (mo + 1) →
            JsDate.make year mo d = Js.days_from_civil year (mo + 1) 1 + d - 1
            ∧ fourDigitYear (Js.days_from_civil year (mo + 1) 1 + d - 1)) as Hcell.
  { intros d Hd. rewrite make_modern, MakeDay_in_year by lia.
    rewrite <- (days_from_civil_day year (mo + 1) d). split; [done|].
    apply fourDigitYear_days_from_civil; lia. }
  assert (getFirstDayOfMonth year mo = JsDate.getDay (Js.days_from_civil year (mo + 1) 1))
    as Hfirst.
  { unfold getFirstDayOfMonth. by rewrite make_modern, MakeDay_in_year by lia. }
  assert (getDaysInMonth year mo = Js.days_in_month year (mo + 1)) as Hdays
    by (apply getDaysInMonth_spec; lia).
  split_and!.
  - unfold renderMonth. fold year mo. rewrite Hfirst, Hdays. f_equal.
    rewrite !formatDate_nonempty, !parse_local_formatDate by done.
    apply list_fmap_ext. intros i d [-> Hi]%lookup_seqZ.
    destruct (Hcell (1 + Z.of_nat i) ltac:(lia)) as [-> Hday].
    rewrite parse_local_formatDate by done. f_equal.
    + apply bool_decide_ext. split; [by apply formatDate_inj|by intros ->].
    + apply bool_decide_ext. split; [by apply formatDate_inj|by intros ->].
    + unfold date_before. rewrite <- bool_decide_and. done.
  - unfold renderMonth. fold year mo. rewrite Hfirst, Hdays. f_equal.
    apply list_fmap_ext. intros i d [-> Hi]%lookup_seqZ.
    destruct (Hcell (1 + Z.of_nat i) ltac:(lia)) as [-> Hday].
    pose proof (formatDate_nonempty _ Hday) as Hnonempty.
    cbn [Js.truthy_str]. f_equal; apply bool_decide_eq_false_2; intros Heq;
      by rewrite Heq in Hnonempty.
  - intros d Hd. split.
    + rewrite <- (days_from_civil_day year (mo + 1) d).
      apply civil_from_days_from_civil; lia.
    + unfold JsDate.getDay. Z.div_mod_to_equations. lia.
Qed.

Lemma renderMonth_shows_the_month_witness :
  fourDigitYear 20397 ∧ fourDigitYear 20400
  ∧ formatDate (Some 20397) = "2025-11-05" ∧ formatDate (Some 20400) = "2025-11-08"
  ∧ (let year := JsDate.getFullYear 20397 in
     let month := JsDate.getMonth 20397 + 1 in
     let first := Js.days_from_civil year month 1 in
     renderMonth 20397 (formatDate (Some 20397)) (formatDate (Some 20400))
     = (Cell.Empty <$> seqZ 0 (JsDate.getDay first))
       ++ ((λ d, Cell.Day (formatDate (Some (first + d - 1))) d
                   (bool_decide (first + d - 1 = 20397)) (bool_decide (first + d - 1 = 20400))
                   (bool_decide (20397 < first + d - 1 < 20400)))
             <$> seqZ 1 (Js.days_in_month year month))
     ∧ renderMonth 20397 "" ""
       = (Cell.Empty <$> seqZ 0 (JsDate.getDay first))
         ++ ((λ d, Cell.Day (formatDate (Some (first + d - 1))) d false false false)
               <$> seqZ 1 (Js.days_in_month year month))
     ∧ (∀ d, 1 ≤ d ≤ Js.days_in_month year month →
          JsDate.civil_from_days (first + d - 1) = (year, month, d)
          ∧ (JsDate.getDay first + (d - 1)) mod 7 = JsDate.getDay (first + d - 1))).
Proof.
  assert (fourDigitYear 20397) as Hn
    by (unfold fourDigitYear; split; apply Z.leb_le; by vm_compute).
  assert (fourDigitYear 20400) as He
    by (unfold fourDigitYear; split; apply Z.leb_le; by vm_compute).
  split; [exact Hn|]. split; [exact He|].
  split; [by vm_compute|]. split; [by vm_compute|].
  exact (renderMonth_shows_the_month 20397 20397 20400 Hn Hn He).
Defined.

(** X23. The month buttons step the month shown by whole months: from the
    first of a month they lead to the first of the month [k] months on, the
    year rolling over with the months, and the opposite step leads back. *)
Theorem changeMonth_steps_whole_months (n k : Z) :
  JsDate.getDate n = 1 →
  JsDate.getDate (changeMonth k n) = 1
  ∧ 12 * JsDate.getFullYear (changeMonth k n) + JsDate.getMonth (changeMonth k n)
    = 12 * JsDate.getFullYear n + JsDate.getMonth n + k
  ∧ changeMonth (- k) (changeMonth k n) = n.
Proof.
  intros Hfirst.
  pose proof (getMonth_range n) as Hmonth.
  pose proof (civil_from_days_getters n) as Hcivil. rewrite Hfirst in Hcivil.
  set (y := JsDate.getFullYear n) in *. set (mo := JsDate.getMonth n) in *.
  assert (Js.days_from_civil y (mo + 1) 1 = n) as Hn.
  { destruct (civil_from_days_spec n) as (y' & m' & d' & Heq & Hinv & _). congruence. }
  assert (∀ j, JsDate.civil_from_days (JsDate.MakeDay y j 1)
               = (y + j / 12, j mod 12 + 1, 1)) as Hmake.
  { intros j. unfold JsDate.MakeDay.
    replace (Js.days_from_civil (y + j / 12) (j mod 12 + 1) 1 + 1 - 1)
      with (Js.days_from_civil (y + j / 12) (j mod 12 + 1) 1) by lia.
    pose proof (Z.mod_pos_bound j 12 ltac:(lia)).
    pose proof (days_in_month_ge (y + j / 12) (j mod 12 + 1)).
    apply civil_from_days_from_civil; lia. }
  assert (changeMonth k n = JsDate.MakeDay y (mo + k) 1) as Hnext.
  { unfold changeMonth, JsDate.setMonth. by rewrite Hfirst. }
  assert (JsDate.getFullYear (changeMonth k n) = y + (mo + k) / 12
          ∧ JsDate.getMonth (changeMonth k n) = (mo + k) mod 12
          ∧ JsDate.getDate (changeMonth k n) = 1) as (Hy & Hm & Hd).
  { unfold JsDate.getFullYear, JsDate.getMonth, JsDate.getDate.
    rewrite Hnext, Hmake. cbn [fst snd]. lia. }
  split_and!.
  - done.
  - rewrite Hy, Hm. Z.div_mod_to_equations. lia.
  - unfold changeMonth at 1. unfold JsDate.setMonth. rewrite Hy, Hm, Hd.
    unfold JsDate.MakeDay.
    replace (y + (mo + k) / 12 + ((mo + k) mod 12 + - k) / 12) with y
      by (Z.div_mod_to_equations; lia).
    replace (((mo + k) mod 12 + - k) mod 12) with mo
      by (Z.div_mod_to_equations; lia).
    lia.
Qed.

Lemma changeMonth_steps_whole_months_witness :
  JsDate.getDate 20423 = 1
  ∧ JsDate.civil_from_days 20423 = (2025, 12, 1)
  ∧ JsDate.civil_from_days (changeMonth 1 20423) = (2026, 1, 1)
  ∧ changeMonth (- 1) (changeMonth 1 20423) = 20423.
Proof.
  assert (JsDate.getDate 20423 = 1) as Hfirst by reflexivity.
  destruct (changeMonth_steps_whole_months 20423 1 Hfirst) as (_ & _ & Hback).
  split_and!; [exact Hfirst|by vm_compute|by vm_compute|exact Hback].
Defined.

End month_grid.

(** ** Date texts and the order of the days *)

Lemma digit_facts c c' a b :
  Js.digit c = Some a → Js.digit c' = Some b →
  (0 ≤ a ≤ 9)%Z ∧ Ascii.compare c c' = (a ?= b)%Z.
Proof.
  intros Ha Hb.
  assert (forallb
            (λ i, forallb
               (λ j, match Js.digit (ascii_of_nat i), Js.digit (ascii_of_nat j) with
                     | Some a, Some b =>
                         bool_decide ((0 ≤ a ≤ 9)%Z
                                      ∧ Ascii.compare (ascii_of_nat i) (ascii_of_nat j)
                                        = (a ?= b)%Z)
                     | _, _ => true
                     end) (seq 0 256)) (seq 0 256) = true) as Hall
    by (vm_compute; reflexivity).
  rewrite forallb_forall in Hall.
  specialize (Hall (nat_of_ascii c)).
  rewrite <- list_elem_of_In, elem_of_seq in Hall.
  pose proof (nat_ascii_bounded c). specialize (Hall ltac:(lia)).
  rewrite forallb_forall in Hall. specialize (Hall (nat_of_ascii c')).
  rewrite <- list_elem_of_In, elem_of_seq in Hall.
  pose proof (nat_ascii_bounded c'). specialize (Hall ltac:(lia)).
  rewrite !ascii_nat_embedding, Ha, Hb in Hall.
  by apply bool_decide_eq_true in Hall.
Qed.

Lemma number_of_4 c1 c2 c3 c4 y :
  Js.number_of [c1; c2; c3; c4] = Some y →
  ∃ a1 a2 a3 a4, Js.digit c1 = Some a1 ∧ Js.digit c2 = Some a2
                 ∧ Js.digit c3 = Some a3 ∧ Js.digit c4 = Some a4
                 ∧ y = (1000 * a1 + 100 * a2 + 10 * a3 + a4)%Z.
Proof.
  unfold Js.number_of. cbn [foldl mbind option_bind].
  destruct (Js.digit c1) as [a1|]; [|done]. cbn [mbind option_bind].
  destruct (Js.digit c2) as [a2|]; [|done]. cbn [mbind option_bind].
  destruct (Js.digit c3) as [a3|]; [|done]. cbn [mbind option_bind].
  destruct (Js.digit c4) as [a4|]; [|done]. cbn [mbind option_bind].
  intros [= <-]. exists a1, a2, a3, a4. split_and!; [done..|lia].
Qed.

Lemma number_of_2 c1 c2 y :
  Js.number_of [c1; c2] = Some y →
  ∃ a1 a2, Js.digit c1 = Some a1 ∧ Js.digit c2 = Some a2 ∧ y = (10 * a1 + a2)%Z.
Proof.
  unfold Js.number_of. cbn [foldl mbind option_bind].
  destruct (Js.digit c1) as [a1|]; [|done]. cbn [mbind option_bind].
  destruct (Js.digit c2) as [a2|]; [|done]. cbn [mbind option_bind].
  intros [= <-]. exists a1, a2. split_and!; [done..|lia].
Qed.

(** The texts of two days compare as the days do. *)
Lemma compare_formatDate n n' :
  fourDigitYear n → fourDigitYear n' →
  String.compare (formatDate (Some n)) (formatDate (Some n')) = (n ?= n')%Z.
Proof.
  intros Hn Hn'.
  destruct (formatDate_text n Hn)
    as (y & m & d & y1 & y2 & y3 & y4 & m1 & m2 & d1 & d2
        & _ & -> & Hy & Hm & Hd & [Hvm Hvd] & Hinv).
  destruct (formatDate_text n' Hn')
    as (y' & m' & d' & y1' & y2' & y3' & y4' & m1' & m2' & d1' & d2'
        & _ & -> & Hy' & Hm' & Hd' & [Hvm' Hvd'] & Hinv').
  apply number_of_4 in Hy as (a1 & a2 & a3 & a4 & Ha1 & Ha2 & Ha3 & Ha4 & ->).
  apply number_of_4 in Hy' as (b1 & b2 & b3 & b4 & Hb1 & Hb2 & Hb3 & Hb4 & ->).
  apply number_of_2 in Hm as (a5 & a6 & Ha5 & Ha6 & ->).
  apply number_of_2 in Hm' as (b5 & b6 & Hb5 & Hb6 & ->).
  apply number_of_2 in Hd as (a7 & a8 & Ha7 & Ha8 & ->).
  apply number_of_2 in Hd' as (b7 & b8 & Hb7 & Hb8 & ->).
  destruct (digit_facts _ _ _ _ Ha1 Hb1) as [? Hc1].
  destruct (digit_facts _ _ _ _ Ha2 Hb2) as [? Hc2].
  destruct (digit_facts _ _ _ _ Ha3 Hb3) as [? Hc3].
  destruct (digit_facts _ _ _ _ Ha4 Hb4) as [? Hc4].
  destruct (digit_facts _ _ _ _ Ha5 Hb5) as [? Hc5].
  destruct (digit_facts _ _ _ _ Ha6 Hb6) as [? Hc6].
  destruct (digit_facts _ _ _ _ Ha7 Hb7) as [? Hc7].
  destruct (digit_facts _ _ _ _ Ha8 Hb8) as [? Hc8].
  destruct (digit_facts _ _ _ _ Hb1 Ha1) as [? _].
  destruct (digit_facts _ _ _ _ Hb2 Ha2) as [? _].
  destruct (digit_facts _ _ _ _ Hb3 Ha3) as [? _].
  destruct (digit_facts _ _ _ _ Hb4 Ha4) as [? _].
  destruct (digit_facts _ _ _ _ Hb5 Ha5) as [? _].
  destruct (digit_facts _ _ _ _ Hb6 Ha6) as [? _].
  destruct (digit_facts _ _ _ _ Hb7 Ha7) as [? _].
  destruct (digit_facts _ _ _ _ Hb8 Ha8) as [? _].
  cbn [String.compare]. rewrite Hc1, Hc2, Hc3, Hc4, Hc5, Hc6, Hc7, Hc8.
  change (Ascii.compare "-" "-") with Eq. cbv iota.
  subst n n'.
  assert (∀ y m d y' m' d',
            (1 ≤ m ≤ 12)%Z → (1 ≤ d ≤ Js.days_in_month y m)%Z →
            (1 ≤ m' ≤ 12)%Z → (1 ≤ d' ≤ Js.days_in_month y' m')%Z →
            (y < y' ∨ (y = y' ∧ (m < m' ∨ (m = m' ∧ d < d'))))%Z →
            (Js.days_from_civil y m d ?= Js.days_from_civil y' m' d')%Z = Lt
            ∧ (Js.days_from_civil y' m' d' ?= Js.days_from_civil y m d)%Z = Gt) as Horder.
  { intros ?????? Hvalid1 Hvalid2 Hvalid3 Hvalid4 Hlex.
    pose proof (days_from_civil_lt _ _ _ _ _ _ Hvalid1 Hvalid2 Hvalid3 Hvalid4 Hlex).
    split; [by apply Z.compare_lt_iff|by apply Z.compare_gt_iff]. }
  repeat match goal with
         | |- context [(?a ?= ?b)%Z] =>
             lazymatch a with
             | Js.days_from_civil _ _ _ => fail
             | _ => destruct (Z.compare_spec a b); [subst| |]
             end
         end;
    first [ symmetry; apply Z.compare_eq_iff; reflexivity
          | symmetry; apply Horder; [done..|lia]
          | symmetry; apply (Horder _ _ _ _ _ _ Hvm' Hvd' Hvm Hvd); lia ].
Qed.

Lemma str_lt_formatDate n n' :
  fourDigitYear n → fourDigitYear n' →
  Js.str_lt (formatDate (Some n)) (formatDate (Some n')) = bool_decide (n < n')%Z.
Proof.
  intros Hn Hn'. unfold Js.str_lt, String.ltb. rewrite compare_formatDate by done.
  destruct (Z.compare_spec n n').
  - by rewrite bool_decide_eq_false_2 by lia.
  - by rewrite bool_decide_eq_true_2 by lia.
  - by rewrite bool_decide_eq_false_2 by lia.
Qed.

Lemma le_formatDate n n' :
  fourDigitYear n → fourDigitYear n' →
  String.le (formatDate (Some n)) (formatDate (Some n')) ↔ (n ≤ n')%Z.
Proof.
  intros Hn Hn'. unfold String.le, String.leb. rewrite compare_formatDate by done.
  destruct (Z.compare_spec n n'); split; try done; lia.
Qed.

(** X24. On the days of the four-digit years the texts [formatDate] writes
    order as the days do, for [<] on strings, for [localeCompare] and for
    the inclusive bounds of the ledger filter, and different days have
    different texts. *)
Theorem formatDate_orders_as_the_days (n n' : Z) :
  fourDigitYear n → fourDigitYear n' →
  Js.str_lt (formatDate (Some n)) (formatDate (Some n')) = bool_decide (n < n')%Z
  ∧ Js.localeCompare (formatDate (Some n)) (formatDate (Some n')) = (n ?= n')%Z
  ∧ (String.le (formatDate (Some n)) (formatDate (Some n')) ↔ (n ≤ n')%Z)
  ∧ (formatDate (Some n) = formatDate (Some n') ↔ n = n').
Proof.
  intros Hn Hn'. split_and!.
  - by apply str_lt_formatDate.
  - by apply compare_formatDate.
  - by apply le_formatDate.
  - split; [by apply formatDate_inj|by intros ->].
Qed.

Lemma formatDate_orders_as_the_days_witness :
  fourDigitYear 20397 ∧ fourDigitYear 20453
  ∧ formatDate (Some 20397%Z) = "2025-11-05" ∧ formatDate (Some 20453%Z) = "2025-12-31"
  ∧ Js.str_lt (formatDate (Some 20397%Z)) (formatDate (Some 20453%Z))
    = bool_decide (20397 < 20453)%Z
  ∧ Js.localeCompare (formatDate (Some 20397%Z)) (formatDate (Some 20453%Z))
    = (20397 ?= 20453)%Z
  ∧ (String.le (formatDate (Some 20397%Z)) (formatDate (Some 20453%Z)) ↔ (20397 ≤ 20453)%Z)
  ∧ (formatDate (Some 20397%Z) = formatDate (Some 20453%Z) ↔ 20397%Z = 20453%Z).
Proof.
  assert (fourDigitYear 20397) as Hn
    by (unfold fourDigitYear; split; apply Z.leb_le; by vm_compute).
  assert (fourDigitYear 20453) as Hn'
    by (unfold fourDigitYear; split; apply Z.leb_le; by vm_compute).
  split; [exact Hn|]. split; [exact Hn'|].
  split; [by vm_compute|]. split; [by vm_compute|].
  exact (formatDate_orders_as_the_days 20397 20453 Hn Hn').
Defined.

(** X25. Picking a day in the range calendar when only the start of the
    range is set: a day before the start becomes the new start and the
    popover stays as it is; any other day closes the range and the popover,
    and the ledger then shows, of the records dated by the calendar, exactly
    those from the start to the day picked. *)
Theorem picking_the_end_of_the_range
    (st : App) (s d : Z) (popoverOpen : bool) :
  fourDigitYear s → fourDigitYear d →
  filterStart st = formatDate (Some s) → filterEnd st = "" →
  let next := (onSelectDate (formatDate (Some d)) st popoverOpen).1 in
  ((d < s)%Z →
     filterStart next = formatDate (Some d) ∧ filterEnd next = ""
     ∧ (onSelectDate (formatDate (Some d)) st popoverOpen).2 = popoverOpen)
  ∧ ((s ≤ d)%Z →
       filterStart next = formatDate (Some s) ∧ filterEnd next = formatDate (Some d)
       ∧ (onSelectDate (formatDate (Some d)) st popoverOpen).2 = false
       ∧ ∀ e k, fourDigitYear k → Expense.date e = formatDate (Some k) →
           (e ∈ filteredExpenses (expenses next) "All" (filterStart next) (filterEnd next)
            ↔ e ∈ expenses st ∧ (s ≤ k ≤ d)%Z)).
Proof.
  intros Hs Hd Hstart Hend next. subst next. unfold onSelectDate.
  rewrite Hstart, Hend, formatDate_nonempty by done. cbn [negb orb andb Js.truthy_str].
  rewrite str_lt_formatDate by done. split.
  - intros Hlt. by rewrite bool_decide_eq_true_2 by done.
  - intros Hle. rewrite bool_decide_eq_false_2 by lia. cbn [fst snd filterStart filterEnd expenses].
    split_and!; [done..|].
    intros e k Hk Hdate. unfold filteredExpenses. rewrite list_elem_of_filter.
    rewrite andb_True, !Is_true_true, matchPayer_spec, matchDate_spec, Hdate.
    rewrite !le_formatDate by done.
    pose proof (formatDate_nonempty s Hs) as Hs'. pose proof (formatDate_nonempty d Hd) as Hd'.
    apply truthy_str_true in Hs', Hd'. tauto.
Qed.

Lemma picking_the_end_of_the_range_witness :
  let st := mkApp initialExpenses initialItinerary DEFAULT_PAYERS None
              (formatDate (Some 20398%Z)) "" "All" in
  fourDigitYear 20398 ∧ fourDigitYear 20397
  ∧ filterStart st = formatDate (Some 20398%Z) ∧ filterEnd st = ""
  ∧ formatDate (Some 20398%Z) = "2025-11-06" ∧ formatDate (Some 20397%Z) = "2025-11-05"
  ∧ filterStart (onSelectDate (formatDate (Some 20397%Z)) st true).1
    = formatDate (Some 20397%Z)
  ∧ filterEnd (onSelectDate (formatDate (Some 20397%Z)) st true).1 = ""
  ∧ (onSelectDate (formatDate (Some 20397%Z)) st true).2 = true.
Proof.
  intros st.
  assert (fourDigitYear 20398) as Hs
    by (unfold fourDigitYear; split; apply Z.leb_le; by vm_compute).
  assert (fourDigitYear 20397) as Hd
    by (unfold fourDigitYear; split; apply Z.leb_le; by vm_compute).
  assert (20397 < 20398)%Z as Hlt by lia.
  destruct (picking_the_end_of_the_range st 20398 20397 true Hs Hd eq_refl eq_refl)
    as [Hbefore _].
  split; [exact Hs|]. split; [exact Hd|]. split; [reflexivity|]. split; [reflexivity|].
  split; [by vm_compute|]. split; [by vm_compute|].
  exact (Hbefore Hlt).
Defined.

(** ** The expense form *)

Lemma numberOf_not_NaN x : Js.isNaN (Js.numberOf x) = false.
Proof. unfold Js.numberOf. by repeat case_match. Qed.

Lemma mul_not_NaN x r : Js.isNaN x = false → Js.isNaN (Js.mul x (Js.Finite r)) = false.
Proof. destruct x; simpl; try done. intros _. apply numberOf_not_NaN. Qed.

Lemma div_not_NaN x r : Js.isNaN x = false → Js.isNaN (Js.div x (Js.Finite r)) = false.
Proof. destruct x; simpl; try done. intros _. apply numberOf_not_NaN. Qed.

Lemma Math_round_not_NaN x : Js.isNaN x = false → Js.isNaN (Js.Math_round x) = false.
Proof. destruct x; simpl; try done. intros _. by case_match. Qed.

Lemma twdAmount_not_NaN amount currency : Js.isNaN (twdAmount amount currency) = false.
Proof.
  unfold twdAmount. destruct (Js.isNaN (Js.parseFloat amount)) eqn:Hnan; [done|].
  destruct (rates_near currency) as (r & -> & _). rewrite numberOf_100.
  by apply div_not_NaN, Math_round_not_NaN, mul_not_NaN, mul_not_NaN.
Qed.

(** X26. What the expense form hands over. The submit is held back exactly
    when the amount text or the description is empty. A record handed over
    is in the home currency; its amount is the conversion of the amount text
    and is never [NaN]: a text that is not numeric gives the amount 0 beside
    an input amount of [NaN]. It carries the id of the record edited, unless
    that id is 0, and is flagged as an edit exactly when a record was opened. *)
Theorem ExpenseForm_handleSubmit_record
    (initialExpense : option Expense.t) (now : Z) (form : ExpenseForm.t) :
  (ExpenseForm.handleSubmit initialExpense now form = None
   ↔ ExpenseForm.amount form = "" ∨ ExpenseForm.desc form = "")
  ∧ ∀ e isEdit, ExpenseForm.handleSubmit initialExpense now form = Some (e, isEdit) →
      Expense.currency e = TWD
      ∧ Expense.amount e = twdAmount (ExpenseForm.amount form) (ExpenseForm.currency form)
      ∧ Js.isNaN (Expense.amount e) = false
      ∧ (Js.isNaN (Expense.inputAmount e) = true → Expense.amount e = Js.Zero false)
      ∧ (∀ e0, initialExpense = Some e0 → Expense.id e0 ≠ 0%Z →
           Expense.id e = Expense.id e0 ∧ isEdit = true)
      ∧ (initialExpense = None → Expense.id e = now ∧ isEdit = false).
Proof.
  unfold ExpenseForm.handleSubmit.
  assert (∀ s, Js.truthy_str s = false ↔ s = "") as Hfalsy by (by intros []).
  destruct (negb _ || negb _) eqn:Hheld.
  - split; [|done]. split; [intros _|done].
    apply orb_true_iff in Hheld as [?%negb_true_iff|?%negb_true_iff];
      [left|right]; by apply Hfalsy.
  - apply orb_false_iff in Hheld as [Ha%negb_false_iff Hd%negb_false_iff].
    split.
    + split; [done|]. intros [Hempty|Hempty]; apply Hfalsy in Hempty; congruence.
    + intros e isEdit [= <- <-]. cbn [Expense.currency Expense.amount Expense.inputAmount
        Expense.id].
      split_and!; [done|done|apply twdAmount_not_NaN| | |].
      * intros Hnan. unfold twdAmount. by rewrite Hnan.
      * intros e0 -> Hid. by rewrite bool_decide_eq_false_2, bool_decide_eq_true_2.
      * intros ->. split; [done|]. apply bool_decide_eq_false_2. by intros [? ?].
Qed.

Lemma ExpenseForm_handleSubmit_record_witness :
  let form := ExpenseForm.mk "abc" JPY "拉麵" "餐飲" "2025-11-06" "John" in
  ∃ e, ExpenseForm.handleSubmit None 1762387200000 form = Some (e, false)
       ∧ Expense.amount e = Js.Zero false
       ∧ Expense.inputAmount e = Js.NaN
       ∧ Expense.id e = 1762387200000%Z.
Proof.
  intros form. eexists. split; [reflexivity|].
  destruct (ExpenseForm_handleSubmit_record None 1762387200000 form) as [_ Hrecord].
  destruct (Hrecord _ _ eq_refl) as (_ & _ & _ & Hzero & _ & Hnew).
  split_and!; [apply Hzero; by vm_compute|by vm_compute|by apply Hnew].
Defined.
